(** * Rentool: the Python batch drivers around the archive codec and the
      decompiler

    A shallow embedding of [rpa_wrapper.py] ([extract_rpa], [create_rpa],
    [list_rpa_files]) and [decompile_wrapper.py] ([decompile_directory]).

    The drivers are effectful: they call the archive codec, the decompiler,
    the file system, the clock and the progress file.  They are embedded in a
    small monad that threads the mutable locals of the running function,
    collects the external calls in a trace and propagates Python exceptions.
    The collaborators themselves (rpatool, unrpyc, os) are not part of the
    repository sources; their answers are taken from a [world] of oracles. *)

From Stdlib Require Import List String Ascii ZArith Lia Bool Arith.
From Stdlib Require Import Numbers.DecimalString.
From Stdlib Require Import Sorting.Sorted Sorting.Permutation.
From Stdlib Require Strings.Byte.
Import ListNotations.
Open Scope string_scope.
Open Scope list_scope.

Set Implicit Arguments.

(** ** Values *)

(** [str(e)] of a raised [Exception]. *)
Definition exn := string.

(** The result of a call that may raise. *)
Inductive outcome (A : Type) : Type :=
| Ok (a : A)
| Raise (e : exn).
Arguments Ok {A} a.
Arguments Raise {A} e.

Definition err_of {A} (o : outcome A) : option exn :=
  match o with Ok _ => None | Raise e => Some e end.

Definition bytes := list Byte.byte.

Inductive operation := extract | create | decompile.
Inductive status := in_progress | completed | failed.

(** The dictionary handed to [_write_progress]. *)
Record snapshot := Snapshot {
  op : operation;
  totalFiles : nat;
  processedFiles : nat;
  currentFile : string;
  startTime : Z;
  lastUpdateTime : Z;
  state_of : status;
  errorMessage : string
}.

Definition terminal (s : snapshot) : bool :=
  match state_of s with in_progress => false | _ => true end.

(** ** Strings as Python uses them here *)

(** ['{}'.format(n)] for a non-negative integer. *)
Definition fmt_nat (n : nat) : string :=
  NilEmpty.string_of_uint (Nat.to_uint n).

Definition ends_with_slash (s : string) : bool :=
  match get (String.length s - 1) s with
  | Some c => Ascii.eqb c "/"
  | None => false
  end.

Definition starts_with_slash (s : string) : bool :=
  match s with
  | String c _ => Ascii.eqb c "/"
  | EmptyString => false
  end.

(** [os.path.join(a, b)] on a POSIX host. *)
Definition path_join (a b : string) : string :=
  if starts_with_slash b then b
  else if (String.eqb a "" || ends_with_slash a)%bool then (a ++ b)%string
  else (a ++ "/" ++ b)%string.

Fixpoint rev_string (s : string) : string :=
  match s with
  | EmptyString => EmptyString
  | String c r => (rev_string r ++ String c EmptyString)%string
  end.

(** [s.endswith(suffix)]. *)
Definition endswith (s suffix : string) : bool :=
  prefix (rev_string suffix) (rev_string s).

(** [s.lower()], on the ASCII letters. *)
Definition lower_ascii (c : ascii) : ascii :=
  let n := nat_of_ascii c in
  if ((65 <=? n)%nat && (n <=? 90)%nat)%bool then ascii_of_nat (n + 32) else c.

Fixpoint lower (s : string) : string :=
  match s with
  | EmptyString => EmptyString
  | String c r => String (lower_ascii c) (lower r)
  end.

(** The text after the last ['/'] ([os.path.basename], which is what
    [Path(p).name] gives on a joined listing name). *)
Fixpoint basename_from (acc s : string) : string :=
  match s with
  | EmptyString => acc
  | String c r =>
      if Ascii.eqb c "/" then basename_from EmptyString r
      else basename_from (acc ++ String c EmptyString) r
  end.

Definition path_name (p : string) : string := basename_from EmptyString p.

(** [p[:p.rfind('/') + 1]]. *)
Fixpoint head_part (p : string) : string :=
  match p with
  | EmptyString => EmptyString
  | String c r =>
      match head_part r with
      | EmptyString => if Ascii.eqb c "/" then "/" else EmptyString
      | h => String c h
      end
  end.

(** [s.rstrip('/')]. *)
Fixpoint rstrip_slash (s : string) : string :=
  match s with
  | EmptyString => EmptyString
  | String c r =>
      match rstrip_slash r with
      | EmptyString => if Ascii.eqb c "/" then EmptyString else String c EmptyString
      | r' => String c r'
      end
  end.

(** [os.path.dirname(p)] on a POSIX host: the head up to the last slash,
    without its trailing slashes unless it consists of slashes only. *)
Definition dirname (p : string) : string :=
  let head := head_part p in
  match rstrip_slash head with
  | EmptyString => head
  | stripped => stripped
  end.

(** [list.sort()] on strings, by insertion. *)
Fixpoint insert_sorted (x : string) (l : list string) : list string :=
  match l with
  | [] => [x]
  | y :: r => if String.leb x y then x :: l else y :: insert_sorted x r
  end.

Definition sort_strings (l : list string) : list string :=
  fold_right insert_sorted [] l.

(** ** The file system under a directory *)

(** A directory entry: a file with the outcome of [open(...).read()], or an
    entry that [os.path.isdir] takes for a directory, with the outcome of
    listing it.  [link] tells whether the entry is a symbolic link to the
    directory: [os.path.isdir] and [os.listdir] follow such a link,
    [os.walk] lists it among the directories and does not walk into it. *)
#[local] Unset Elimination Schemes.
Inductive fsnode :=
| FFile (name : string) (rd : outcome bytes)
| FDir (name : string) (link : bool) (ls : outcome (list fsnode)).
#[local] Set Elimination Schemes.

Definition node_name (n : fsnode) : string :=
  match n with FFile name _ => name | FDir name _ _ => name end.

Definition is_dir (n : fsnode) : bool :=
  match n with FDir _ _ _ => true | FFile _ _ => false end.

(** The names [os.walk] reports as [files] for one directory. *)
Definition nondirs (l : list fsnode) : list string :=
  map node_name (filter (fun n => negb (is_dir n)) l).

(** [os.walk(top)], top-down, as the list of [(root, files)] it yields.  A
    directory that cannot be listed yields nothing ([onerror] is [None]),
    and so does a link to a directory ([followlinks] is [False]). *)
Fixpoint walk_node (top : string) (n : fsnode) {struct n} : list (string * list string) :=
  match n with
  | FFile _ _ => []
  | FDir name _ (Raise _) => []
  | FDir name true (Ok _) => []
  | FDir name false (Ok l) =>
      (path_join top name, nondirs l)
        :: flat_map (walk_node (path_join top name)) l
  end.

Definition os_walk (top : string) (ls : outcome (list fsnode)) : list (string * list string) :=
  match ls with
  | Raise _ => []
  | Ok l => (top, nondirs l) :: flat_map (walk_node top) l
  end.

(** ** External calls and the world *)

(** The archive object [RenPyArchive(path)] gives back. *)
Record archive := Archive {
  a_list : list string;      (* archive.list() *)
  a_version : string         (* str(archive.version) *)
}.

(** The decompile context of unrpyc: [decompile_rpyc] leaves the verdict on
    the file in its [state]. *)
Record context := Context_ { state : string }.

(** Modelled from the spec: the class [Context] of unrpyc is not among the
    sources.  [Context()] is the [newContext() -> context] of the decompiler
    contract: it makes a fresh context and does not raise.  The state of a
    fresh context is only read after [decompile_rpyc] has run. *)
Definition Context : context := {| state := "error" |}.

(** What the collaborators answer.  Each oracle stands for one call of the
    source; a [Raise] is an exception of that call. *)
Record world := World {
  (* int(time.time() * 1000) at the n-th reading of the clock *)
  clock : nat -> Z;
  (* open(progress_file, 'w') and json.dump(data, f) *)
  chan_write : string -> snapshot -> outcome unit;
  (* RenPyArchive(rpa_file_path, verbose=False) *)
  rpa_open : string -> outcome archive;
  (* archive.read(filename) *)
  rpa_read : string -> string -> outcome bytes;
  (* RenPyArchive(version=version, key=key, verbose=False) *)
  rpa_new : Z -> Z -> outcome unit;
  (* archive.add(archive_path, contents) *)
  rpa_add : string -> bytes -> outcome unit;
  (* archive.save(output_rpa_path) *)
  rpa_save : string -> outcome unit;
  (* os.path.exists(p), before the run has written anything *)
  path_exists : string -> bool;
  (* os.path.exists(p), once the progress file f has been opened for
     writing: path_exists_after f p *)
  path_exists_after : string -> string -> bool;
  (* os.makedirs(p) *)
  makedirs : string -> outcome unit;
  (* open(output_path, 'wb') and f.write(contents) *)
  write_file : string -> bytes -> outcome unit;
  (* os.listdir(p): the entries of the directory p, each with what
     os.path.isdir says of it and what reading or listing it gives, before
     the run has written anything *)
  listdir : string -> outcome (list fsnode);
  (* os.listdir(p), once the progress file f has been opened for writing:
     listdir_after f p *)
  listdir_after : string -> string -> outcome (list fsnode);
  (* decompile_rpyc(rpyc_file, context, ...) with the fixed flags *)
  decompile_rpyc : string -> context -> outcome context
}.

(** Truth value of the optional [progress_file] argument: [None] and the
    empty string are both false. *)
Definition truthy (progress_file : option string) : bool :=
  match progress_file with
  | Some s => negb (String.eqb s "")
  | None => false
  end.

(** The world as a call finds it after the first snapshot of the run.  With
    a progress file, [open(progress_file, 'w')] has by then created or
    truncated that file, and [os.listdir] and [os.path.exists] see the file
    system with it; without one, nothing has been written. *)
Definition after_write (w : world) (progress_file : option string) : world :=
  {| clock := clock w; chan_write := chan_write w; rpa_open := rpa_open w;
     rpa_read := rpa_read w; rpa_new := rpa_new w; rpa_add := rpa_add w;
     rpa_save := rpa_save w;
     path_exists :=
       fun p =>
         match progress_file with
         | Some f =>
             if truthy progress_file then path_exists_after w f p
             else path_exists w p
         | None => path_exists w p
         end;
     path_exists_after := path_exists_after w;
     makedirs := makedirs w; write_file := write_file w;
     listdir :=
       fun p =>
         match progress_file with
         | Some f =>
             if truthy progress_file then listdir_after w f p else listdir w p
         | None => listdir w p
         end;
     listdir_after := listdir_after w;
     decompile_rpyc := decompile_rpyc w |}.

(** One external call, with the exception it raised if any. *)
Inductive event :=
| EvProgress (progress_file : string) (data : snapshot) (err : option exn)
| EvOpen (rpa_file_path : string) (err : option exn)
| EvMakedirs (path : string) (err : option exn)
| EvRead (filename : string) (err : option exn)
| EvWriteFile (output_path : string) (contents : bytes) (err : option exn)
| EvNew (version key : Z) (err : option exn)
| EvListdir (dir_path : string) (err : option exn)
| EvReadFile (item_path : string) (err : option exn)
| EvAdd (archive_path : string) (contents : bytes) (err : option exn)
| EvSave (output_rpa_path : string) (err : option exn)
| EvDecompile (rpyc_file : string) (err : option exn).

(** ** The monad of the drivers *)

(** The locals that the [except] clauses look up with [in locals()], the two
    cells the nested [add_directory] mutates, and the number of clock
    readings so far. *)
Record frame := Frame {
  ticks : nat;
  total_files : option nat;
  file_index : option nat;
  added_files : list string
}.

Definition frame0 : frame :=
  {| ticks := 0; total_files := None; file_index := None; added_files := [] |}.

Definition M (A : Type) : Type := frame -> outcome A * list event * frame.

Definition ret {A} (a : A) : M A := fun s => (Ok a, [], s).

Definition bind {A B} (m : M A) (f : A -> M B) : M B :=
  fun s =>
    match m s with
    | (Ok a, t, s1) => let '(r, t', s2) := f a s1 in (r, t ++ t', s2)
    | (Raise e, t, s1) => (Raise e, t, s1)
    end.

(** [raise Exception(e)]. *)
Definition raise {A} (e : exn) : M A := fun s => (Raise e, [], s).

(** [try: m except Exception as e: h e].  The handler runs in the frame the
    body left behind. *)
Definition try_except {A} (m : M A) (h : exn -> M A) : M A :=
  fun s =>
    match m s with
    | (Ok a, t, s1) => (Ok a, t, s1)
    | (Raise e, t, s1) => let '(r, t', s2) := h e s1 in (r, t ++ t', s2)
    end.

(** An external call: its event is recorded, its outcome returned or raised. *)
Definition call {A} (ev : option exn -> event) (o : outcome A) : M A :=
  fun s => (o, [ev (err_of o)], s).

Definition get_frame : M frame := fun s => (Ok s, [], s).

Notation "x <- m ;; k" := (bind m (fun x => k))
  (at level 61, m at next level, right associativity).
Notation "m ;; k" := (bind m (fun _ => k))
  (at level 61, right associativity).

(** [if c: m]. *)
Definition when (c : bool) (m : M unit) : M unit := if c then m else ret tt.

Section Drivers.

Variable w : world.

(** [int(time.time() * 1000)]. *)
Definition time_ms : M Z :=
  fun s => (Ok (clock w (ticks s)), [],
            {| ticks := S (ticks s); total_files := total_files s;
               file_index := file_index s; added_files := added_files s |}).

(** [_write_progress(progress_file, data)], the same function in both
    source files: nothing without a progress file, and an exception of the
    write is dropped. *)
Definition _write_progress (progress_file : option string) (data : snapshot) : M unit :=
  if negb (truthy progress_file) then ret tt
  else
    let f := match progress_file with Some f => f | None => "" end in
    try_except (call (EvProgress f data) (chan_write w f data))
               (fun _ => ret tt).

Definition locals_total_files (s : frame) : nat :=
  match total_files s with Some n => n | None => 0 end.

Definition locals_file_index (s : frame) : nat :=
  match file_index s with Some n => n | None => 0 end.

Definition assign_total_files (n : nat) : M unit :=
  fun s => (Ok tt, [],
            {| ticks := ticks s; total_files := Some n;
               file_index := file_index s; added_files := added_files s |}).

Definition assign_file_index (n : nat) : M unit :=
  fun s => (Ok tt, [],
            {| ticks := ticks s; total_files := total_files s;
               file_index := Some n; added_files := added_files s |}).

Definition assign_added_files (l : list string) : M unit :=
  fun s => (Ok tt, [],
            {| ticks := ticks s; total_files := total_files s;
               file_index := file_index s; added_files := l |}).

(** [for x in l: f x]. *)
Section ForEach.

Variable A : Type.
Variable f : A -> M unit.

Fixpoint for_each (l : list A) : M unit :=
  match l with
  | [] => ret tt
  | x :: r => f x ;; for_each r
  end.

End ForEach.

(** [idx % 5 == 0 or idx == total_files - 1]. *)
Definition due (idx total_files : nat) : bool :=
  ((idx mod 5 =? 0)%nat || (Z.of_nat idx =? Z.of_nat total_files - 1)%Z)%bool.

(** *** rpa_wrapper.py *)

(** [dict(success=..., message=..., files=...)]. *)
Record result := Result {
  success : bool;
  message : string;
  files : list string
}.

(** How the loop of [extract_rpa] is left: by the [return] of its [except]
    clause, or at the end of the listing. *)
Inductive loop_exit :=
| Returned (r : result)
| Finished (extracted_files : list string).

Section Extract.

Variables (rpa_file_path output_dir : string) (progress_file : option string).
Variables (start_time : Z) (total_files : nat).

(** The body of the loop over the listing, for the entry at [idx].  The
    loop runs after the first snapshot: [os.path.exists] answers for the
    file system with the progress file. *)
Definition extract_item (idx : nat) (filename : string)
    (extracted_files : list string) : M loop_exit :=
  try_except
    (contents <- call (EvRead filename) (rpa_read w rpa_file_path filename) ;;
     let output_path := path_join output_dir filename in
     let output_file_dir := dirname output_path in
     when (negb (String.eqb output_file_dir "")
           && negb (path_exists (after_write w progress_file) output_file_dir))
          (call (EvMakedirs output_file_dir) (makedirs w output_file_dir)) ;;
     call (EvWriteFile output_path contents) (write_file w output_path contents) ;;
     let extracted_files := extracted_files ++ [filename] in
     when (truthy progress_file && due idx total_files)
          (now <- time_ms ;;
           _write_progress progress_file
             {| op := extract; totalFiles := total_files;
                processedFiles := idx + 1; currentFile := filename;
                startTime := start_time; lastUpdateTime := now;
                state_of := in_progress; errorMessage := "" |}) ;;
     ret (Finished extracted_files))
    (fun e =>
       let error_msg := ("Error extracting " ++ filename ++ ": " ++ e)%string in
       when (truthy progress_file)
            (now <- time_ms ;;
             _write_progress progress_file
               {| op := extract; totalFiles := total_files;
                  processedFiles := idx; currentFile := filename;
                  startTime := start_time; lastUpdateTime := now;
                  state_of := failed; errorMessage := error_msg |}) ;;
       ret (Returned {| success := false; message := error_msg;
                        files := extracted_files |})).

(** [for idx, filename in enumerate(files)], from [idx] on. *)
Fixpoint extract_loop (idx : nat) (todo extracted_files : list string) {struct todo}
  : M loop_exit :=
  match todo with
  | [] => ret (Finished extracted_files)
  | filename :: rest =>
      r <- extract_item idx filename extracted_files ;;
      match r with
      | Returned res => ret (Returned res)
      | Finished extracted_files => extract_loop (S idx) rest extracted_files
      end
  end.

End Extract.

Definition extract_rpa (rpa_file_path output_dir : string)
    (progress_file : option string) : M result :=
  start_time <- time_ms ;;
  try_except
    (archive <- call (EvOpen rpa_file_path) (rpa_open w rpa_file_path) ;;
     let files := a_list archive in
     let total_files := List.length files in
     when (truthy progress_file)
          (now <- time_ms ;;
           _write_progress progress_file
             {| op := extract; totalFiles := total_files; processedFiles := 0;
                currentFile := "Loading archive..."; startTime := start_time;
                lastUpdateTime := now; state_of := in_progress;
                errorMessage := "" |}) ;;
     when (negb (path_exists (after_write w progress_file) output_dir))
          (call (EvMakedirs output_dir) (makedirs w output_dir)) ;;
     r <- extract_loop rpa_file_path output_dir progress_file start_time
            total_files 0 files [] ;;
     match r with
     | Returned res => ret res
     | Finished extracted_files =>
         when (truthy progress_file)
              (now <- time_ms ;;
               _write_progress progress_file
                 {| op := extract; totalFiles := total_files;
                    processedFiles := total_files; currentFile := "Complete";
                    startTime := start_time; lastUpdateTime := now;
                    state_of := completed; errorMessage := "" |}) ;;
         ret {| success := true;
                message := ("Successfully extracted "
                            ++ fmt_nat (List.length extracted_files) ++ " files")%string;
                files := extracted_files |}
     end)
    (fun e =>
       let error_msg := ("Error: " ++ e)%string in
       when (truthy progress_file)
            (now <- time_ms ;;
             _write_progress progress_file
               {| op := extract; totalFiles := 0; processedFiles := 0;
                  currentFile := ""; startTime := start_time;
                  lastUpdateTime := now; state_of := failed;
                  errorMessage := error_msg |}) ;;
       ret {| success := false; message := error_msg; files := [] |}).

(** The nested [add_directory(dir_path, archive_prefix)] of [create_rpa].
    [add_item] is the body of its loop for one [item]; the closure variables
    [added_files] and [file_index] live in the frame, [total_files],
    [progress_file] and [start_time] are read only. *)
Section AddDirectory.

Variables (progress_file : option string) (start_time : Z) (total_files : nat).

(** The [else] branch of the loop body: the item is a file. *)
Definition add_file (item_path archive_path : string) (rd : outcome bytes) : M unit :=
  try_except
    (contents <- call (EvReadFile item_path) rd ;;
     call (EvAdd archive_path contents) (rpa_add w archive_path contents) ;;
     s <- get_frame ;;
     assign_added_files (added_files s ++ [archive_path]) ;;
     assign_file_index (locals_file_index s + 1) ;;
     let file_index0 := locals_file_index s + 1 in
     when (truthy progress_file
           && ((file_index0 mod 5 =? 0)%nat || (file_index0 =? total_files)%nat))
          (now <- time_ms ;;
           _write_progress progress_file
             {| op := create; totalFiles := total_files;
                processedFiles := file_index0; currentFile := archive_path;
                startTime := start_time; lastUpdateTime := now;
                state_of := in_progress; errorMessage := "" |}))
    (fun e =>
       let error_msg := ("Error adding " ++ item_path ++ ": " ++ e)%string in
       s <- get_frame ;;
       when (truthy progress_file)
            (now <- time_ms ;;
             _write_progress progress_file
               {| op := create; totalFiles := total_files;
                  processedFiles := locals_file_index s;
                  currentFile := archive_path;
                  startTime := start_time; lastUpdateTime := now;
                  state_of := failed; errorMessage := error_msg |}) ;;
       raise error_msg).

Fixpoint add_item (dir_path archive_prefix : string) (item : fsnode) {struct item}
  : M unit :=
  let item_path := path_join dir_path (node_name item) in
  (* .replace(os.sep, '/') changes nothing where os.sep is '/' *)
  let archive_path := path_join archive_prefix (node_name item) in
  match item with
  | FDir _ _ ls =>
      (* os.path.isdir(item_path): add_directory(item_path, archive_path) *)
      _ <- call (EvListdir item_path) ls ;;
      match ls with
      | Ok items => for_each (add_item item_path archive_path) items
      | Raise _ => ret tt
      end
  | FFile _ rd => add_file item_path archive_path rd
  end.

(** [create_rpa] calls [add_directory] after its first snapshot:
    [os.listdir] answers for the file system with the progress file. *)
Definition add_directory (dir_path archive_prefix : string) : M unit :=
  items <- call (EvListdir dir_path)
                (listdir (after_write w progress_file) dir_path) ;;
  for_each (add_item dir_path archive_prefix) items.

End AddDirectory.

(** [total_files] after the counting loop over [os.walk(source_dir)]. *)
Definition count_files (source_dir : string) : nat :=
  fold_left (fun total (rf : string * list string) => total + List.length (snd rf))
            (os_walk source_dir (listdir w source_dir)) 0.

Definition create_rpa (source_dir output_rpa_path : string) (version key : Z)
    (progress_file : option string) : M result :=
  start_time <- time_ms ;;
  try_except
    (let total_files := count_files source_dir in
     assign_total_files total_files ;;
     if (total_files =? 0)%nat then
       let error_msg := "No files found in source directory" in
       when (truthy progress_file)
            (now <- time_ms ;;
             _write_progress progress_file
               {| op := create; totalFiles := 0; processedFiles := 0;
                  currentFile := ""; startTime := start_time;
                  lastUpdateTime := now; state_of := failed;
                  errorMessage := error_msg |}) ;;
       ret {| success := false; message := error_msg; files := [] |}
     else
       when (truthy progress_file)
            (now <- time_ms ;;
             _write_progress progress_file
               {| op := create; totalFiles := total_files; processedFiles := 0;
                  currentFile := "Initializing archive..."; startTime := start_time;
                  lastUpdateTime := now; state_of := in_progress;
                  errorMessage := "" |}) ;;
       call (EvNew version key) (rpa_new w version key) ;;
       assign_added_files [] ;;
       assign_file_index 0 ;;
       add_directory progress_file start_time total_files source_dir "" ;;
       call (EvSave output_rpa_path) (rpa_save w output_rpa_path) ;;
       when (truthy progress_file)
            (now <- time_ms ;;
             _write_progress progress_file
               {| op := create; totalFiles := total_files;
                  processedFiles := total_files; currentFile := "Complete";
                  startTime := start_time; lastUpdateTime := now;
                  state_of := completed; errorMessage := "" |}) ;;
       s <- get_frame ;;
       ret {| success := true;
              message := ("Successfully created archive with "
                          ++ fmt_nat (List.length (added_files s)) ++ " files")%string;
              files := added_files s |})
    (fun e =>
       let error_msg := ("Error: " ++ e)%string in
       s <- get_frame ;;
       when (truthy progress_file)
            (now <- time_ms ;;
             _write_progress progress_file
               {| op := create;
                  (* total_files if 'total_files' in locals() else 0 *)
                  totalFiles := locals_total_files s;
                  (* file_index[0] if 'file_index' in locals() else 0 *)
                  processedFiles := locals_file_index s;
                  currentFile := ""; startTime := start_time;
                  lastUpdateTime := now; state_of := failed;
                  errorMessage := error_msg |}) ;;
       ret {| success := false; message := error_msg; files := [] |}).

(** [dict(success=..., message=..., files=..., version=...)]. *)
Record listing := Listing {
  l_success : bool;
  l_message : string;
  l_files : list string;
  l_version : string
}.

Definition list_rpa_files (rpa_file_path : string) : M listing :=
  try_except
    (archive <- call (EvOpen rpa_file_path) (rpa_open w rpa_file_path) ;;
     let files := sort_strings (a_list archive) in
     ret {| l_success := true;
            l_message := ("Found " ++ fmt_nat (List.length files) ++ " files")%string;
            l_files := files;
            l_version := a_version archive |})
    (fun e =>
       ret {| l_success := false; l_message := ("Error: " ++ e)%string;
              l_files := []; l_version := "unknown" |}).

(** *** decompile_wrapper.py *)

(** The [stats] dictionary: the three counters of the loop, and [total],
    which is stored after the loop. *)
Record stats := Stats {
  n_total : nat;
  n_success : nat;
  n_skipped : nat;
  n_failed : nat
}.

(** [dict(success=..., message=..., stats=...)]. *)
Record dresult := DResult {
  d_success : bool;
  d_message : string;
  d_stats : stats
}.

Definition zero_stats : stats :=
  {| n_total := 0; n_success := 0; n_skipped := 0; n_failed := 0 |}.

Definition incr_success (s : stats) : stats :=
  {| n_total := n_total s; n_success := n_success s + 1;
     n_skipped := n_skipped s; n_failed := n_failed s |}.
Definition incr_skipped (s : stats) : stats :=
  {| n_total := n_total s; n_success := n_success s;
     n_skipped := n_skipped s + 1; n_failed := n_failed s |}.
Definition incr_failed (s : stats) : stats :=
  {| n_total := n_total s; n_success := n_success s;
     n_skipped := n_skipped s; n_failed := n_failed s + 1 |}.
Definition store_total (n : nat) (s : stats) : stats :=
  {| n_total := n; n_success := n_success s;
     n_skipped := n_skipped s; n_failed := n_failed s |}.

(** The test on a file name of the scan. *)
Definition is_rpyc (file : string) : bool :=
  let file_lower := lower file in
  (endswith file_lower ".rpyc" || endswith file_lower ".rpymc")%bool.

(** [rpyc_files] after the scan of [os.walk(source_dir)]. *)
Definition find_rpyc (source_dir : string) : list string :=
  flat_map (fun rf : string * list string =>
              map (path_join (fst rf)) (filter is_rpyc (snd rf)))
           (os_walk source_dir (listdir w source_dir)).

Section DecompileLoop.

Variables (progress_file : option string) (start_time : Z) (total_files : nat).

(** The body of the loop over [rpyc_files], for the file at [idx]. *)
Definition decompile_item (idx : nat) (rpyc_file : string) (st : stats) : M stats :=
  let context := Context in
  try_except
    (when (truthy progress_file && due idx total_files)
          (now <- time_ms ;;
           _write_progress progress_file
             {| op := decompile; totalFiles := total_files;
                processedFiles := idx;
                currentFile := path_name rpyc_file;
                startTime := start_time; lastUpdateTime := now;
                state_of := in_progress; errorMessage := "" |}) ;;
     context <- call (EvDecompile rpyc_file)
                     (decompile_rpyc w rpyc_file context) ;;
     if String.eqb (state context) "ok" then ret (incr_success st)
     else if String.eqb (state context) "skip" then ret (incr_skipped st)
     else ret (incr_failed st))
    (fun _ => ret (incr_failed st)).

(** [for idx, rpyc_file in enumerate(rpyc_files)], from [idx] on. *)
Fixpoint decompile_loop (idx : nat) (todo : list string) (st : stats) {struct todo}
  : M stats :=
  match todo with
  | [] => ret st
  | rpyc_file :: rest =>
      st' <- decompile_item idx rpyc_file st ;;
      decompile_loop (S idx) rest st'
  end.

End DecompileLoop.

Definition decompile_failure (progress_file : option string) (start_time : Z)
    (total : nat) (error_msg : string) : M dresult :=
  when (truthy progress_file)
       (now <- time_ms ;;
        _write_progress progress_file
          {| op := decompile; totalFiles := total; processedFiles := 0;
             currentFile := ""; startTime := start_time;
             lastUpdateTime := now; state_of := failed;
             errorMessage := error_msg |}) ;;
  ret {| d_success := false; d_message := error_msg; d_stats := zero_stats |}.

(** [source_dir] is [None] for Python's [None]. *)
Definition decompile_directory (source_dir : option string)
    (progress_file : option string) : M dresult :=
  start_time <- time_ms ;;
  try_except
    (match source_dir with
     | None =>
         decompile_failure progress_file start_time 0
           "Source directory is None or empty"
     | Some source_dir =>
         if String.eqb source_dir "" then
           decompile_failure progress_file start_time 0
             "Source directory is None or empty"
         else if negb (path_exists w source_dir) then
           decompile_failure progress_file start_time 0
             ("Source directory does not exist: " ++ source_dir)
         else
           let rpyc_files := find_rpyc source_dir in
           let total_files := List.length rpyc_files in
           assign_total_files total_files ;;
           if (total_files =? 0)%nat then
             decompile_failure progress_file start_time 0
               "No .rpyc files found in directory"
           else
             when (truthy progress_file)
                  (now <- time_ms ;;
                   _write_progress progress_file
                     {| op := decompile; totalFiles := total_files;
                        processedFiles := 0; currentFile := "Scanning files...";
                        startTime := start_time; lastUpdateTime := now;
                        state_of := in_progress; errorMessage := "" |}) ;;
             st <- decompile_loop progress_file start_time total_files
                     0 rpyc_files zero_stats ;;
             when (truthy progress_file)
                  (now <- time_ms ;;
                   _write_progress progress_file
                     {| op := decompile; totalFiles := total_files;
                        processedFiles := total_files; currentFile := "Complete";
                        startTime := start_time; lastUpdateTime := now;
                        state_of := completed; errorMessage := "" |}) ;;
             let st := store_total total_files st in
             let message :=
               ("Decompiled " ++ fmt_nat total_files ++ " files ("
                ++ fmt_nat (n_success st) ++ " successful, "
                ++ fmt_nat (n_skipped st) ++ " skipped, "
                ++ fmt_nat (n_failed st) ++ " failed)")%string in
             ret {| d_success := true; d_message := message; d_stats := st |}
     end)
    (fun e =>
       s <- get_frame ;;
       (* total_files if 'total_files' in locals() else 0 *)
       decompile_failure progress_file start_time (locals_total_files s)
         ("Error: " ++ e)).

End Drivers.

(** A run starts in an empty frame; what is observed of it is the value
    returned or the exception that escapes, and the trace. *)
Definition run {A} (m : M A) : outcome A * list event :=
  fst (m frame0).

Definition returned {A} (m : M A) : outcome A := fst (run m).
Definition trace {A} (m : M A) : list event := snd (run m).

(** ** Observations on a trace *)

(** The snapshots handed to the progress file, oldest first. *)
Definition written_of (ev : event) : list snapshot :=
  match ev with EvProgress _ d _ => [d] | _ => [] end.

Definition written (t : list event) : list snapshot := flat_map written_of t.

(** A snapshot without its two time stamps. *)
Definition untimed (d : snapshot) : snapshot :=
  {| op := op d; totalFiles := totalFiles d; processedFiles := processedFiles d;
     currentFile := currentFile d; startTime := 0; lastUpdateTime := 0;
     state_of := state_of d; errorMessage := errorMessage d |}.

Definition is_progress (ev : event) : bool :=
  match ev with EvProgress _ _ _ => true | _ => false end.

(** The calls other than the writes of the progress file. *)
Definition calls (t : list event) : list event :=
  filter (fun ev => negb (is_progress ev)) t.

(** The exception of a call, for the calls whose exception is a fault of the
    run: every call but the write of the progress file (dropped by
    [_write_progress]) and the decompilation of one file (counted by
    [decompile_directory]). *)
Definition fault_of (ev : event) : option exn :=
  match ev with
  | EvProgress _ _ _ => None
  | EvDecompile _ _ => None
  | EvOpen _ err => err
  | EvMakedirs _ err => err
  | EvRead _ err => err
  | EvWriteFile _ _ err => err
  | EvNew _ _ err => err
  | EvListdir _ err => err
  | EvReadFile _ err => err
  | EvAdd _ _ err => err
  | EvSave _ err => err
  end.

Definition faults (t : list event) : list exn :=
  flat_map (fun ev => match fault_of ev with Some e => [e] | None => [] end) t.

(** [msg] ends with the description [d]. *)
Definition carries (msg d : string) : Prop :=
  exists before : string, msg = (before ++ d)%string.

(** Pointwise equality of computations. *)
Definition meq {A} (m m' : M A) : Prop := forall s, m s = m' s.

(** Two frames that differ at most in the number of clock readings. *)
Definition same_locals (s s' : frame) : Prop :=
  total_files s' = total_files s /\ file_index s' = file_index s
  /\ added_files s' = added_files s.

(** The snapshots of a loop that reports the items [names], the first of
    which has index [idx]: one for every index that is [due]. *)
Fixpoint periodic (mk : nat -> string -> snapshot) (total idx : nat)
    (names : list string) : list snapshot :=
  match names with
  | [] => []
  | name :: rest =>
      (if due idx total then [mk idx name] else [])
        ++ periodic mk total (S idx) rest
  end.

(** *** What a run of [extract_rpa] does, entry by entry *)

Section ExtractSummary.

Variable w : world.
Variables (rpa_file_path output_dir : string) (progress_file : option string).

(** The calls of the loop body for one entry, up to the write of the file. *)
Definition extract_entry (filename : string) : M unit :=
  contents <- call (EvRead filename) (rpa_read w rpa_file_path filename) ;;
  let output_path := path_join output_dir filename in
  let output_file_dir := dirname output_path in
  when (negb (String.eqb output_file_dir "")
        && negb (path_exists w output_file_dir))
       (call (EvMakedirs output_file_dir) (makedirs w output_file_dir)) ;;
  call (EvWriteFile output_path contents) (write_file w output_path contents).

(** The exception that extracting one entry raises, if any. *)
Definition entry_error (filename : string) : option exn :=
  err_of (returned (extract_entry filename)).

Definition entry_calls (filename : string) : list event :=
  trace (extract_entry filename).

(** The entries extracted before the first failure. *)
Fixpoint extracted_prefix (todo : list string) : list string :=
  match todo with
  | [] => []
  | filename :: rest =>
      match entry_error filename with
      | None => filename :: extracted_prefix rest
      | Some _ => []
      end
  end.

(** The first entry that fails, with its exception. *)
Fixpoint first_failure (todo : list string) : option (string * exn) :=
  match todo with
  | [] => None
  | filename :: rest =>
      match entry_error filename with
      | None => first_failure rest
      | Some e => Some (filename, e)
      end
  end.

Definition extract_error_msg (fe : string * exn) : string :=
  ("Error extracting " ++ fst fe ++ ": " ++ snd fe)%string.

Definition extract_tick (total idx : nat) (filename : string) : snapshot :=
  {| op := extract; totalFiles := total; processedFiles := idx + 1;
     currentFile := filename; startTime := 0; lastUpdateTime := 0;
     state_of := in_progress; errorMessage := "" |}.

Definition extract_failed (total idx : nat) (fe : string * exn) : snapshot :=
  {| op := extract; totalFiles := total; processedFiles := idx;
     currentFile := fst fe; startTime := 0; lastUpdateTime := 0;
     state_of := failed; errorMessage := extract_error_msg fe |}.

Definition loop_exit_of (todo extracted_files : list string) : loop_exit :=
  match first_failure todo with
  | Some fe =>
      Returned {| success := false; message := extract_error_msg fe;
                  files := extracted_files ++ extracted_prefix todo |}
  | None => Finished (extracted_files ++ todo)
  end.

Definition loop_snapshots (total idx : nat) (todo : list string) : list snapshot :=
  if truthy progress_file then
    periodic (extract_tick total) total idx (extracted_prefix todo)
      ++ match first_failure todo with
         | Some fe =>
             [extract_failed total (idx + List.length (extracted_prefix todo)) fe]
         | None => []
         end
  else [].

Definition loop_calls (todo : list string) : list event :=
  flat_map entry_calls (extracted_prefix todo)
    ++ match first_failure todo with
       | Some fe => entry_calls (fst fe)
       | None => []
       end.

Definition extract_initial (total : nat) : snapshot :=
  {| op := extract; totalFiles := total; processedFiles := 0;
     currentFile := "Loading archive..."; startTime := 0; lastUpdateTime := 0;
     state_of := in_progress; errorMessage := "" |}.

Definition extract_completed (total : nat) : snapshot :=
  {| op := extract; totalFiles := total; processedFiles := total;
     currentFile := "Complete"; startTime := 0; lastUpdateTime := 0;
     state_of := completed; errorMessage := "" |}.

Definition extract_fault (e : exn) : snapshot :=
  {| op := extract; totalFiles := 0; processedFiles := 0;
     currentFile := ""; startTime := 0; lastUpdateTime := 0;
     state_of := failed; errorMessage := ("Error: " ++ e)%string |}.

(** The outcome and the calls of making sure that [output_dir] exists. *)
Definition ensure_output : outcome unit :=
  if path_exists w output_dir then Ok tt else makedirs w output_dir.

Definition ensure_calls : list event :=
  if path_exists w output_dir then []
  else [EvMakedirs output_dir (err_of (makedirs w output_dir))].

(** The result of a run that reaches the loop over the listing [todo]. *)
Definition extract_result (todo : list string) : result :=
  match first_failure todo with
  | Some fe =>
      {| success := false; message := extract_error_msg fe;
         files := extracted_prefix todo |}
  | None =>
      {| success := true;
         message := ("Successfully extracted "
                     ++ fmt_nat (List.length todo) ++ " files")%string;
         files := todo |}
  end.

End ExtractSummary.

(** *** What a run of [decompile_directory] does, file by file *)

Section DecompileSummary.

Variable w : world.

(** The counter that one file increments. *)
Definition verdict (rpyc_file : string) : stats -> stats :=
  match decompile_rpyc w rpyc_file Context with
  | Ok context =>
      if String.eqb (state context) "ok" then incr_success
      else if String.eqb (state context) "skip" then incr_skipped
      else incr_failed
  | Raise _ => incr_failed
  end.

Definition tally (todo : list string) (st : stats) : stats :=
  fold_left (fun st rpyc_file => verdict rpyc_file st) todo st.

Definition decompile_calls (todo : list string) : list event :=
  map (fun rpyc_file =>
         EvDecompile rpyc_file (err_of (decompile_rpyc w rpyc_file Context)))
      todo.

Definition decompile_tick (total idx : nat) (rpyc_file : string) : snapshot :=
  {| op := decompile; totalFiles := total; processedFiles := idx;
     currentFile := path_name rpyc_file; startTime := 0; lastUpdateTime := 0;
     state_of := in_progress; errorMessage := "" |}.

Definition decompile_initial (total : nat) : snapshot :=
  {| op := decompile; totalFiles := total; processedFiles := 0;
     currentFile := "Scanning files..."; startTime := 0; lastUpdateTime := 0;
     state_of := in_progress; errorMessage := "" |}.

Definition decompile_completed (total : nat) : snapshot :=
  {| op := decompile; totalFiles := total; processedFiles := total;
     currentFile := "Complete"; startTime := 0; lastUpdateTime := 0;
     state_of := completed; errorMessage := "" |}.

Definition decompile_failed (error_msg : string) : snapshot :=
  {| op := decompile; totalFiles := 0; processedFiles := 0;
     currentFile := ""; startTime := 0; lastUpdateTime := 0;
     state_of := failed; errorMessage := error_msg |}.

(** The message with which a run is refused before any file is processed. *)
Definition decompile_refusal (source_dir : option string) : option string :=
  match source_dir with
  | None => Some "Source directory is None or empty"
  | Some source_dir =>
      if String.eqb source_dir "" then Some "Source directory is None or empty"
      else if negb (path_exists w source_dir)
      then Some ("Source directory does not exist: " ++ source_dir)%string
      else if (List.length (find_rpyc w source_dir) =? 0)%nat
      then Some "No .rpyc files found in directory"
      else None
  end.

(** The files of the scan. *)
Definition scanned (source_dir : option string) : list string :=
  match source_dir with
  | None => []
  | Some source_dir => find_rpyc w source_dir
  end.

Definition decompile_message (st : stats) : string :=
  ("Decompiled " ++ fmt_nat (n_total st) ++ " files ("
   ++ fmt_nat (n_success st) ++ " successful, "
   ++ fmt_nat (n_skipped st) ++ " skipped, "
   ++ fmt_nat (n_failed st) ++ " failed)")%string.

End DecompileSummary.

(** *** What a run of [create_rpa] does, item by item *)

(** The walk of [add_directory], flattened: a file to read and add, or a
    directory to list. *)
Inductive step :=
| SFile (item_path archive_path : string) (rd : outcome bytes)
| SList (dir_path : string) (err : option exn).

(** The steps that the loop body of [add_directory(dir_path, archive_prefix)]
    takes for [item], in the order of the walk, were no step to fail. *)
Fixpoint steps_of (dir_path archive_prefix : string) (item : fsnode) {struct item}
  : list step :=
  let item_path := path_join dir_path (node_name item) in
  let archive_path := path_join archive_prefix (node_name item) in
  match item with
  | FFile _ rd => [SFile item_path archive_path rd]
  | FDir _ _ ls =>
      SList item_path (err_of ls)
        :: match ls with
           | Ok items => flat_map (steps_of item_path archive_path) items
           | Raise _ => []
           end
  end.

(** The steps of [add_directory(dir_path, archive_prefix)] on a directory
    whose listing is [ls]. *)
Definition dir_steps (dir_path archive_prefix : string)
    (ls : outcome (list fsnode)) : list step :=
  SList dir_path (err_of ls)
    :: match ls with
       | Ok items => flat_map (steps_of dir_path archive_prefix) items
       | Raise _ => []
       end.

Definition is_file_step (st : step) : bool :=
  match st with SFile _ _ _ => true | SList _ _ => false end.

Definition step_path (st : step) : list string :=
  match st with SFile _ archive_path _ => [archive_path] | SList _ _ => [] end.

Section CreateSummary.

Variable w : world.

(** The exception of reading or adding one file, if any. *)
Definition file_cause (archive_path : string) (rd : outcome bytes) : option exn :=
  match rd with
  | Raise e => Some e
  | Ok contents => err_of (rpa_add w archive_path contents)
  end.

Definition add_error_msg (item_path : string) (e : exn) : string :=
  ("Error adding " ++ item_path ++ ": " ++ e)%string.

(** The exception with which a step leaves [add_directory], if any. *)
Definition step_error (st : step) : option exn :=
  match st with
  | SFile item_path archive_path rd =>
      match file_cause archive_path rd with
      | Some e => Some (add_error_msg item_path e)
      | None => None
      end
  | SList _ err => err
  end.

Definition step_calls (st : step) : list event :=
  match st with
  | SFile item_path archive_path rd =>
      EvReadFile item_path (err_of rd)
        :: match rd with
           | Ok contents =>
               [EvAdd archive_path contents
                      (err_of (rpa_add w archive_path contents))]
           | Raise _ => []
           end
  | SList dir_path err => [EvListdir dir_path err]
  end.

(** The steps done before the first one that fails. *)
Fixpoint done_steps (steps : list step) : list step :=
  match steps with
  | [] => []
  | st :: rest =>
      match step_error st with
      | None => st :: done_steps rest
      | Some _ => []
      end
  end.

(** The first step that fails. *)
Fixpoint bad_step (steps : list step) : option step :=
  match steps with
  | [] => None
  | st :: rest =>
      match step_error st with
      | None => bad_step rest
      | Some _ => Some st
      end
  end.

(** The archive paths added before the first failure. *)
Definition walk_added (steps : list step) : list string :=
  flat_map step_path (done_steps steps).

Definition walk_result (steps : list step) : outcome unit :=
  match bad_step steps with
  | Some st =>
      match step_error st with Some e => Raise e | None => Ok tt end
  | None => Ok tt
  end.

Definition walk_calls (steps : list step) : list event :=
  flat_map step_calls (done_steps steps)
    ++ match bad_step steps with
       | Some st => step_calls st
       | None => []
       end.

Definition create_tick (total file_index0 : nat) (archive_path : string) : snapshot :=
  {| op := create; totalFiles := total; processedFiles := file_index0;
     currentFile := archive_path; startTime := 0; lastUpdateTime := 0;
     state_of := in_progress; errorMessage := "" |}.

(** The snapshots of the files added, [fi] files having been added before. *)
Fixpoint create_ticks (total fi : nat) (paths : list string) : list snapshot :=
  match paths with
  | [] => []
  | archive_path :: rest =>
      (if (((fi + 1) mod 5 =? 0)%nat || (fi + 1 =? total)%nat)%bool
       then [create_tick total (fi + 1) archive_path] else [])
        ++ create_ticks total (fi + 1) rest
  end.

(** The failed snapshot that [add_directory] writes for a file. *)
Definition create_failed (total fi : nat) (st : step) : list snapshot :=
  match st with
  | SFile item_path archive_path rd =>
      match step_error st with
      | Some error_msg =>
          [{| op := create; totalFiles := total; processedFiles := fi;
              currentFile := archive_path; startTime := 0; lastUpdateTime := 0;
              state_of := failed; errorMessage := error_msg |}]
      | None => []
      end
  | SList _ _ => []
  end.

Definition walk_snapshots (total fi : nat) (steps : list step) : list snapshot :=
  create_ticks total fi (walk_added steps)
    ++ match bad_step steps with
       | Some st => create_failed total (fi + List.length (walk_added steps)) st
       | None => []
       end.

Definition create_initial (total : nat) : snapshot :=
  {| op := create; totalFiles := total; processedFiles := 0;
     currentFile := "Initializing archive..."; startTime := 0;
     lastUpdateTime := 0; state_of := in_progress; errorMessage := "" |}.

Definition create_completed (total : nat) : snapshot :=
  {| op := create; totalFiles := total; processedFiles := total;
     currentFile := "Complete"; startTime := 0; lastUpdateTime := 0;
     state_of := completed; errorMessage := "" |}.

(** The failed snapshot of the [except] clause of [create_rpa]. *)
Definition create_fault (total fi : nat) (e : exn) : snapshot :=
  {| op := create; totalFiles := total; processedFiles := fi;
     currentFile := ""; startTime := 0; lastUpdateTime := 0;
     state_of := failed; errorMessage := ("Error: " ++ e)%string |}.

(** The failed snapshot of a run that finds no file. *)
Definition create_refused : snapshot :=
  {| op := create; totalFiles := 0; processedFiles := 0;
     currentFile := ""; startTime := 0; lastUpdateTime := 0;
     state_of := failed; errorMessage := "No files found in source directory" |}.

(** The steps of the walk that [create_rpa] starts. *)
Definition create_steps (source_dir : string) : list step :=
  dir_steps source_dir "" (listdir w source_dir).

End CreateSummary.

(** *** Files of a directory tree *)

(** The number of files that [os.walk] finds under an entry: through the
    directories that can be listed and are not links. *)
Fixpoint tree_files (item : fsnode) {struct item} : nat :=
  match item with
  | FFile _ _ => 1
  | FDir _ false (Ok items) => list_sum (map tree_files items)
  | FDir _ true (Ok _) => 0
  | FDir _ _ (Raise _) => 0
  end.

Definition dir_files (ls : outcome (list fsnode)) : nat :=
  match ls with
  | Ok items => list_sum (map tree_files items)
  | Raise _ => 0
  end.

(** The archive paths of the files that [add_directory] reaches under an
    entry, in the order of its walk: through the directories that can be
    listed, links followed. *)
Fixpoint tree_paths (archive_prefix : string) (item : fsnode) {struct item}
  : list string :=
  match item with
  | FFile name _ => [path_join archive_prefix name]
  | FDir name _ (Ok items) =>
      flat_map (tree_paths (path_join archive_prefix name)) items
  | FDir _ _ (Raise _) => []
  end.

Definition dir_paths (ls : outcome (list fsnode)) : list string :=
  match ls with
  | Ok items => flat_map (tree_paths "") items
  | Raise _ => []
  end.

(** A tree without links to directories, so far as it can be listed. *)
Fixpoint link_free (item : fsnode) {struct item} : bool :=
  match item with
  | FFile _ _ => true
  | FDir _ link (Ok items) => (negb link && forallb link_free items)%bool
  | FDir _ _ (Raise _) => true
  end.

Definition dir_link_free (ls : outcome (list fsnode)) : bool :=
  match ls with
  | Ok items => forallb link_free items
  | Raise _ => true
  end.

(** The sum that the counting loop of [create_rpa] computes. *)
Definition sum_files (l : list (string * list string)) : nat :=
  fold_left (fun total (rf : string * list string) => total + List.length (snd rf))
            l 0.

(** *** Further observations *)

(** The entries whose read was attempted. *)
Definition reads (t : list event) : list string :=
  flat_map (fun ev => match ev with EvRead f _ => [f] | _ => [] end) t.

(** The paths whose write was attempted, and those written. *)
Definition write_attempts (t : list event) : list string :=
  flat_map (fun ev => match ev with EvWriteFile p _ _ => [p] | _ => [] end) t.

Definition files_written (t : list event) : list string :=
  flat_map (fun ev => match ev with EvWriteFile p _ None => [p] | _ => [] end) t.

(** The archive paths added to the new archive. *)
Definition paths_added (t : list event) : list string :=
  flat_map (fun ev => match ev with EvAdd p _ None => [p] | _ => [] end) t.

(** The files handed to the decompiler. *)
Definition decompiled (t : list event) : list string :=
  flat_map (fun ev => match ev with EvDecompile f _ => [f] | _ => [] end) t.

Definition is_save (ev : event) : bool :=
  match ev with EvSave _ _ => true | _ => false end.

(** A list of numbers that never decreases. *)
Fixpoint nondecreasing (l : list nat) : Prop :=
  match l with
  | [] => True
  | x :: r => match r with [] => True | y :: _ => x <= y end /\ nondecreasing r
  end.

(** ... and stays between [lo] and [hi]. *)
Fixpoint ascending (lo hi : nat) (l : list nat) : Prop :=
  match l with
  | [] => lo <= hi
  | x :: r => lo <= x /\ ascending x hi r
  end.

(** Exactly one terminal snapshot, with nothing written after it. *)
Definition one_terminal_last (l : list snapshot) : Prop :=
  exists before d,
    l = before ++ [d] /\ terminal d = true
    /\ Forall (fun x => terminal x = false) before.

(** The snapshots [l] of a run over [total] items: the first one reports no
    item processed, the number of items processed never decreases, and it
    never exceeds the reported total, which never exceeds [total]. *)
Definition progress_ok (total : nat) (l : list snapshot) : Prop :=
  match l with
  | d :: _ => processedFiles d = 0
  | [] => True
  end
  /\ nondecreasing (map processedFiles l)
  /\ Forall (fun d => processedFiles d <= totalFiles d /\ totalFiles d <= total) l.

(** The world [w] with another progress file. *)
Definition set_chan (c : string -> snapshot -> outcome unit) (w : world) : world :=
  {| clock := clock w; chan_write := c; rpa_open := rpa_open w;
     rpa_read := rpa_read w; rpa_new := rpa_new w; rpa_add := rpa_add w;
     rpa_save := rpa_save w; path_exists := path_exists w;
     path_exists_after := path_exists_after w;
     makedirs := makedirs w; write_file := write_file w;
     listdir := listdir w; listdir_after := listdir_after w;
     decompile_rpyc := decompile_rpyc w |}.

(** The world [w] with another progress file, the writes of which leave
    the file system answering [pa] and [la]. *)
Definition set_chan_after (c : string -> snapshot -> outcome unit)
    (pa : string -> string -> bool)
    (la : string -> string -> outcome (list fsnode)) (w : world) : world :=
  {| clock := clock w; chan_write := c; rpa_open := rpa_open w;
     rpa_read := rpa_read w; rpa_new := rpa_new w; rpa_add := rpa_add w;
     rpa_save := rpa_save w; path_exists := path_exists w;
     path_exists_after := pa;
     makedirs := makedirs w; write_file := write_file w;
     listdir := listdir w; listdir_after := la;
     decompile_rpyc := decompile_rpyc w |}.

(** How one file counts in [decompile_directory]. *)
Definition file_ok (w : world) (rpyc_file : string) : bool :=
  match decompile_rpyc w rpyc_file Context with
  | Ok context => String.eqb (state context) "ok"
  | Raise _ => false
  end.

Definition file_skipped (w : world) (rpyc_file : string) : bool :=
  match decompile_rpyc w rpyc_file Context with
  | Ok context =>
      (negb (String.eqb (state context) "ok") && String.eqb (state context) "skip")%bool
  | Raise _ => false
  end.

(** The decompilation of the file fails: the decompiler raises, or leaves a
    state that is neither ["ok"] nor ["skip"]. *)
Definition file_failed (w : world) (rpyc_file : string) : bool :=
  match decompile_rpyc w rpyc_file Context with
  | Ok context =>
      (negb (String.eqb (state context) "ok")
       && negb (String.eqb (state context) "skip"))%bool
  | Raise _ => true
  end.

(** *** The results of the four operations *)

Definition extract_summary (w : world) (rpa_file_path output_dir : string) : result :=
  match rpa_open w rpa_file_path with
  | Raise e => {| success := false; message := ("Error: " ++ e)%string; files := [] |}
  | Ok a =>
      match ensure_output w output_dir with
      | Raise e =>
          {| success := false; message := ("Error: " ++ e)%string; files := [] |}
      | Ok _ => extract_result w rpa_file_path output_dir (a_list a)
      end
  end.

(** The exception that reaches the [except] clause of [create_rpa], if any. *)
Definition create_error (w : world) (progress_file : option string)
    (source_dir output_rpa_path : string) (version key : Z) : option exn :=
  match rpa_new w version key with
  | Raise e => Some e
  | Ok _ =>
      match walk_result w (create_steps (after_write w progress_file)
                                        source_dir) with
      | Raise e => Some e
      | Ok _ => err_of (rpa_save w output_rpa_path)
      end
  end.

Definition create_summary (w : world) (progress_file : option string)
    (source_dir output_rpa_path : string) (version key : Z) : result :=
  if (count_files w source_dir =? 0)%nat then
    {| success := false; message := "No files found in source directory";
       files := [] |}
  else
    match create_error w progress_file source_dir output_rpa_path version key
    with
    | Some e =>
        {| success := false; message := ("Error: " ++ e)%string; files := [] |}
    | None =>
        let added :=
          walk_added w (create_steps (after_write w progress_file) source_dir)
        in
        {| success := true;
           message := ("Successfully created archive with "
                       ++ fmt_nat (List.length added) ++ " files")%string;
           files := added |}
    end.

Definition decompile_summary (w : world) (source_dir : option string) : dresult :=
  match decompile_refusal w source_dir with
  | Some error_msg =>
      {| d_success := false; d_message := error_msg; d_stats := zero_stats |}
  | None =>
      let todo := scanned w source_dir in
      let st := store_total (List.length todo) (tally w todo zero_stats) in
      {| d_success := true; d_message := decompile_message st; d_stats := st |}
  end.

Definition list_summary (w : world) (rpa_file_path : string) : listing :=
  match rpa_open w rpa_file_path with
  | Raise e =>
      {| l_success := false; l_message := ("Error: " ++ e)%string;
         l_files := []; l_version := "unknown" |}
  | Ok a =>
      let files := sort_strings (a_list a) in
      {| l_success := true;
         l_message := ("Found " ++ fmt_nat (List.length files) ++ " files")%string;
         l_files := files; l_version := a_version a |}
  end.

(** *** What the snapshots say of the result *)

(** The snapshots [l] end with the one that reports the result of the run:
    [completed], with every file processed, when [ok]; [failed], with the
    message of the result, otherwise. *)
Definition reports (l : list snapshot) (ok : bool) (msg : string) : Prop :=
  exists before d,
    l = before ++ [d]
    /\ (if ok
        then state_of d = completed /\ processedFiles d = totalFiles d
             /\ errorMessage d = ""%string
        else state_of d = failed /\ errorMessage d = msg).

(** A snapshot of the operation [o] on [total] items: it names the
    operation, it has an error message exactly when it is [failed], and as
    long as the run has not failed it shows the number of items. *)
Definition sound_snapshot (o : operation) (total : nat) (d : snapshot) : Prop :=
  op d = o
  /\ (state_of d = failed <-> errorMessage d <> ""%string)
  /\ (state_of d <> failed -> totalFiles d = total).

(** A trace in which a call that fails is the last call. *)
Fixpoint stops_at_fault (t : list event) : Prop :=
  match t with
  | [] => True
  | ev :: rest => (fault_of ev = None \/ rest = []) /\ stops_at_fault rest
  end.

(** The order of [list.sort()] on strings. *)
Definition string_le (a b : string) : Prop := String.leb a b = true.

(** What a call of a run of [extract_rpa] may be: the opening of the
    archive, the reading of a listed entry, the creation of the output
    directory or of the directory of the output path of a listed entry,
    where the path was not there, or the writing, to the output path of a
    listed entry, of what has been read from it. *)
Definition extract_event (w : world) (rpa_file_path output_dir : string)
    (ev : event) : Prop :=
  let listed filename :=
    exists a, rpa_open w rpa_file_path = Ok a /\ In filename (a_list a) in
  match ev with
  | EvOpen p _ => p = rpa_file_path
  | EvRead filename _ => listed filename
  | EvWriteFile p contents _ =>
      exists filename,
        listed filename /\ p = path_join output_dir filename
        /\ rpa_read w rpa_file_path filename = Ok contents
  | EvMakedirs p _ =>
      path_exists w p = false
      /\ (p = output_dir
          \/ exists filename,
               listed filename /\ p = dirname (path_join output_dir filename))
  | _ => False
  end.

(** A name without a slash. *)
Fixpoint no_slash (s : string) : bool :=
  match s with
  | EmptyString => true
  | String c r => (negb (Ascii.eqb c "/") && no_slash r)%bool
  end.

(** ** Example worlds *)

(** A world in which every call succeeds and nothing is there. *)
Definition calm : world :=
  {| clock := fun n => Z.of_nat n;
     chan_write := fun _ _ => Ok tt;
     rpa_open := fun _ => Ok {| a_list := []; a_version := "3" |};
     rpa_read := fun _ _ => Ok [];
     rpa_new := fun _ _ => Ok tt;
     rpa_add := fun _ _ => Ok tt;
     rpa_save := fun _ => Ok tt;
     path_exists := fun _ => true;
     path_exists_after := fun _ _ => true;
     makedirs := fun _ => Ok tt;
     write_file := fun _ _ => Ok tt;
     listdir := fun _ => Raise "No such file or directory";
     listdir_after := fun _ _ => Raise "No such file or directory";
     decompile_rpyc := fun _ _ => Ok {| state := "ok" |} |}.

Definition with_listdir (ls : outcome (list fsnode)) (w : world) : world :=
  {| clock := clock w; chan_write := chan_write w; rpa_open := rpa_open w;
     rpa_read := rpa_read w; rpa_new := rpa_new w; rpa_add := rpa_add w;
     rpa_save := rpa_save w; path_exists := path_exists w;
     path_exists_after := path_exists_after w;
     makedirs := makedirs w; write_file := write_file w;
     listdir := fun _ => ls; listdir_after := fun _ _ => ls;
     decompile_rpyc := decompile_rpyc w |}.

Definition with_archive (names : list string)
    (rd : string -> outcome bytes) (w : world) : world :=
  {| clock := clock w; chan_write := chan_write w;
     rpa_open := fun _ => Ok {| a_list := names; a_version := "3" |};
     rpa_read := fun _ => rd; rpa_new := rpa_new w; rpa_add := rpa_add w;
     rpa_save := rpa_save w; path_exists := path_exists w;
     path_exists_after := path_exists_after w;
     makedirs := makedirs w; write_file := write_file w;
     listdir := listdir w; listdir_after := listdir_after w;
     decompile_rpyc := decompile_rpyc w |}.

Definition with_decompiler (d : string -> context -> outcome context)
    (w : world) : world :=
  {| clock := clock w; chan_write := chan_write w; rpa_open := rpa_open w;
     rpa_read := rpa_read w; rpa_new := rpa_new w; rpa_add := rpa_add w;
     rpa_save := rpa_save w; path_exists := path_exists w;
     path_exists_after := path_exists_after w;
     makedirs := makedirs w; write_file := write_file w;
     listdir := listdir w; listdir_after := listdir_after w;
     decompile_rpyc := d |}.

(** A source directory with a readable file [a.txt] and an unreadable file
    [b.txt]. *)
Definition one_unreadable : world :=
  with_listdir
    (Ok [FFile "a.txt" (Ok []); FFile "b.txt" (Raise "Permission denied")])
    calm.

(** A directory with two compiled scripts, the second of which the
    decompiler cannot read, and a text file. *)
Definition scripts : world :=
  with_decompiler
    (fun rpyc_file _ =>
       if String.eqb rpyc_file "game/bad.RPYC" then Raise "bad magic number"
       else Ok {| state := "ok" |})
    (with_listdir
       (Ok [FFile "a.rpyc" (Ok []); FFile "bad.RPYC" (Ok []);
            FFile "notes.txt" (Ok [])])
       calm).

(** An archive of three entries, the second of which cannot be read. *)
Definition three_entries : world :=
  with_archive ["a"; "b"; "c"]
    (fun filename =>
       if String.eqb filename "b" then Raise "corrupt entry" else Ok [])
    calm.

(** An archive of seven entries. *)
Definition seven_entries : world :=
  with_archive ["e0"; "e1"; "e2"; "e3"; "e4"; "e5"; "e6"] (fun _ => Ok []) calm.

(** A directory with seven compiled scripts. *)
Definition seven_scripts : world :=
  with_listdir
    (Ok [FFile "s0.rpyc" (Ok []); FFile "s1.rpyc" (Ok []);
         FFile "s2.rpyc" (Ok []); FFile "s3.rpyc" (Ok []);
         FFile "s4.rpyc" (Ok []); FFile "s5.rpyc" (Ok []);
         FFile "s6.rpyc" (Ok [])])
    calm.

(** A source directory with a file and a link to a directory of five
    files. *)
Definition linked_tree : world :=
  with_listdir
    (Ok [FFile "a.txt" (Ok []);
         FDir "pictures" true
              (Ok [FFile "p1.png" (Ok []); FFile "p2.png" (Ok []);
                   FFile "p3.png" (Ok []); FFile "p4.png" (Ok []);
                   FFile "p5.png" (Ok [])])])
    calm.

(** The world [w] in which a listing, once the progress file is there,
    gives [ls]. *)
Definition with_listdir_after (ls : outcome (list fsnode)) (w : world) : world :=
  {| clock := clock w; chan_write := chan_write w; rpa_open := rpa_open w;
     rpa_read := rpa_read w; rpa_new := rpa_new w; rpa_add := rpa_add w;
     rpa_save := rpa_save w; path_exists := path_exists w;
     path_exists_after := path_exists_after w;
     makedirs := makedirs w; write_file := write_file w;
     listdir := listdir w; listdir_after := fun _ _ => ls;
     decompile_rpyc := decompile_rpyc w |}.

(** A source directory of four files in which the run creates its progress
    file. *)
Definition progress_inside : world :=
  with_listdir_after
    (Ok [FFile "a.txt" (Ok []); FFile "b.txt" (Ok []); FFile "c.txt" (Ok []);
         FFile "d.txt" (Ok []); FFile "progress.json" (Ok [])])
    (with_listdir
       (Ok [FFile "a.txt" (Ok []); FFile "b.txt" (Ok []);
            FFile "c.txt" (Ok []); FFile "d.txt" (Ok [])])
       calm).

(** An archive without entries, to be extracted into a directory that is
    not there and cannot be created. *)
Definition no_output_dir : world :=
  {| clock := clock calm; chan_write := chan_write calm;
     rpa_open := rpa_open calm; rpa_read := rpa_read calm;
     rpa_new := rpa_new calm; rpa_add := rpa_add calm;
     rpa_save := rpa_save calm;
     path_exists := fun _ => false;
     path_exists_after := fun _ _ => false;
     makedirs := fun _ => Raise "Permission denied";
     write_file := write_file calm;
     listdir := listdir calm; listdir_after := listdir_after calm;
     decompile_rpyc := decompile_rpyc calm |}.

(** The three components of a computation started in a frame. *)
Definition val_of {A} (m : M A) (s : frame) : outcome A := fst (fst (m s)).
Definition tr_of {A} (m : M A) (s : frame) : list event := snd (fst (m s)).
Definition fr_of {A} (m : M A) (s : frame) : frame := snd (m s).

(** [m] performs the steps [steps] of the walk of [create_rpa]: it stops
    with the exception of the first step that fails, and the frame and the
    trace are those of the steps done. *)
Definition walks (w : world) (progress_file : option string) (total : nat)
    (m : M unit) (steps : list step) : Prop :=
  forall s,
    val_of m s = walk_result w steps
    /\ total_files (fr_of m s) = total_files s
    /\ locals_file_index (fr_of m s)
       = locals_file_index s + List.length (walk_added w steps)
    /\ added_files (fr_of m s) = added_files s ++ walk_added w steps
    /\ map untimed (written (tr_of m s))
       = (if truthy progress_file
          then walk_snapshots w total (locals_file_index s) steps else [])
    /\ calls (tr_of m s) = walk_calls w steps.

(** *** The time stamps of the snapshots *)

(** The time stamps of the snapshots [l] of a run started at [t0], the first
    of which is built at the reading [k] of the clock: every snapshot carries
    [t0] as its start time, and the next reading of the clock as the time of
    its update. *)
Definition stamped (w : world) (t0 : Z) (k : nat) (l : list snapshot) : Prop :=
  map startTime l = repeat t0 (List.length l)
  /\ map lastUpdateTime l = map (clock w) (seq k (List.length l)).

(** [m] reads the clock once for each snapshot that it writes, and stamps
    the snapshot with that reading. *)
Definition ticking (w : world) (t0 : Z) {A} (m : M A) : Prop :=
  forall s,
    ticks (fr_of m s) = ticks s + List.length (written (tr_of m s))
    /\ stamped w t0 (ticks s) (written (tr_of m s)).

(** A clock that never goes back. *)
Definition monotone_clock (w : world) : Prop :=
  forall i j, i <= j -> (clock w i <= clock w j)%Z.

(** ** Basic facts about runs *)

Lemma written_app t1 t2 : written (t1 ++ t2) = written t1 ++ written t2.
Proof. apply flat_map_app. Qed.

Lemma calls_app t1 t2 : calls (t1 ++ t2) = calls t1 ++ calls t2.
Proof. apply filter_app. Qed.

Lemma faults_app t1 t2 : faults (t1 ++ t2) = faults t1 ++ faults t2.
Proof. apply flat_map_app. Qed.

Lemma faults_calls t : faults (calls t) = faults t.
Proof.
  unfold faults, calls.
  induction t as [|ev t IH]; [reflexivity|].
  destruct ev; cbn; rewrite ?IH; reflexivity.
Qed.

Lemma same_locals_refl s : same_locals s s.
Proof. repeat split. Qed.

Lemma same_locals_trans s1 s2 s3 :
  same_locals s1 s2 -> same_locals s2 s3 -> same_locals s1 s3.
Proof.
  intros (a & b & c) (a' & b' & c'); repeat split; congruence.
Qed.

Lemma run_eta {A} (m : M A) s : m s = (val_of m s, tr_of m s, fr_of m s).
Proof. unfold val_of, tr_of, fr_of. destruct (m s) as [[r t] s']. reflexivity. Qed.

Lemma run_val {A} (m : M A) s r t s' : m s = (r, t, s') -> val_of m s = r.
Proof. unfold val_of; intros ->; reflexivity. Qed.

Lemma run_tr {A} (m : M A) s r t s' : m s = (r, t, s') -> tr_of m s = t.
Proof. unfold tr_of; intros ->; reflexivity. Qed.

Lemma run_fr {A} (m : M A) s r t s' : m s = (r, t, s') -> fr_of m s = s'.
Proof. unfold fr_of; intros ->; reflexivity. Qed.

Lemma run_of_val {A} (m : M A) s r :
  val_of m s = r -> m s = (r, tr_of m s, fr_of m s).
Proof. intros <-. apply run_eta. Qed.

(** The rules by which a run is computed. *)

Lemma run_bind_ok {A B} (m : M A) (f : A -> M B) s a t s1 r t' s2 :
  m s = (Ok a, t, s1) -> f a s1 = (r, t', s2) ->
  bind m f s = (r, t ++ t', s2).
Proof. unfold bind; intros -> ->; reflexivity. Qed.

Lemma run_bind_raise {A B} (m : M A) (f : A -> M B) s e t s1 :
  m s = (Raise e, t, s1) -> bind m f s = (Raise e, t, s1).
Proof. unfold bind; intros ->; reflexivity. Qed.

Lemma run_try_ok {A} (m : M A) (h : exn -> M A) s a t s1 :
  m s = (Ok a, t, s1) -> try_except m h s = (Ok a, t, s1).
Proof. unfold try_except; intros ->; reflexivity. Qed.

Lemma run_try_raise {A} (m : M A) (h : exn -> M A) s e t s1 r t' s2 :
  m s = (Raise e, t, s1) -> h e s1 = (r, t', s2) ->
  try_except m h s = (r, t ++ t', s2).
Proof. unfold try_except; intros -> ->; reflexivity. Qed.

Section Reporting.

Variable w : world.

(** [_write_progress] returns, whatever the write does. *)
Lemma _write_progress_run progress_file d s :
  exists t, _write_progress w progress_file d s = (Ok tt, t, s)
            /\ written t = (if truthy progress_file then [d] else [])
            /\ calls t = [].
Proof.
  unfold _write_progress.
  destruct (truthy progress_file) eqn:Hp; cbn.
  - unfold try_except, call.
    destruct progress_file as [f|]; [|discriminate].
    destruct (chan_write w f d) as [[]|e]; cbn; eexists; repeat split.
  - eexists; repeat split.
Qed.

(** The guarded snapshot of the drivers: [if c: _write_progress(...)], the
    dictionary being built after one reading of the clock. *)
Definition report (c : bool) (progress_file : option string) (mk : Z -> snapshot)
  : M unit :=
  when c (now <- time_ms w ;; _write_progress w progress_file (mk now)).

Lemma report_run c progress_file mk s :
  report c progress_file mk s
    = (Ok tt, tr_of (report c progress_file mk) s,
       fr_of (report c progress_file mk) s).
Proof.
  rewrite (run_eta (report c progress_file mk) s) at 1.
  f_equal. f_equal. unfold val_of, report.
  destruct c; cbn; [|reflexivity].
  unfold bind, time_ms.
  match goal with
  | |- context [_write_progress w progress_file ?d ?s1] =>
      destruct (_write_progress_run progress_file d s1) as (t & E & _)
  end.
  rewrite E. reflexivity.
Qed.

Lemma report_facts c progress_file mk s :
  same_locals s (fr_of (report c progress_file mk) s)
  /\ written (tr_of (report c progress_file mk) s)
     = (if (c && truthy progress_file)%bool
        then [mk (clock w (ticks s))] else [])
  /\ calls (tr_of (report c progress_file mk) s) = [].
Proof.
  unfold fr_of, tr_of, report.
  destruct c; cbn; [|repeat split].
  unfold bind, time_ms.
  match goal with
  | |- context [_write_progress w progress_file ?d ?s1] =>
      destruct (_write_progress_run progress_file d s1) as (t & E & Hw & Hc)
  end.
  rewrite E. cbn. repeat split; assumption.
Qed.

End Reporting.

Lemma when_true (m : M unit) : when true m = m.
Proof. reflexivity. Qed.

Lemma when_false (m : M unit) : when false m = ret tt.
Proof. reflexivity. Qed.

(** The runs taken from lemmas; extended as the loops are characterised. *)
Ltac run_known := eassumption.

(** Symbolic execution of a computation whose oracles have been decided. *)
Ltac run :=
  cbv beta iota zeta;
  lazymatch goal with
  | |- ret _ _ = _ => reflexivity
  | |- raise _ _ = _ => reflexivity
  | |- call _ ?o _ = _ =>
      first [ match goal with H : o = _ |- _ => rewrite H; reflexivity end
            | reflexivity ]
  | |- get_frame _ = _ => reflexivity
  | |- time_ms _ _ = _ => reflexivity
  | |- assign_total_files _ _ = _ => reflexivity
  | |- assign_file_index _ _ = _ => reflexivity
  | |- assign_added_files _ _ = _ => reflexivity
  | |- bind _ _ _ = _ =>
      first [ eapply run_bind_ok; [ solve [run] | run ]
            | eapply run_bind_raise; solve [run] ]
  | |- try_except _ _ _ = _ =>
      first [ eapply run_try_ok; solve [run]
            | eapply run_try_raise; [ solve [run] | run ] ]
  | |- when true _ _ = _ => rewrite when_true; run
  | |- when false _ _ = _ => rewrite when_false; run
  | |- when _ (bind (time_ms _) _) _ = _ => apply report_run
  | |- (if ?c then _ else _) _ = _ =>
      match goal with H : c = _ |- _ => rewrite H; run end
  | |- _ => run_known
  end.

Lemma report_written w c progress_file mk s :
  written (tr_of (report w c progress_file mk) s)
  = (if (c && truthy progress_file)%bool then [mk (clock w (ticks s))] else []).
Proof. apply report_facts. Qed.

Lemma report_calls w c progress_file mk s :
  calls (tr_of (report w c progress_file mk) s) = [].
Proof. apply report_facts. Qed.

Lemma report_locals w c progress_file mk s :
  same_locals s (fr_of (report w c progress_file mk) s).
Proof. apply report_facts. Qed.

Lemma report_total_files w c progress_file mk s :
  total_files (fr_of (report w c progress_file mk) s) = total_files s.
Proof. apply report_facts. Qed.

Lemma report_file_index w c progress_file mk s :
  file_index (fr_of (report w c progress_file mk) s) = file_index s.
Proof. apply report_facts. Qed.

Lemma report_added_files w c progress_file mk s :
  added_files (fr_of (report w c progress_file mk) s) = added_files s.
Proof. apply report_facts. Qed.

Lemma report_locals_file_index w c progress_file mk s :
  locals_file_index (fr_of (report w c progress_file mk) s) = locals_file_index s.
Proof. unfold locals_file_index. rewrite report_file_index. reflexivity. Qed.

Lemma report_locals_total_files w c progress_file mk s :
  locals_total_files (fr_of (report w c progress_file mk) s) = locals_total_files s.
Proof. unfold locals_total_files. rewrite report_total_files. reflexivity. Qed.

(** Replace a computation of the goal by its run. *)
Ltac run_goal :=
  match goal with
  | |- context [val_of ?m ?s] =>
      let E := fresh "E" in
      eassert (E : m s = _) by run;
      rewrite ?(run_val _ _ E), ?(run_tr _ _ E), ?(run_fr _ _ E);
      clear E
  end.

(** The same for a computation observed through [returned] and [trace]. *)
Ltac run_closed :=
  match goal with
  | |- context [fst (?m frame0)] =>
      let E := fresh "E" in
      eassert (E : m frame0 = _) by run;
      rewrite !E;
      clear E
  end.

Ltac tidy :=
  rewrite ?written_app, ?calls_app, ?map_app,
          ?report_written, ?report_calls, ?app_nil_r,
          ?report_total_files, ?report_added_files,
          ?report_locals_file_index, ?report_locals_total_files;
  cbn [written calls flat_map written_of filter is_progress negb app map err_of].

(** The oracles that the first snapshot leaves as they are. *)
Ltac settle :=
  repeat match goal with
  | |- context [clock (after_write ?w ?pf)] =>
      change (clock (after_write w pf)) with (clock w)
  | H : context [clock (after_write ?w ?pf)] |- _ =>
      change (clock (after_write w pf)) with (clock w) in H
  | |- context [chan_write (after_write ?w ?pf)] =>
      change (chan_write (after_write w pf)) with (chan_write w)
  | H : context [chan_write (after_write ?w ?pf)] |- _ =>
      change (chan_write (after_write w pf)) with (chan_write w) in H
  | |- context [rpa_open (after_write ?w ?pf)] =>
      change (rpa_open (after_write w pf)) with (rpa_open w)
  | H : context [rpa_open (after_write ?w ?pf)] |- _ =>
      change (rpa_open (after_write w pf)) with (rpa_open w) in H
  | |- context [rpa_read (after_write ?w ?pf)] =>
      change (rpa_read (after_write w pf)) with (rpa_read w)
  | H : context [rpa_read (after_write ?w ?pf)] |- _ =>
      change (rpa_read (after_write w pf)) with (rpa_read w) in H
  | |- context [rpa_new (after_write ?w ?pf)] =>
      change (rpa_new (after_write w pf)) with (rpa_new w)
  | H : context [rpa_new (after_write ?w ?pf)] |- _ =>
      change (rpa_new (after_write w pf)) with (rpa_new w) in H
  | |- context [rpa_add (after_write ?w ?pf)] =>
      change (rpa_add (after_write w pf)) with (rpa_add w)
  | H : context [rpa_add (after_write ?w ?pf)] |- _ =>
      change (rpa_add (after_write w pf)) with (rpa_add w) in H
  | |- context [rpa_save (after_write ?w ?pf)] =>
      change (rpa_save (after_write w pf)) with (rpa_save w)
  | H : context [rpa_save (after_write ?w ?pf)] |- _ =>
      change (rpa_save (after_write w pf)) with (rpa_save w) in H
  | |- context [makedirs (after_write ?w ?pf)] =>
      change (makedirs (after_write w pf)) with (makedirs w)
  | H : context [makedirs (after_write ?w ?pf)] |- _ =>
      change (makedirs (after_write w pf)) with (makedirs w) in H
  | |- context [write_file (after_write ?w ?pf)] =>
      change (write_file (after_write w pf)) with (write_file w)
  | H : context [write_file (after_write ?w ?pf)] |- _ =>
      change (write_file (after_write w pf)) with (write_file w) in H
  | |- context [decompile_rpyc (after_write ?w ?pf)] =>
      change (decompile_rpyc (after_write w pf)) with (decompile_rpyc w)
  | H : context [decompile_rpyc (after_write ?w ?pf)] |- _ =>
      change (decompile_rpyc (after_write w pf)) with (decompile_rpyc w) in H
  end.

(** ** The loop of [extract_rpa] *)

Section ExtractFacts.

Variable w : world.
Variables (rpa_file_path output_dir : string) (progress_file : option string).
Variables (start_time : Z) (total : nat).

#[local] Abbreviation fs := (after_write w progress_file).

Lemma extract_item_run idx filename ex s :
  let m := extract_item w rpa_file_path output_dir progress_file start_time
             total idx filename ex in
  let err := entry_error fs rpa_file_path output_dir filename in
  val_of m s
  = Ok (match err with
        | None => Finished (ex ++ [filename])
        | Some e =>
            Returned {| success := false;
                        message := extract_error_msg (filename, e);
                        files := ex |}
        end)
  /\ same_locals s (fr_of m s)
  /\ map untimed (written (tr_of m s))
     = (if truthy progress_file then
          match err with
          | None => if due idx total then [extract_tick total idx filename] else []
          | Some e => [extract_failed total idx (filename, e)]
          end
        else [])
  /\ calls (tr_of m s) = entry_calls fs rpa_file_path output_dir filename.
Proof.
  intros m err. subst m err.
  unfold entry_error, entry_calls, returned, trace, run, extract_entry, extract_item.
  cbv zeta. settle.
  destruct (rpa_read w rpa_file_path filename) as [contents|e] eqn:Hr;
    [ destruct (negb (dirname (path_join output_dir filename) =? "")
                && negb (path_exists fs (dirname (path_join output_dir filename))))%bool;
      [ destruct (makedirs w (dirname (path_join output_dir filename)))
          as [[]|e1] eqn:Hm |];
      destruct (write_file w (path_join output_dir filename) contents)
        as [[]|e2] eqn:Hw
    | ];
    run_goal; run_closed; tidy; cbn [fst snd];
    (split; [reflexivity|]); (split; [apply report_locals|]);
    (split; [|reflexivity]);
    destruct (truthy progress_file); try destruct (due idx total); reflexivity.
Qed.

Lemma extract_loop_run todo : forall idx ex s,
  let m := extract_loop w rpa_file_path output_dir progress_file start_time
             total idx todo ex in
  val_of m s = Ok (loop_exit_of fs rpa_file_path output_dir todo ex)
  /\ same_locals s (fr_of m s)
  /\ map untimed (written (tr_of m s))
     = loop_snapshots fs rpa_file_path output_dir progress_file total idx todo
  /\ calls (tr_of m s) = loop_calls fs rpa_file_path output_dir todo.
Proof.
  induction todo as [|filename rest IH]; intros idx ex s m; subst m.
  - unfold loop_exit_of, loop_snapshots, loop_calls; cbn.
    rewrite app_nil_r. destruct (truthy progress_file);
      repeat split; apply same_locals_refl.
  - cbn [extract_loop].
    destruct (extract_item_run idx filename ex s) as (Hv & Hl & Hw & Hc).
    apply run_of_val in Hv.
    unfold loop_exit_of, loop_snapshots, loop_calls.
    cbn [first_failure extracted_prefix].
    destruct (entry_error fs rpa_file_path output_dir filename) as [e|] eqn:He.
    + run_goal. tidy. rewrite Hw, Hc. cbn [List.length fst].
      rewrite Nat.add_0_r, ?app_nil_r.
      split; [reflexivity|]. split; [assumption|]. split; [|reflexivity].
      destruct (truthy progress_file); reflexivity.
    + destruct (IH (S idx) (ex ++ [filename])
                   (fr_of (extract_item w rpa_file_path output_dir progress_file
                                        start_time total idx filename ex) s))
        as (Hv' & Hl' & Hw' & Hc').
      apply run_of_val in Hv'.
      run_goal. tidy. rewrite Hw, Hc, Hw', Hc'.
      unfold loop_exit_of, loop_snapshots, loop_calls.
      cbn [periodic flat_map List.length].
      rewrite <- !app_assoc. cbn [app].
      replace (idx + S (List.length (extracted_prefix fs rpa_file_path output_dir rest)))
        with (S idx + List.length (extracted_prefix fs rpa_file_path output_dir rest))
        by lia.
      split; [|split; [|split]].
      * destruct (first_failure fs rpa_file_path output_dir rest); reflexivity.
      * eapply same_locals_trans; eassumption.
      * destruct (truthy progress_file); [|reflexivity].
        destruct (due idx total); reflexivity.
      * reflexivity.
Qed.

Lemma extract_loop_eq idx todo ex s :
  let m := extract_loop w rpa_file_path output_dir progress_file start_time
             total idx todo ex in
  m s = (Ok (loop_exit_of fs rpa_file_path output_dir todo ex),
         tr_of m s, fr_of m s).
Proof. intros m. apply run_of_val, extract_loop_run. Qed.

Lemma extract_loop_eq' idx todo ex s ff :
  first_failure fs rpa_file_path output_dir todo = ff ->
  let m := extract_loop w rpa_file_path output_dir progress_file start_time
             total idx todo ex in
  m s = (Ok match ff with
            | Some fe =>
                Returned {| success := false; message := extract_error_msg fe;
                            files := ex ++ extracted_prefix fs rpa_file_path
                                             output_dir todo |}
            | None => Finished (ex ++ todo)
            end,
         tr_of m s, fr_of m s).
Proof. intros <-. apply extract_loop_eq. Qed.

Lemma extract_loop_written idx todo ex s :
  map untimed
      (written (tr_of (extract_loop w rpa_file_path output_dir progress_file
                                    start_time total idx todo ex) s))
  = loop_snapshots fs rpa_file_path output_dir progress_file total idx todo.
Proof. apply extract_loop_run. Qed.

Lemma extract_loop_calls idx todo ex s :
  calls (tr_of (extract_loop w rpa_file_path output_dir progress_file
                             start_time total idx todo ex) s)
  = loop_calls fs rpa_file_path output_dir todo.
Proof. apply extract_loop_run. Qed.

End ExtractFacts.

Ltac run_known ::=
  first [ eassumption
        | eapply extract_loop_eq'; eassumption
        | apply extract_loop_eq ].

Lemma returned_val {A} (m : M A) : returned m = val_of m frame0.
Proof. reflexivity. Qed.

Lemma trace_tr {A} (m : M A) : trace m = tr_of m frame0.
Proof. reflexivity. Qed.

(** ** Runs of [extract_rpa] *)

Section ExtractRuns.

Variable w : world.
Variables (rpa_file_path output_dir : string) (progress_file : option string).

Let m := extract_rpa w rpa_file_path output_dir progress_file.

#[local] Abbreviation fs := (after_write w progress_file).

(** The archive cannot be opened. *)
Lemma extract_rpa_open_fails e :
  rpa_open w rpa_file_path = Raise e ->
  returned m = Ok {| success := false; message := ("Error: " ++ e)%string;
                     files := [] |}
  /\ map untimed (written (trace m))
     = (if truthy progress_file then [extract_fault e] else [])
  /\ calls (trace m) = [EvOpen rpa_file_path (Some e)].
Proof.
  intros Ho. subst m. rewrite returned_val, trace_tr. unfold extract_rpa.
  run_goal. tidy.
  repeat split. destruct (truthy progress_file); reflexivity.
Qed.

(** The archive opens, the output directory cannot be created. *)
Lemma extract_rpa_output_fails a e :
  rpa_open w rpa_file_path = Ok a ->
  ensure_output fs output_dir = Raise e ->
  returned m = Ok {| success := false; message := ("Error: " ++ e)%string;
                     files := [] |}
  /\ map untimed (written (trace m))
     = (if truthy progress_file
        then [extract_initial (List.length (a_list a)); extract_fault e]
        else [])
  /\ calls (trace m)
     = [EvOpen rpa_file_path None; EvMakedirs output_dir (Some e)].
Proof.
  intros Ho Hd. subst m. rewrite returned_val, trace_tr.
  unfold extract_rpa, ensure_output in *.
  destruct (path_exists fs output_dir); [discriminate|]. cbn [negb]. settle.
  run_goal. tidy.
  repeat split. destruct (truthy progress_file); reflexivity.
Qed.

(** The archive opens and the output directory is there: the loop runs. *)
Lemma extract_rpa_proceeds a :
  rpa_open w rpa_file_path = Ok a ->
  ensure_output fs output_dir = Ok tt ->
  let todo := a_list a in
  returned m = Ok (extract_result fs rpa_file_path output_dir todo)
  /\ map untimed (written (trace m))
     = (if truthy progress_file
        then extract_initial (List.length todo)
               :: loop_snapshots fs rpa_file_path output_dir progress_file
                    (List.length todo) 0 todo
               ++ match first_failure fs rpa_file_path output_dir todo with
                  | Some _ => []
                  | None => [extract_completed (List.length todo)]
                  end
        else [])
  /\ calls (trace m)
     = EvOpen rpa_file_path None
         :: ensure_calls fs output_dir
         ++ loop_calls fs rpa_file_path output_dir todo.
Proof.
  intros Ho Hd todo. subst m todo. rewrite returned_val, trace_tr.
  unfold extract_rpa, ensure_output, ensure_calls, extract_result in *.
  destruct (first_failure fs rpa_file_path output_dir (a_list a)) as [fe|] eqn:Hf;
    destruct (path_exists fs output_dir); cbn [negb]; settle;
    run_goal; tidy; rewrite ?extract_loop_written, ?extract_loop_calls;
    cbn [app]; rewrite ?Hd; cbn [err_of];
    (split; [reflexivity|]); (split; [|reflexivity]);
    destruct (truthy progress_file) eqn:Hp; cbn [andb map app];
    try reflexivity;
    unfold loop_snapshots; rewrite Hp; reflexivity.
Qed.

End ExtractRuns.

(** ** The loop of [decompile_directory] *)

Section DecompileFacts.

Variable w : world.
Variables (progress_file : option string) (start_time : Z) (total : nat).

Lemma decompile_item_run idx rpyc_file st s :
  let m := decompile_item w progress_file start_time total idx rpyc_file st in
  val_of m s = Ok (verdict w rpyc_file st)
  /\ same_locals s (fr_of m s)
  /\ map untimed (written (tr_of m s))
     = (if (truthy progress_file && due idx total)%bool
        then [decompile_tick total idx rpyc_file] else [])
  /\ calls (tr_of m s)
     = [EvDecompile rpyc_file (err_of (decompile_rpyc w rpyc_file Context))].
Proof.
  intros m; subst m. unfold decompile_item, verdict. cbv zeta.
  destruct (decompile_rpyc w rpyc_file Context) as [c|e] eqn:Hd;
    [ destruct (String.eqb (state c) "ok") eqn:Hok;
      [| destruct (String.eqb (state c) "skip") eqn:Hskip ] |].
  all: run_goal; tidy; cbn [fst snd];
    (split; [reflexivity|]); (split; [apply report_locals|]);
    (split; [|reflexivity]);
    rewrite andb_comm, andb_assoc, andb_diag;
    destruct (truthy progress_file && due idx total)%bool; reflexivity.
Qed.

Lemma decompile_loop_run todo : forall idx st s,
  let m := decompile_loop w progress_file start_time total idx todo st in
  val_of m s = Ok (tally w todo st)
  /\ same_locals s (fr_of m s)
  /\ map untimed (written (tr_of m s))
     = (if truthy progress_file
        then periodic (decompile_tick total) total idx todo else [])
  /\ calls (tr_of m s) = decompile_calls w todo.
Proof.
  induction todo as [|rpyc_file rest IH]; intros idx st s m; subst m.
  - cbn. destruct (truthy progress_file); repeat split; apply same_locals_refl.
  - cbn [decompile_loop].
    destruct (decompile_item_run idx rpyc_file st s) as (Hv & Hl & Hw & Hc).
    apply run_of_val in Hv.
    destruct (IH (S idx) (verdict w rpyc_file st)
                 (fr_of (decompile_item w progress_file start_time total
                                        idx rpyc_file st) s))
      as (Hv' & Hl' & Hw' & Hc').
    apply run_of_val in Hv'.
    run_goal. tidy. rewrite Hw, Hc, Hw', Hc'.
    split; [reflexivity|]. split; [eapply same_locals_trans; eassumption|].
    split; [|reflexivity].
    cbn [periodic].
    destruct (truthy progress_file); [|reflexivity].
    destruct (due idx total); reflexivity.
Qed.

Lemma decompile_loop_eq idx todo st s :
  let m := decompile_loop w progress_file start_time total idx todo st in
  m s = (Ok (tally w todo st), tr_of m s, fr_of m s).
Proof. intros m. apply run_of_val, decompile_loop_run. Qed.

Lemma decompile_loop_written idx todo st s :
  map untimed
      (written (tr_of (decompile_loop w progress_file start_time total
                                      idx todo st) s))
  = (if truthy progress_file
     then periodic (decompile_tick total) total idx todo else []).
Proof. apply decompile_loop_run. Qed.

Lemma decompile_loop_calls idx todo st s :
  calls (tr_of (decompile_loop w progress_file start_time total idx todo st) s)
  = decompile_calls w todo.
Proof. apply decompile_loop_run. Qed.

End DecompileFacts.

Ltac run_known ::=
  first [ eassumption
        | eapply extract_loop_eq'; eassumption
        | apply extract_loop_eq
        | apply decompile_loop_eq ].

(** ** Runs of [decompile_directory] *)

Section DecompileRuns.

Variable w : world.
Variables (source_dir progress_file : option string).

Let m := decompile_directory w source_dir progress_file.

(** The run is refused: nothing is decompiled. *)
Lemma decompile_refused error_msg :
  decompile_refusal w source_dir = Some error_msg ->
  returned m = Ok {| d_success := false; d_message := error_msg;
                     d_stats := zero_stats |}
  /\ map untimed (written (trace m))
     = (if truthy progress_file then [decompile_failed error_msg] else [])
  /\ calls (trace m) = [].
Proof.
  subst m. rewrite returned_val, trace_tr.
  unfold decompile_refusal, decompile_directory, decompile_failure.
  destruct source_dir as [d|]; cbv zeta;
    [ destruct (String.eqb d "") eqn:Hd;
      [| destruct (negb (path_exists w d)) eqn:He;
         [| destruct (List.length (find_rpyc w d) =? 0)%nat eqn:Hn;
            [| discriminate ] ] ] |];
    intros [= <-]; run_goal; tidy;
    (split; [reflexivity|]); (split; [|reflexivity]);
    destruct (truthy progress_file); reflexivity.
Qed.

(** The run is accepted: every file of the scan is processed. *)
Lemma decompile_proceeds :
  decompile_refusal w source_dir = None ->
  let todo := scanned w source_dir in
  let total := List.length todo in
  let st := store_total total (tally w todo zero_stats) in
  returned m = Ok {| d_success := true; d_message := decompile_message st;
                     d_stats := st |}
  /\ map untimed (written (trace m))
     = (if truthy progress_file
        then decompile_initial total
               :: periodic (decompile_tick total) total 0 todo
               ++ [decompile_completed total]
        else [])
  /\ calls (trace m) = decompile_calls w todo.
Proof.
  subst m. rewrite returned_val, trace_tr.
  unfold decompile_refusal, decompile_directory, scanned.
  destruct source_dir as [d|]; cbv zeta; [|discriminate].
  destruct (String.eqb d "") eqn:Hd; [discriminate|].
  destruct (negb (path_exists w d)) eqn:He; [discriminate|].
  destruct (List.length (find_rpyc w d) =? 0)%nat eqn:Hn; [discriminate|].
  intros _. run_goal. tidy.
  rewrite ?decompile_loop_written, ?decompile_loop_calls.
  split; [reflexivity|]. split; [|reflexivity].
  destruct (truthy progress_file); reflexivity.
Qed.

End DecompileRuns.

(** ** The walk of [create_rpa] *)

(** Induction on a directory tree. *)
Lemma fsnode_induction (P : fsnode -> Prop) :
  (forall name rd, P (FFile name rd)) ->
  (forall name link e, P (FDir name link (Raise e))) ->
  (forall name link items, Forall P items -> P (FDir name link (Ok items))) ->
  forall item, P item.
Proof.
  intros Hfile Hbad Hdir.
  fix IH 1. intros [name rd|name link [items|e]].
  - apply Hfile.
  - apply Hdir. induction items as [|x r IHr]; constructor; [apply IH|apply IHr].
  - apply Hbad.
Qed.

Section WalkSteps.

Variable w : world.

Lemma bad_step_error steps st :
  bad_step w steps = Some st -> exists e, step_error w st = Some e.
Proof.
  induction steps as [|x r IH]; cbn; [discriminate|].
  destruct (step_error w x) as [e|] eqn:He; [|exact IH].
  intros [= <-]. eauto.
Qed.

Lemma done_steps_all steps : bad_step w steps = None -> done_steps w steps = steps.
Proof.
  induction steps as [|x r IH]; cbn; [reflexivity|].
  destruct (step_error w x); [discriminate|]. intros H; rewrite IH; auto.
Qed.

Lemma done_steps_app_ok l1 l2 :
  bad_step w l1 = None -> done_steps w (l1 ++ l2) = l1 ++ done_steps w l2.
Proof.
  induction l1 as [|x r IH]; cbn; [reflexivity|].
  destruct (step_error w x); [discriminate|]. intros H; rewrite IH; auto.
Qed.

Lemma bad_step_app_ok l1 l2 :
  bad_step w l1 = None -> bad_step w (l1 ++ l2) = bad_step w l2.
Proof.
  induction l1 as [|x r IH]; cbn; [reflexivity|].
  destruct (step_error w x); [discriminate|]. exact IH.
Qed.

Lemma done_steps_app_bad l1 l2 st :
  bad_step w l1 = Some st -> done_steps w (l1 ++ l2) = done_steps w l1.
Proof.
  induction l1 as [|x r IH]; cbn; [discriminate|].
  destruct (step_error w x); [reflexivity|]. intros H; rewrite IH; auto.
Qed.

Lemma bad_step_app_bad l1 l2 st :
  bad_step w l1 = Some st -> bad_step w (l1 ++ l2) = Some st.
Proof.
  induction l1 as [|x r IH]; cbn; [discriminate|].
  destruct (step_error w x); [auto|]. exact IH.
Qed.

Lemma create_ticks_app total fi l1 l2 :
  create_ticks total fi (l1 ++ l2)
  = create_ticks total fi l1 ++ create_ticks total (fi + List.length l1) l2.
Proof.
  revert fi; induction l1 as [|x r IH]; intros fi; cbn [create_ticks app List.length].
  - rewrite Nat.add_0_r. reflexivity.
  - rewrite IH, <- app_assoc. do 3 f_equal. lia.
Qed.

Lemma walk_added_app_ok l1 l2 :
  bad_step w l1 = None ->
  walk_added w (l1 ++ l2) = walk_added w l1 ++ walk_added w l2.
Proof.
  intros H. unfold walk_added.
  rewrite (done_steps_app_ok _ _ H), (done_steps_all _ H). apply flat_map_app.
Qed.

Lemma walk_added_app_bad l1 l2 st :
  bad_step w l1 = Some st -> walk_added w (l1 ++ l2) = walk_added w l1.
Proof.
  intros H. unfold walk_added. rewrite (done_steps_app_bad _ _ H). reflexivity.
Qed.

Lemma walk_result_ok l : bad_step w l = None -> walk_result w l = Ok tt.
Proof. unfold walk_result; intros ->; reflexivity. Qed.

Lemma walk_result_app_ok l1 l2 :
  bad_step w l1 = None -> walk_result w (l1 ++ l2) = walk_result w l2.
Proof. intros H. unfold walk_result. rewrite bad_step_app_ok by exact H. reflexivity. Qed.

Lemma walk_result_app_bad l1 l2 st :
  bad_step w l1 = Some st -> walk_result w (l1 ++ l2) = walk_result w l1.
Proof.
  intros H. unfold walk_result.
  erewrite bad_step_app_bad by exact H. rewrite H. reflexivity.
Qed.

Lemma walk_calls_app_ok l1 l2 :
  bad_step w l1 = None -> walk_calls w (l1 ++ l2) = walk_calls w l1 ++ walk_calls w l2.
Proof.
  intros H. unfold walk_calls.
  rewrite bad_step_app_ok, done_steps_app_ok, H, (done_steps_all _ H) by exact H.
  rewrite flat_map_app, app_nil_r, app_assoc. reflexivity.
Qed.

Lemma walk_calls_app_bad l1 l2 st :
  bad_step w l1 = Some st -> walk_calls w (l1 ++ l2) = walk_calls w l1.
Proof.
  intros H. unfold walk_calls.
  erewrite bad_step_app_bad, done_steps_app_bad by exact H. rewrite H. reflexivity.
Qed.

Lemma walk_snapshots_app_ok total fi l1 l2 :
  bad_step w l1 = None ->
  walk_snapshots w total fi (l1 ++ l2)
  = walk_snapshots w total fi l1
      ++ walk_snapshots w total (fi + List.length (walk_added w l1)) l2.
Proof.
  intros H. unfold walk_snapshots.
  rewrite bad_step_app_ok, walk_added_app_ok, H by exact H.
  rewrite create_ticks_app, length_app, app_nil_r, Nat.add_assoc, app_assoc.
  reflexivity.
Qed.

Lemma walk_snapshots_app_bad total fi l1 l2 st :
  bad_step w l1 = Some st ->
  walk_snapshots w total fi (l1 ++ l2) = walk_snapshots w total fi l1.
Proof.
  intros H. unfold walk_snapshots.
  erewrite bad_step_app_bad, walk_added_app_bad by exact H. rewrite H. reflexivity.
Qed.

End WalkSteps.

Section WalkFacts.

Variable w : world.
Variables (progress_file : option string) (start_time : Z) (total : nat).

Let walks := walks w progress_file total.

Lemma walks_nil : walks (ret tt) [].
Proof.
  intros s. unfold walk_result, walk_added, walk_snapshots, walk_calls; cbn.
  rewrite Nat.add_0_r, app_nil_r.
  destruct (truthy progress_file); repeat split.
Qed.

Lemma walks_seq m1 m2 l1 l2 :
  walks m1 l1 -> walks m2 l2 -> walks (m1 ;; m2) (l1 ++ l2).
Proof.
  intros H1 H2 s.
  destruct (H1 s) as (Hv & Ht & Hi & Ha & Hw & Hc).
  apply run_of_val in Hv.
  destruct (bad_step w l1) as [st|] eqn:Hb.
  - erewrite walk_result_app_bad, walk_added_app_bad, walk_snapshots_app_bad,
      walk_calls_app_bad by exact Hb.
    destruct (bad_step_error _ _ Hb) as (e & He).
    unfold walk_result in Hv |- *. rewrite Hb, He in Hv |- *.
    run_goal. repeat split; assumption.
  - destruct (H2 (fr_of m1 s)) as (Hv' & Ht' & Hi' & Ha' & Hw' & Hc').
    apply run_of_val in Hv'.
    rewrite walk_result_app_ok, walk_added_app_ok, walk_snapshots_app_ok,
      walk_calls_app_ok by exact Hb.
    rewrite walk_result_ok in Hv by exact Hb.
    run_goal. tidy. rewrite Hw, Hc, Hw', Hc', Ht', Hi', Ha', Ht, Hi, Ha.
    rewrite length_app, app_assoc, Nat.add_assoc.
    split; [reflexivity|]. split; [reflexivity|]. split; [reflexivity|].
    split; [reflexivity|]. split; [|reflexivity].
    destruct (truthy progress_file); reflexivity.
Qed.

Lemma walks_file item_path archive_path rd :
  walks (add_file w progress_file start_time total item_path archive_path rd)
        [SFile item_path archive_path rd].
Proof.
  intros s.
  unfold walk_result, walk_snapshots, walk_calls, add_file.
  unfold walk_added. cbv zeta.
  destruct rd as [contents|e];
    [ destruct (rpa_add w archive_path contents) as [[]|e] eqn:Hadd |];
    do 3 (cbn [bad_step done_steps step_error file_cause step_calls flat_map
               step_path create_failed err_of add_error_msg];
          rewrite ?Hadd);
    run_goal; tidy;
    cbn [total_files file_index added_files locals_file_index step_path app
         List.length create_ticks];
    rewrite ?Nat.add_0_r, ?app_nil_r;
    (split; [reflexivity|]); (split; [reflexivity|]); (split; [reflexivity|]);
    (split; [reflexivity|]); (split; [|reflexivity]);
    destruct (truthy progress_file); cbn [andb]; try reflexivity;
    destruct (((locals_file_index s + 1) mod 5 =? 0)%nat
              || (locals_file_index s + 1 =? total)%nat)%bool; reflexivity.
Qed.

Lemma walks_listing dir_path ls (k : list fsnode -> M unit) steps :
  (forall items, ls = Ok items -> walks (k items) steps) ->
  walks (items <- call (EvListdir dir_path) ls ;; k items)
        (SList dir_path (err_of ls) :: steps).
Proof.
  intros Hk s. destruct ls as [items|e]; cbn [err_of].
  - specialize (Hk items eq_refl).
    change (SList dir_path None :: steps) with ([SList dir_path None] ++ steps).
    assert (Hb : bad_step w [SList dir_path None] = None) by reflexivity.
    rewrite walk_result_app_ok, walk_added_app_ok, walk_snapshots_app_ok,
      walk_calls_app_ok by exact Hb.
    destruct (Hk s) as (Hv & Ht & Hi & Ha & Hw & Hc).
    apply run_of_val in Hv.
    run_goal. tidy. rewrite Hw, Hc.
    change (walk_added w [SList dir_path None]) with (@nil string).
    cbn [List.length app]. rewrite Nat.add_0_r.
    repeat split; assumption.
  - unfold walk_result, walk_snapshots, walk_calls. unfold walk_added.
    cbn [bad_step done_steps step_error flat_map step_calls create_failed
         create_ticks List.length app].
    run_goal. tidy. rewrite Nat.add_0_r.
    destruct (truthy progress_file); repeat split.
Qed.

Lemma walks_for_each (f : fsnode -> M unit) (g : fsnode -> list step) items :
  Forall (fun item => walks (f item) (g item)) items ->
  walks (for_each f items) (flat_map g items).
Proof.
  induction 1 as [|x r Hx Hr IH]; cbn [for_each flat_map].
  - apply walks_nil.
  - apply walks_seq; assumption.
Qed.

Lemma walks_item item : forall dir_path archive_prefix,
  walks (add_item w progress_file start_time total dir_path archive_prefix item)
        (steps_of dir_path archive_prefix item).
Proof.
  induction item as [name rd|name link e|name link items IH] using fsnode_induction;
    intros dir_path archive_prefix; cbn [add_item steps_of node_name]; cbv zeta.
  - apply walks_file.
  - apply (@walks_listing _ (Raise e) (fun _ => ret tt)). discriminate.
  - apply (@walks_listing _ (Ok items)
             (fun _ => for_each
                         (add_item w progress_file start_time total
                                   (path_join dir_path name)
                                   (path_join archive_prefix name)) items)).
    intros _ _. apply walks_for_each.
    rewrite Forall_forall in IH |- *. intros x Hx. apply IH, Hx.
Qed.

Lemma walks_directory dir_path archive_prefix :
  walks (add_directory w progress_file start_time total dir_path archive_prefix)
        (dir_steps dir_path archive_prefix
                   (listdir (after_write w progress_file) dir_path)).
Proof.
  unfold add_directory, dir_steps.
  apply walks_listing. intros items ->.
  apply walks_for_each. rewrite Forall_forall. intros x _. apply walks_item.
Qed.

End WalkFacts.

Lemma add_directory_eq w progress_file start_time total dir_path archive_prefix r s :
  walk_result w (dir_steps dir_path archive_prefix
                           (listdir (after_write w progress_file) dir_path)) = r
                               ->
  add_directory w progress_file start_time total dir_path archive_prefix s
  = (r,
     tr_of (add_directory w progress_file start_time total dir_path
                          archive_prefix) s,
     fr_of (add_directory w progress_file start_time total dir_path
                          archive_prefix) s).
Proof. intros <-. apply run_of_val, walks_directory. Qed.

Ltac run_known ::=
  first [ eassumption
        | eapply extract_loop_eq'; eassumption
        | apply extract_loop_eq
        | apply decompile_loop_eq
        | eapply add_directory_eq; eassumption ].

(** The facts about the walk, at the frame in which the goal starts it. *)
Ltac walk_facts :=
  match goal with
  | |- context [tr_of (add_directory ?w ?pf ?st ?tot ?d ?a) ?s0] =>
      let Hv := fresh "Hv" in
      destruct (walks_directory w pf st tot d a s0)
        as (Hv & ?Ht & ?Hi & ?Ha & ?Hw & ?Hc);
      clear Hv
  end.

(** ** Runs of [create_rpa] *)

Section CreateRuns.

Variable w : world.
Variables (source_dir output_rpa_path : string) (version key : Z).
Variable progress_file : option string.

Let m := create_rpa w source_dir output_rpa_path version key progress_file.
Let total := count_files w source_dir.
Let steps := create_steps (after_write w progress_file) source_dir.

(** No file is found under [source_dir]. *)
Lemma create_rpa_refused :
  total = 0 ->
  returned m = Ok {| success := false;
                     message := "No files found in source directory";
                     files := [] |}
  /\ map untimed (written (trace m))
     = (if truthy progress_file then [create_refused] else [])
  /\ calls (trace m) = [].
Proof.
  subst m total. intros H0. rewrite returned_val, trace_tr.
  unfold create_rpa. cbv zeta. rewrite H0. cbn [Nat.eqb].
  run_goal. tidy.
  repeat split. destruct (truthy progress_file); reflexivity.
Qed.

(** The new archive cannot be made. *)
Lemma create_rpa_new_fails e :
  total <> 0 ->
  rpa_new w version key = Raise e ->
  returned m = Ok {| success := false; message := ("Error: " ++ e)%string;
                     files := [] |}
  /\ map untimed (written (trace m))
     = (if truthy progress_file
        then [create_initial total; create_fault total 0 e] else [])
  /\ calls (trace m) = [EvNew version key (Some e)].
Proof.
  subst m total. intros H0 Hn. rewrite returned_val, trace_tr.
  unfold create_rpa. cbv zeta.
  apply Nat.eqb_neq in H0. rewrite H0.
  run_goal. tidy.
  repeat split. destruct (truthy progress_file); reflexivity.
Qed.

(** A step of the walk fails. *)
Lemma create_rpa_walk_fails e :
  total <> 0 ->
  rpa_new w version key = Ok tt ->
  walk_result w steps = Raise e ->
  returned m = Ok {| success := false; message := ("Error: " ++ e)%string;
                     files := [] |}
  /\ map untimed (written (trace m))
     = (if truthy progress_file
        then create_initial total
               :: walk_snapshots w total 0 steps
               ++ [create_fault total (List.length (walk_added w steps)) e]
        else [])
  /\ calls (trace m) = EvNew version key None :: walk_calls w steps.
Proof.
  subst m total steps. intros H0 Hn Hr. rewrite returned_val, trace_tr.
  unfold create_rpa, create_steps in *. cbv zeta.
  apply Nat.eqb_neq in H0. rewrite H0.
  run_goal. tidy. walk_facts.
  repeat (cbn [ticks total_files file_index added_files locals_file_index
               locals_total_files] in *;
          rewrite ?report_total_files, ?report_added_files, ?report_file_index
            in * ).
  unfold locals_total_files. rewrite ?Hw, ?Hc, ?Hi, ?Ha, ?Ht.
  split; [reflexivity|]. split; [|reflexivity].
  destruct (truthy progress_file); reflexivity.
Qed.

(** The walk succeeds, the archive cannot be saved. *)
Lemma create_rpa_save_fails e :
  total <> 0 ->
  rpa_new w version key = Ok tt ->
  walk_result w steps = Ok tt ->
  rpa_save w output_rpa_path = Raise e ->
  returned m = Ok {| success := false; message := ("Error: " ++ e)%string;
                     files := [] |}
  /\ map untimed (written (trace m))
     = (if truthy progress_file
        then create_initial total
               :: walk_snapshots w total 0 steps
               ++ [create_fault total (List.length (walk_added w steps)) e]
        else [])
  /\ calls (trace m)
     = EvNew version key None
         :: walk_calls w steps ++ [EvSave output_rpa_path (Some e)].
Proof.
  subst m total steps. intros H0 Hn Hr Hs. rewrite returned_val, trace_tr.
  unfold create_rpa, create_steps in *. cbv zeta.
  apply Nat.eqb_neq in H0. rewrite H0.
  run_goal. tidy. walk_facts.
  repeat (cbn [ticks total_files file_index added_files locals_file_index
               locals_total_files] in *;
          rewrite ?report_total_files, ?report_added_files, ?report_file_index
            in * ).
  unfold locals_total_files. rewrite ?Hw, ?Hc, ?Hi, ?Ha, ?Ht.
  split; [reflexivity|]. split; [|reflexivity].
  destruct (truthy progress_file); reflexivity.
Qed.

(** The walk succeeds and the archive is saved. *)
Lemma create_rpa_succeeds :
  total <> 0 ->
  rpa_new w version key = Ok tt ->
  walk_result w steps = Ok tt ->
  rpa_save w output_rpa_path = Ok tt ->
  returned m
  = Ok {| success := true;
          message := ("Successfully created archive with "
                      ++ fmt_nat (List.length (walk_added w steps))
                      ++ " files")%string;
          files := walk_added w steps |}
  /\ map untimed (written (trace m))
     = (if truthy progress_file
        then create_initial total
               :: walk_snapshots w total 0 steps
               ++ [create_completed total]
        else [])
  /\ calls (trace m)
     = EvNew version key None
         :: walk_calls w steps ++ [EvSave output_rpa_path None].
Proof.
  subst m total steps. intros H0 Hn Hr Hs. rewrite returned_val, trace_tr.
  unfold create_rpa, create_steps in *. cbv zeta.
  apply Nat.eqb_neq in H0. rewrite H0.
  run_goal. tidy. walk_facts.
  repeat (cbn [ticks total_files file_index added_files locals_file_index
               locals_total_files] in *;
          rewrite ?report_total_files, ?report_added_files, ?report_file_index
            in * ).
  unfold locals_total_files. rewrite ?Hw, ?Hc, ?Hi, ?Ha, ?Ht.
  split; [reflexivity|]. split; [|reflexivity].
  destruct (truthy progress_file); cbn [andb map app]; reflexivity.
Qed.

End CreateRuns.

(** ** The results of the operations *)

Lemma extract_rpa_returns w rpa_file_path output_dir progress_file :
  returned (extract_rpa w rpa_file_path output_dir progress_file)
  = Ok (extract_summary (after_write w progress_file) rpa_file_path output_dir).
Proof.
  unfold extract_summary. settle.
  destruct (rpa_open w rpa_file_path) as [a|e] eqn:Ho.
  - destruct (ensure_output (after_write w progress_file) output_dir)
      as [[]|e] eqn:Hd.
    + now apply extract_rpa_proceeds.
    + now eapply extract_rpa_output_fails; eauto.
  - now apply extract_rpa_open_fails.
Qed.

Lemma create_rpa_returns w source_dir output_rpa_path version key progress_file :
  returned (create_rpa w source_dir output_rpa_path version key progress_file)
  = Ok (create_summary w progress_file source_dir output_rpa_path version key).
Proof.
  unfold create_summary, create_error.
  destruct (count_files w source_dir =? 0)%nat eqn:H0.
  - apply Nat.eqb_eq in H0. now apply create_rpa_refused.
  - apply Nat.eqb_neq in H0.
    destruct (rpa_new w version key) as [[]|e] eqn:Hn.
    + destruct (walk_result w (create_steps (after_write w progress_file)
                                            source_dir)) as [[]|e] eqn:Hr.
      * destruct (rpa_save w output_rpa_path) as [[]|e] eqn:Hs; cbn [err_of].
        -- now apply create_rpa_succeeds.
        -- now apply create_rpa_save_fails.
      * now apply create_rpa_walk_fails.
    + now apply create_rpa_new_fails.
Qed.

Lemma decompile_directory_returns w source_dir progress_file :
  returned (decompile_directory w source_dir progress_file)
  = Ok (decompile_summary w source_dir).
Proof.
  unfold decompile_summary.
  destruct (decompile_refusal w source_dir) as [msg|] eqn:Hr.
  - now apply decompile_refused.
  - now apply decompile_proceeds.
Qed.

Lemma list_rpa_files_run w rpa_file_path :
  returned (list_rpa_files w rpa_file_path) = Ok (list_summary w rpa_file_path)
  /\ trace (list_rpa_files w rpa_file_path)
     = [EvOpen rpa_file_path (err_of (rpa_open w rpa_file_path))].
Proof.
  rewrite returned_val, trace_tr. unfold list_rpa_files, list_summary.
  destruct (rpa_open w rpa_file_path) as [a|e] eqn:Ho; run_goal;
    rewrite ?app_nil_r; split; reflexivity.
Qed.

(** ** Observations on the calls *)

Lemma flat_map_calls {B} (f : event -> list B) :
  (forall pf d err, f (EvProgress pf d err) = []) ->
  forall t, flat_map f (calls t) = flat_map f t.
Proof.
  intros Hf. unfold calls. induction t as [|ev t IH]; [reflexivity|].
  destruct ev; cbn [filter is_progress negb flat_map]; rewrite ?IH, ?Hf;
    reflexivity.
Qed.

Lemma reads_calls t : reads (calls t) = reads t.
Proof. apply flat_map_calls; reflexivity. Qed.

Lemma write_attempts_calls t : write_attempts (calls t) = write_attempts t.
Proof. apply flat_map_calls; reflexivity. Qed.

Lemma files_written_calls t : files_written (calls t) = files_written t.
Proof. apply flat_map_calls; reflexivity. Qed.

Lemma paths_added_calls t : paths_added (calls t) = paths_added t.
Proof. apply flat_map_calls; reflexivity. Qed.

Lemma decompiled_calls t : decompiled (calls t) = decompiled t.
Proof. apply flat_map_calls; reflexivity. Qed.

Lemma in_calls ev t : In ev t -> is_progress ev = false -> In ev (calls t).
Proof.
  intros Hin Hp. unfold calls. apply filter_In. split; [assumption|].
  rewrite Hp. reflexivity.
Qed.

Lemma string_app_assoc (a b c : string) :
  ((a ++ b) ++ c)%string = (a ++ b ++ c)%string.
Proof. induction a as [|x a IH]; cbn; [reflexivity|]. rewrite IH. reflexivity. Qed.

Lemma carries_refl d : carries d d.
Proof. exists ""%string. reflexivity. Qed.

Lemma carries_prefix p msg d : carries msg d -> carries (p ++ msg)%string d.
Proof.
  intros (before & ->). exists (p ++ before)%string.
  symmetry. apply string_app_assoc.
Qed.

Section EntryFacts.

Variable w : world.
Variables (rpa_file_path output_dir : string).

Lemma entry_calls_facts filename :
  reads (entry_calls w rpa_file_path output_dir filename) = [filename]
  /\ files_written (entry_calls w rpa_file_path output_dir filename)
     = match entry_error w rpa_file_path output_dir filename with
       | None => [path_join output_dir filename]
       | Some _ => []
       end
  /\ incl (write_attempts (entry_calls w rpa_file_path output_dir filename))
          [path_join output_dir filename]
  /\ faults (entry_calls w rpa_file_path output_dir filename)
     = match entry_error w rpa_file_path output_dir filename with
       | Some e => [e]
       | None => []
       end.
Proof.
  unfold entry_error, entry_calls, returned, trace, run, extract_entry.
  cbv zeta.
  destruct (rpa_read w rpa_file_path filename) as [contents|e] eqn:Hr;
    [ destruct (negb (dirname (path_join output_dir filename) =? "")
                && negb (path_exists w (dirname (path_join output_dir filename))))%bool;
      [ destruct (makedirs w (dirname (path_join output_dir filename)))
          as [[]|e1] eqn:Hm |];
      destruct (write_file w (path_join output_dir filename) contents)
        as [[]|e2] eqn:Hw
    | ];
    run_closed; cbn;
    repeat split; try reflexivity;
    intros x Hx; cbn in Hx; try contradiction; try exact Hx.
Qed.

Lemma first_failure_none todo :
  first_failure w rpa_file_path output_dir todo = None ->
  extracted_prefix w rpa_file_path output_dir todo = todo.
Proof.
  induction todo as [|f r IH]; cbn; [reflexivity|].
  destruct (entry_error w rpa_file_path output_dir f); [discriminate|].
  intros H; rewrite IH; auto.
Qed.

(** The entries before the first failure and the failing one. *)
Lemma first_failure_split todo f e :
  first_failure w rpa_file_path output_dir todo = Some (f, e) ->
  exists rest,
    todo = extracted_prefix w rpa_file_path output_dir todo ++ f :: rest
    /\ entry_error w rpa_file_path output_dir f = Some e.
Proof.
  induction todo as [|x r IH]; cbn; [discriminate|].
  destruct (entry_error w rpa_file_path output_dir x) as [e'|] eqn:He.
  - intros [= <- <-]. exists r. split; [reflexivity|assumption].
  - intros H. destruct (IH H) as (rest & Hr & Hf).
    exists rest. split; [cbn; f_equal; exact Hr|exact Hf].
Qed.

Lemma extracted_prefix_ok todo :
  Forall (fun f => entry_error w rpa_file_path output_dir f = None)
         (extracted_prefix w rpa_file_path output_dir todo).
Proof.
  induction todo as [|x r IH]; cbn; [constructor|].
  destruct (entry_error w rpa_file_path output_dir x) eqn:He;
    constructor; assumption.
Qed.

(** A listing whose entries succeed up to [f], which fails. *)
Lemma first_failure_at pre f post e :
  Forall (fun x => entry_error w rpa_file_path output_dir x = None) pre ->
  entry_error w rpa_file_path output_dir f = Some e ->
  first_failure w rpa_file_path output_dir (pre ++ f :: post) = Some (f, e)
  /\ extracted_prefix w rpa_file_path output_dir (pre ++ f :: post) = pre.
Proof.
  intros Hpre Hf. induction Hpre as [|x r Hx Hr IH]; cbn.
  - rewrite Hf. split; reflexivity.
  - rewrite Hx. destruct IH as (-> & ->). split; reflexivity.
Qed.

Lemma ok_entries_calls l :
  Forall (fun f => entry_error w rpa_file_path output_dir f = None) l ->
  reads (flat_map (entry_calls w rpa_file_path output_dir) l) = l
  /\ files_written (flat_map (entry_calls w rpa_file_path output_dir) l)
     = map (path_join output_dir) l
  /\ incl (write_attempts (flat_map (entry_calls w rpa_file_path output_dir) l))
          (map (path_join output_dir) l)
  /\ faults (flat_map (entry_calls w rpa_file_path output_dir) l) = [].
Proof.
  induction 1 as [|x r Hx Hr IH]; cbn [flat_map map].
  - repeat split. intros x [].
  - destruct (entry_calls_facts x) as (R & W & A & F).
    destruct IH as (R' & W' & A' & F').
    unfold reads, files_written, write_attempts, faults in *.
    rewrite !flat_map_app, R, R', W, W', F, F', Hx.
    repeat split.
    intros y Hy. apply in_app_iff in Hy. destruct Hy as [Hy|Hy].
    + apply A in Hy. destruct Hy as [<-|[]]. left; reflexivity.
    + right. apply A'. exact Hy.
Qed.

Lemma loop_calls_facts todo :
  reads (loop_calls w rpa_file_path output_dir todo)
  = extracted_prefix w rpa_file_path output_dir todo
      ++ match first_failure w rpa_file_path output_dir todo with
         | Some fe => [fst fe]
         | None => []
         end
  /\ files_written (loop_calls w rpa_file_path output_dir todo)
     = map (path_join output_dir) (extracted_prefix w rpa_file_path output_dir todo)
  /\ incl (write_attempts (loop_calls w rpa_file_path output_dir todo))
          (map (path_join output_dir)
               (extracted_prefix w rpa_file_path output_dir todo
                  ++ match first_failure w rpa_file_path output_dir todo with
                     | Some fe => [fst fe]
                     | None => []
                     end))
  /\ faults (loop_calls w rpa_file_path output_dir todo)
     = match first_failure w rpa_file_path output_dir todo with
       | Some fe => [snd fe]
       | None => []
       end.
Proof.
  unfold loop_calls.
  destruct (ok_entries_calls (extracted_prefix_ok todo)) as (R & W & A & F).
  unfold reads, files_written, write_attempts, faults in *.
  rewrite !flat_map_app, R, W, F.
  destruct (first_failure w rpa_file_path output_dir todo) as [[f e]|] eqn:Hf;
    cbn [fst snd].
  - destruct (first_failure_split _ Hf) as (rest & _ & He).
    destruct (entry_calls_facts f) as (R' & W' & A' & F').
    unfold reads, files_written, write_attempts, faults in *.
    rewrite R', W', F', He, app_nil_r. repeat split.
    rewrite map_app. intros y Hy. apply in_app_iff in Hy. apply in_app_iff.
    destruct Hy as [Hy|Hy]; [left; apply A, Hy|right; apply A', Hy].
  - cbn [flat_map]. rewrite !app_nil_r. repeat split. exact A.
Qed.

End EntryFacts.

(** ** Files of the tree, counted and walked *)

Lemma sum_files_acc l : forall acc,
  fold_left (fun total (rf : string * list string) => total + List.length (snd rf))
            l acc
  = acc + sum_files l.
Proof.
  unfold sum_files. induction l as [|x r IH]; intros acc; cbn [fold_left].
  - lia.
  - rewrite IH, (IH (0 + _)). lia.
Qed.

Lemma sum_files_cons x l : sum_files (x :: l) = List.length (snd x) + sum_files l.
Proof. unfold sum_files at 1. cbn [fold_left]. rewrite sum_files_acc. lia. Qed.

Lemma sum_files_app l1 l2 : sum_files (l1 ++ l2) = sum_files l1 + sum_files l2.
Proof.
  induction l1 as [|x r IH]; [reflexivity|].
  cbn [app]. rewrite !sum_files_cons, IH. lia.
Qed.

Lemma list_sum_cons x l : list_sum (x :: l) = x + list_sum l.
Proof. reflexivity. Qed.

(** What [os.walk] counts below an entry is the number of its files, the
    entry itself being counted by its parent when it is a file. *)
Lemma walk_node_files item : forall top,
  sum_files (walk_node top item) + (if is_dir item then 0 else 1)
  = tree_files item.
Proof.
  induction item as [name rd|name link e|name link items IH] using fsnode_induction;
    intros top; try destruct link; cbn [walk_node tree_files is_dir];
    try reflexivity.
  rewrite sum_files_cons. cbn [snd]. rewrite Nat.add_0_r.
  generalize (path_join top name) as p. intros p.
  unfold nondirs.
  induction IH as [|x r Hx Hr IHr]; cbn [filter map flat_map list_sum List.length].
  - reflexivity.
  - rewrite list_sum_cons, sum_files_app, <- (Hx p), <- IHr.
    destruct (is_dir x); cbn [negb map List.length]; lia.
Qed.

Lemma count_files_tree w source_dir :
  count_files w source_dir = dir_files (listdir w source_dir).
Proof.
  unfold count_files, os_walk, dir_files. fold (sum_files).
  destruct (listdir w source_dir) as [items|e]; [|reflexivity].
  change (fold_left _ ?l 0) with (sum_files l).
  rewrite sum_files_cons. cbn [snd]. unfold nondirs.
  induction items as [|x r IH]; cbn [filter map flat_map list_sum List.length].
  - reflexivity.
  - rewrite list_sum_cons, sum_files_app, <- (walk_node_files x source_dir), <- IH.
    destruct (is_dir x); cbn [negb map List.length]; lia.
Qed.

Lemma steps_of_paths item : forall dir_path archive_prefix,
  flat_map step_path (steps_of dir_path archive_prefix item)
  = tree_paths archive_prefix item.
Proof.
  induction item as [name rd|name link e|name link items IH] using fsnode_induction;
    intros dir_path archive_prefix;
    cbn [steps_of tree_paths flat_map step_path node_name app err_of];
    try reflexivity.
  generalize (path_join dir_path name) (path_join archive_prefix name).
  intros p q.
  induction IH as [|x r Hx Hr IHr]; cbn [flat_map]; [reflexivity|].
  rewrite flat_map_app, Hx, IHr. reflexivity.
Qed.

Lemma dir_steps_paths dir_path ls :
  flat_map step_path (dir_steps dir_path "" ls) = dir_paths ls.
Proof.
  unfold dir_steps, dir_paths. destruct ls as [items|e]; cbn [flat_map step_path app];
    [|reflexivity].
  induction items as [|x r IH]; cbn [flat_map]; [reflexivity|].
  rewrite flat_map_app, steps_of_paths, IH. reflexivity.
Qed.

(** Without links, the walk of [add_directory] reaches the files that
    [os.walk] counts. *)
Lemma tree_paths_length item : forall archive_prefix,
  link_free item = true ->
  List.length (tree_paths archive_prefix item) = tree_files item.
Proof.
  induction item as [name rd|name link e|name link items IH] using fsnode_induction;
    intros archive_prefix; try destruct link;
    cbn [tree_paths tree_files List.length link_free negb andb];
    try reflexivity; try discriminate.
  generalize (path_join archive_prefix name). intros q.
  induction IH as [|x r Hx Hr IHr]; cbn [flat_map map list_sum forallb];
    [reflexivity|].
  intros Hl. apply andb_true_iff in Hl. destruct Hl as (Hl1 & Hl2).
  rewrite list_sum_cons, length_app, Hx, IHr by assumption. reflexivity.
Qed.

Lemma dir_paths_length ls :
  dir_link_free ls = true -> List.length (dir_paths ls) = dir_files ls.
Proof.
  unfold dir_paths, dir_files, dir_link_free.
  destruct ls as [items|e]; [|reflexivity].
  induction items as [|x r IH]; cbn [flat_map map list_sum forallb];
    [reflexivity|].
  intros Hl. apply andb_true_iff in Hl. destruct Hl as (Hl1 & Hl2).
  rewrite list_sum_cons, length_app, tree_paths_length, IH by assumption.
  reflexivity.
Qed.

(** With links, it may reach more. *)
Lemma tree_files_le item : forall archive_prefix,
  tree_files item <= List.length (tree_paths archive_prefix item).
Proof.
  induction item as [name rd|name link e|name link items IH] using fsnode_induction;
    intros archive_prefix; try destruct link;
    cbn [tree_paths tree_files List.length]; try lia.
  generalize (path_join archive_prefix name). intros q.
  induction IH as [|x r Hx Hr IHr]; cbn [flat_map map]; [cbn; lia|].
  rewrite list_sum_cons, length_app. specialize (Hx q). lia.
Qed.

Lemma dir_files_le ls : dir_files ls <= List.length (dir_paths ls).
Proof.
  unfold dir_paths, dir_files. destruct ls as [items|e]; [|cbn; lia].
  induction items as [|x r IH]; cbn [flat_map map]; [cbn; lia|].
  rewrite list_sum_cons, length_app.
  pose proof (tree_files_le x ""%string). lia.
Qed.

Section WalkedFiles.

Variable w : world.

(** The steps done are the first steps. *)
Lemma done_steps_prefix steps :
  exists rest, steps = done_steps w steps ++ rest.
Proof.
  induction steps as [|st r (rest & IH)]; cbn [done_steps].
  - exists []. reflexivity.
  - destruct (step_error w st).
    + exists (st :: r). reflexivity.
    + exists rest. cbn [app]. f_equal. exact IH.
Qed.

Lemma walk_added_prefix steps :
  exists rest, flat_map step_path steps = walk_added w steps ++ rest.
Proof.
  unfold walk_added. destruct (done_steps_prefix steps) as (rest & H).
  exists (flat_map step_path rest). rewrite H at 1. apply flat_map_app.
Qed.

(** When the walk lists the tree that has been counted, and no link is in
    it, no more files are added than have been counted. *)
Lemma walk_added_bound progress_file source_dir :
  listdir (after_write w progress_file) source_dir = listdir w source_dir ->
  dir_link_free (listdir w source_dir) = true ->
  List.length (walk_added w (create_steps (after_write w progress_file)
                                          source_dir))
  <= count_files w source_dir.
Proof.
  intros Hsame Hfree.
  destruct (walk_added_prefix (create_steps (after_write w progress_file)
                                            source_dir)) as (rest & H).
  apply (f_equal (@List.length string)) in H. rewrite length_app in H.
  unfold create_steps in H at 1. rewrite dir_steps_paths, Hsame in H.
  rewrite count_files_tree, <- dir_paths_length by exact Hfree.
  lia.
Qed.

End WalkedFiles.

(** ** Snapshots and their fields *)

Lemma untimed_fields d x :
  untimed d = x ->
  op d = op x /\ totalFiles d = totalFiles x
  /\ processedFiles d = processedFiles x /\ currentFile d = currentFile x
  /\ state_of d = state_of x /\ errorMessage d = errorMessage x.
Proof. intros <-. repeat split. Qed.

Lemma map_processed_untimed l :
  map processedFiles (map untimed l) = map processedFiles l.
Proof. rewrite map_map. reflexivity. Qed.

Lemma in_untimed x l :
  In x (map untimed l) <-> exists d, In d l /\ untimed d = x.
Proof.
  rewrite in_map_iff. split; intros (d & H1 & H2); exists d; tauto.
Qed.

(** ** The counters of [decompile_directory] *)

Section Tally.

Variable w : world.

Lemma verdict_cases rpyc_file st :
  verdict w rpyc_file st
  = {| n_total := n_total st;
       n_success := n_success st + Nat.b2n (file_ok w rpyc_file);
       n_skipped := n_skipped st + Nat.b2n (file_skipped w rpyc_file);
       n_failed := n_failed st + Nat.b2n (file_failed w rpyc_file) |}.
Proof.
  unfold verdict, file_ok, file_skipped, file_failed.
  destruct st as [t a b c].
  destruct (decompile_rpyc w rpyc_file Context) as [ctx|e];
    [ destruct (String.eqb (state ctx) "ok");
      [| destruct (String.eqb (state ctx) "skip") ] |];
    cbn; rewrite ?Nat.add_0_r; reflexivity.
Qed.

(** Each file increments exactly one counter. *)
Lemma one_counter rpyc_file :
  Nat.b2n (file_ok w rpyc_file) + Nat.b2n (file_skipped w rpyc_file)
  + Nat.b2n (file_failed w rpyc_file) = 1.
Proof.
  unfold file_ok, file_skipped, file_failed.
  destruct (decompile_rpyc w rpyc_file Context) as [ctx|e];
    [ destruct (String.eqb (state ctx) "ok");
      destruct (String.eqb (state ctx) "skip") |]; reflexivity.
Qed.

Lemma length_filter_cons {A} (f : A -> bool) x l :
  List.length (filter f (x :: l)) = Nat.b2n (f x) + List.length (filter f l).
Proof. cbn [filter]. destruct (f x); reflexivity. Qed.

Lemma tally_counts todo : forall st,
  tally w todo st
  = {| n_total := n_total st;
       n_success := n_success st + List.length (filter (file_ok w) todo);
       n_skipped := n_skipped st + List.length (filter (file_skipped w) todo);
       n_failed := n_failed st + List.length (filter (file_failed w) todo) |}.
Proof.
  unfold tally. induction todo as [|f r IH]; intros st; cbn [fold_left].
  - destruct st; cbn. rewrite !Nat.add_0_r. reflexivity.
  - rewrite IH, verdict_cases, !length_filter_cons. cbn.
    rewrite !Nat.add_assoc. reflexivity.
Qed.

Lemma tally_sum todo st :
  n_success (tally w todo st) + n_skipped (tally w todo st)
  + n_failed (tally w todo st)
  = n_success st + n_skipped st + n_failed st + List.length todo.
Proof.
  revert st. unfold tally.
  induction todo as [|f r IH]; intros st; cbn [fold_left List.length]; [lia|].
  rewrite IH, verdict_cases. cbn. pose proof (one_counter f). lia.
Qed.

Lemma decompiled_all todo : decompiled (decompile_calls w todo) = todo.
Proof.
  unfold decompiled, decompile_calls.
  induction todo as [|f r IH]; cbn; [reflexivity|]. rewrite IH. reflexivity.
Qed.

Lemma decompile_calls_faults todo : faults (decompile_calls w todo) = [].
Proof.
  unfold faults, decompile_calls.
  induction todo as [|f r IH]; cbn; [reflexivity|]. exact IH.
Qed.

End Tally.

(** ** Continue-on-error in [decompile_directory] *)

(** C5: when the source directory exists and the scan finds at least one
    compiled script, the run returns [success = true]; every file of the scan
    is handed to the decompiler, in order, whatever happened to the files
    before it; a file whose decompilation raises or leaves a state other than
    ok and skip counts in [failed], and the counts are the numbers of files
    of each kind. *)
Theorem C5_decompile_continues_on_error w source_dir progress_file :
  source_dir <> ""%string ->
  path_exists w source_dir = true ->
  find_rpyc w source_dir <> [] ->
  let m := decompile_directory w (Some source_dir) progress_file in
  let todo := find_rpyc w source_dir in
  exists r,
    returned m = Ok r
    /\ d_success r = true
    /\ decompiled (trace m) = todo
    /\ n_failed (d_stats r) = List.length (filter (file_failed w) todo)
    /\ n_success (d_stats r) = List.length (filter (file_ok w) todo)
    /\ n_skipped (d_stats r) = List.length (filter (file_skipped w) todo)
    /\ n_total (d_stats r) = List.length todo.
Proof.
  intros Hne Hex Hfound m todo.
  assert (Hr : decompile_refusal w (Some source_dir) = None).
  { unfold decompile_refusal. apply String.eqb_neq in Hne. rewrite Hne, Hex.
    cbn [negb]. destruct (find_rpyc w source_dir); [contradiction|reflexivity]. }
  destruct (decompile_proceeds w (Some source_dir) progress_file Hr)
    as (Hv & _ & Hc).
  eexists. split; [exact Hv|]. cbn [d_success d_stats scanned].
  split; [reflexivity|].
  split; [rewrite <- decompiled_calls; subst m; rewrite Hc; apply decompiled_all|].
  rewrite tally_counts. repeat split.
Qed.

(** C9: a run that returns [success = true] returns counters whose sum is
    [total], and [total] is the number of files of the scan. *)
Theorem C9_decompile_counts_add_up w source_dir progress_file r :
  returned (decompile_directory w source_dir progress_file) = Ok r ->
  d_success r = true ->
  n_success (d_stats r) + n_skipped (d_stats r) + n_failed (d_stats r)
  = n_total (d_stats r)
  /\ n_total (d_stats r) = List.length (scanned w source_dir)
  /\ Forall (fun f => Nat.b2n (file_ok w f) + Nat.b2n (file_skipped w f)
                      + Nat.b2n (file_failed w f) = 1)
            (scanned w source_dir).
Proof.
  rewrite decompile_directory_returns. intros [= <-]. unfold decompile_summary.
  destruct (decompile_refusal w source_dir); [discriminate|]. intros _.
  cbn [d_stats]. split; [|split].
  - pose proof (tally_sum w (scanned w source_dir) zero_stats) as H.
    cbn in H |- *. lia.
  - reflexivity.
  - apply Forall_forall. intros f _. apply one_counter.
Qed.

Lemma C5_witness :
  ("game" <> "")%string /\ path_exists scripts "game" = true
  /\ find_rpyc scripts "game" <> []
  /\ exists r,
       returned (decompile_directory scripts (Some "game") (Some "progress.json"))
       = Ok r
       /\ d_success r = true /\ n_failed (d_stats r) = 1.
Proof.
  assert (H1 : ("game" <> "")%string) by discriminate.
  assert (H2 : path_exists scripts "game" = true) by reflexivity.
  assert (H3 : find_rpyc scripts "game" <> []) by (vm_compute; discriminate).
  repeat split; try assumption.
  destruct (C5_decompile_continues_on_error scripts (Some "progress.json") H1 H2 H3)
    as (r & Hv & Hs & _ & Hf & _).
  exists r. repeat split; assumption.
Defined.

Lemma C9_witness :
  returned (decompile_directory scripts (Some "game") None)
  = Ok (decompile_summary scripts (Some "game"))
  /\ d_success (decompile_summary scripts (Some "game")) = true
  /\ n_total (d_stats (decompile_summary scripts (Some "game"))) = 2.
Proof.
  assert (H1 : returned (decompile_directory scripts (Some "game") None)
               = Ok (decompile_summary scripts (Some "game")))
    by (vm_compute; reflexivity).
  assert (H2 : d_success (decompile_summary scripts (Some "game")) = true)
    by (vm_compute; reflexivity).
  split; [exact H1|]. split; [exact H2|].
  destruct (C9_decompile_counts_add_up scripts (Some "game") None H1 H2)
    as (_ & Ht & _).
  rewrite Ht. vm_compute. reflexivity.
Defined.

(** ** Fail-fast extraction *)

Lemma ensure_output_ok w output_dir :
  path_exists w output_dir = true \/ makedirs w output_dir = Ok tt ->
  ensure_output w output_dir = Ok tt.
Proof.
  unfold ensure_output. intros [H|H].
  - rewrite H. reflexivity.
  - destruct (path_exists w output_dir); [reflexivity|exact H].
Qed.

Lemma ensure_calls_ok w output_dir :
  ensure_output w output_dir = Ok tt ->
  reads (ensure_calls w output_dir) = []
  /\ files_written (ensure_calls w output_dir) = []
  /\ write_attempts (ensure_calls w output_dir) = []
  /\ faults (ensure_calls w output_dir) = [].
Proof.
  unfold ensure_output, ensure_calls.
  destruct (path_exists w output_dir); [repeat split|].
  intros ->. repeat split.
Qed.

(** C4: the archive opens, the output directory is there, the entries
    before the k-th are extracted and the k-th fails with the exception [e]
    (k is the length of [pre] plus one).  Then the result is a failure whose
    message names the entry and [e], its [files] are the k-1 entries before,
    which are exactly the files written, in order, and nothing is read or
    written for an entry after the k-th. *)
Theorem C4_extract_stops_at_first_failure
    w rpa_file_path output_dir progress_file a pre filename post e k :
  rpa_open w rpa_file_path = Ok a ->
  path_exists (after_write w progress_file) output_dir = true
  \/ makedirs w output_dir = Ok tt ->
  a_list a = pre ++ filename :: post ->
  k = S (List.length pre) ->
  Forall (fun f => entry_error (after_write w progress_file)
                               rpa_file_path output_dir f = None) pre ->
  entry_error (after_write w progress_file) rpa_file_path output_dir filename
  = Some e ->
  let m := extract_rpa w rpa_file_path output_dir progress_file in
  returned m
  = Ok {| success := false;
          message := ("Error extracting " ++ filename ++ ": " ++ e)%string;
          files := pre |}
  /\ List.length pre = k - 1
  /\ files_written (trace m) = map (path_join output_dir) pre
  /\ reads (trace m) = pre ++ [filename]
  /\ incl (write_attempts (trace m))
          (map (path_join output_dir) (pre ++ [filename])).
Proof.
  intros Ho Hd Hl Hk Hpre Hf m.
  apply (@ensure_output_ok (after_write w progress_file)) in Hd.
  destruct (@extract_rpa_proceeds w rpa_file_path output_dir progress_file a
                                  Ho Hd)
    as (Hv & _ & Hc).
  destruct (@first_failure_at (after_write w progress_file) rpa_file_path
      output_dir pre filename post e
                             Hpre Hf) as (Hff & Hp).
  rewrite <- Hl in Hff, Hp.
  destruct (loop_calls_facts (after_write w progress_file) rpa_file_path
      output_dir (a_list a))
    as (R & W & A & _).
  destruct (@ensure_calls_ok (after_write w progress_file) output_dir Hd) as (R0
      & W0 & A0 & _).
  rewrite Hff, Hp in R, A. rewrite Hp in W. cbn [fst] in R, A.
  subst m. unfold extract_result in Hv. rewrite Hff, Hp in Hv.
  split; [exact Hv|]. split; [lia|].
  rewrite <- files_written_calls, <- reads_calls, <- write_attempts_calls, Hc.
  unfold files_written, reads, write_attempts in *.
  cbn [flat_map app]. rewrite !flat_map_app, R0, W0, A0, R, W.
  repeat split. exact A.
Qed.

Lemma C4_witness :
  rpa_open three_entries "game.rpa"
  = Ok {| a_list := ["a"; "b"; "c"]; a_version := "3" |}
  /\ returned (extract_rpa three_entries "game.rpa" "out" None)
     = Ok {| success := false;
             message := "Error extracting b: corrupt entry";
             files := ["a"] |}
  /\ reads (trace (extract_rpa three_entries "game.rpa" "out" None)) = ["a"; "b"].
Proof.
  split; [reflexivity|].
  destruct (@C4_extract_stops_at_first_failure
              three_entries "game.rpa" "out" None
              {| a_list := ["a"; "b"; "c"]; a_version := "3" |}
              ["a"] "b" ["c"] "corrupt entry" 2)
    as (Hv & _ & _ & Hr & _).
  - reflexivity.
  - left; reflexivity.
  - reflexivity.
  - reflexivity.
  - repeat constructor.
  - reflexivity.
  - split; [exact Hv|exact Hr].
Defined.

(** ** Runs that find nothing to do *)

(** C10: when the archive opens with no entry and the output directory is
    there or can be created, [extract_rpa] succeeds with no file and the
    message for 0 files, and with a progress file writes the initial snapshot
    and then a completed one with [totalFiles = 0] and [processedFiles = 0];
    when the output directory is not there and cannot be created, it returns
    [success = false] with the error of [os.makedirs]; [create_rpa] on a
    directory without files and [decompile_directory] on a scan without
    compiled scripts return [success = false]. *)
Theorem C10_extract_of_empty_archive_succeeds
    w rpa_file_path output_dir progress_file a :
  rpa_open w rpa_file_path = Ok a ->
  a_list a = [] ->
  let m := extract_rpa w rpa_file_path output_dir progress_file in
  (path_exists (after_write w progress_file) output_dir = true
   \/ makedirs w output_dir = Ok tt ->
   returned m = Ok {| success := true;
                      message := "Successfully extracted 0 files";
                      files := [] |}
   /\ (truthy progress_file = true ->
       exists d0 d1,
         written (trace m) = [d0; d1]
         /\ state_of d0 = in_progress
         /\ state_of d1 = completed
         /\ totalFiles d1 = 0 /\ processedFiles d1 = 0))
  /\ (forall e,
        path_exists (after_write w progress_file) output_dir = false ->
        makedirs w output_dir = Raise e ->
        returned m = Ok {| success := false; message := ("Error: " ++ e)%string;
                           files := [] |})
  /\ (forall source_dir output_rpa_path version key pf,
        dir_files (listdir w source_dir) = 0 ->
        exists r,
          returned (create_rpa w source_dir output_rpa_path version key pf) = Ok r
          /\ success r = false)
  /\ (forall source_dir pf,
        scanned w source_dir = [] ->
        exists r,
          returned (decompile_directory w source_dir pf) = Ok r
          /\ d_success r = false).
Proof.
  intros Ho Hl m. subst m. split; [|split; [|split]].
  - intros Hd.
    apply (@ensure_output_ok (after_write w progress_file)) in Hd.
    destruct (@extract_rpa_proceeds w rpa_file_path output_dir progress_file a
                                    Ho Hd)
      as (Hv & Hw & _).
    rewrite Hl in Hv, Hw.
    split; [exact Hv|].
    intros Hp. rewrite Hp in Hw. unfold loop_snapshots in Hw. rewrite Hp in Hw.
    cbn in Hw.
    destruct (written (trace (extract_rpa w rpa_file_path output_dir progress_file)))
      as [|d0 [|d1 [|d2 l]]]; try discriminate.
    injection Hw; intros.
    exists d0, d1. repeat split; assumption.
  - intros e Hx Hm.
    assert (Hd : ensure_output (after_write w progress_file) output_dir
                 = Raise e).
    { unfold ensure_output. rewrite Hx. exact Hm. }
    now destruct (@extract_rpa_output_fails w rpa_file_path output_dir
                                            progress_file a e Ho Hd)
      as (Hv & _).
  - intros source_dir output_rpa_path version key pf Hz.
    rewrite create_rpa_returns. eexists. split; [reflexivity|].
    unfold create_summary. rewrite count_files_tree, Hz. reflexivity.
  - intros source_dir pf Hz.
    rewrite decompile_directory_returns. eexists. split; [reflexivity|].
    unfold decompile_summary, decompile_refusal.
    destruct source_dir as [d|]; [|reflexivity]. cbn [scanned] in Hz.
    destruct (String.eqb d ""); [reflexivity|].
    destruct (negb (path_exists w d)); [reflexivity|].
    rewrite Hz. reflexivity.
Qed.

Lemma C10_witness :
  rpa_open calm "empty.rpa" = Ok {| a_list := []; a_version := "3" |}
  /\ returned (extract_rpa calm "empty.rpa" "out" (Some "progress.json"))
     = Ok {| success := true; message := "Successfully extracted 0 files";
             files := [] |}
  /\ returned (extract_rpa no_output_dir "empty.rpa" "out"
                           (Some "progress.json"))
     = Ok {| success := false; message := "Error: Permission denied";
             files := [] |}.
Proof.
  split; [reflexivity|]. split.
  - apply (@C10_extract_of_empty_archive_succeeds
             calm "empty.rpa" "out" (Some "progress.json")
             {| a_list := []; a_version := "3" |}).
    + reflexivity.
    + reflexivity.
    + left; reflexivity.
  - apply (@C10_extract_of_empty_archive_succeeds
             no_output_dir "empty.rpa" "out" (Some "progress.json")
             {| a_list := []; a_version := "3" |}).
    + reflexivity.
    + reflexivity.
    + reflexivity.
    + reflexivity.
Defined.

(** C10: the claim as worded fails on an archive that opens without entries
    when the output directory is not there and cannot be created: the run
    returns [success = false], and its last snapshot is failed. *)
Lemma C10_empty_archive_without_output_directory :
  let m := extract_rpa no_output_dir "empty.rpa" "out" (Some "progress.json") in
  rpa_open no_output_dir "empty.rpa" = Ok {| a_list := []; a_version := "3" |}
  /\ returned m
     = Ok {| success := false; message := "Error: Permission denied";
             files := [] |}
  /\ map state_of (written (trace m)) = [in_progress; failed]
  /\ ~ (exists r, returned m = Ok r /\ success r = true).
Proof.
  cbv zeta.
  assert (E : returned (extract_rpa no_output_dir "empty.rpa" "out"
                                    (Some "progress.json"))
              = Ok {| success := false; message := "Error: Permission denied";
                      files := [] |}) by (vm_compute; reflexivity).
  split; [reflexivity|]. split; [exact E|].
  split; [vm_compute; reflexivity|].
  intros (r & Hr & Hs). rewrite E in Hr. injection Hr as <-. discriminate.
Qed.

(** ** The calls of the walk of [create_rpa] *)

Section WalkCalls.

Variable w : world.

Lemma step_calls_facts st :
  (forall ev, In ev (step_calls w st) -> is_save ev = false)
  /\ match step_error w st with
     | None =>
         faults (step_calls w st) = []
         /\ paths_added (step_calls w st) = step_path st
     | Some msg =>
         exists d, faults (step_calls w st) = [d] /\ carries msg d
     end.
Proof.
  destruct st as [item_path archive_path [contents|e]|dir_path [e|]];
    cbn [step_calls step_error file_cause step_path err_of].
  - destruct (rpa_add w archive_path contents) as [[]|e]; cbn [err_of]; split;
      try (intros ev [<-|[<-|[]]]; reflexivity).
    + split; reflexivity.
    + exists e. split; [reflexivity|].
      unfold add_error_msg. do 3 apply carries_prefix. apply carries_refl.
  - split; [intros ev [<-|[]]; reflexivity|].
    exists e. split; [reflexivity|].
    unfold add_error_msg. do 3 apply carries_prefix. apply carries_refl.
  - split; [intros ev [<-|[]]; reflexivity|].
    exists e. split; [reflexivity|apply carries_refl].
  - split; [intros ev [<-|[]]; reflexivity|]. split; reflexivity.
Qed.

Lemma done_steps_ok steps :
  Forall (fun st => step_error w st = None) (done_steps w steps).
Proof.
  induction steps as [|st r IH]; cbn [done_steps]; [constructor|].
  destruct (step_error w st) eqn:He; constructor; assumption.
Qed.

Lemma ok_steps_calls l :
  Forall (fun st => step_error w st = None) l ->
  faults (flat_map (step_calls w) l) = []
  /\ paths_added (flat_map (step_calls w) l) = flat_map step_path l.
Proof.
  induction 1 as [|st r Hst Hr (F & P)]; cbn [flat_map]; [split; reflexivity|].
  destruct (step_calls_facts st) as (_ & H). rewrite Hst in H.
  destruct H as (F0 & P0).
  unfold faults, paths_added in *. rewrite !flat_map_app, F0, P0, F, P.
  split; reflexivity.
Qed.

Lemma walk_calls_no_save steps ev :
  In ev (walk_calls w steps) -> is_save ev = false.
Proof.
  unfold walk_calls. intros H. apply in_app_iff in H. destruct H as [H|H].
  - apply in_flat_map in H. destruct H as (st & _ & H).
    now apply (proj1 (step_calls_facts st)).
  - destruct (bad_step w steps) as [st|]; [|destruct H].
    now apply (proj1 (step_calls_facts st)).
Qed.

Lemma walk_result_ok_inv steps :
  walk_result w steps = Ok tt -> bad_step w steps = None.
Proof.
  unfold walk_result. destruct (bad_step w steps) as [st|] eqn:Hb; [|reflexivity].
  destruct (@bad_step_error w steps st Hb) as (e & ->). discriminate.
Qed.

(** A walk that succeeds adds every file, without a fault. *)
Lemma walk_calls_ok steps :
  walk_result w steps = Ok tt ->
  faults (walk_calls w steps) = []
  /\ paths_added (walk_calls w steps) = flat_map step_path steps
  /\ walk_added w steps = flat_map step_path steps.
Proof.
  intros H. apply walk_result_ok_inv in H. unfold walk_calls, walk_added.
  rewrite H, app_nil_r, done_steps_all by exact H.
  destruct (@ok_steps_calls steps) as (F & P).
  - rewrite <- (@done_steps_all w steps H). apply done_steps_ok.
  - repeat split; assumption.
Qed.

(** A walk that fails has one fault, which its exception carries. *)
Lemma walk_calls_bad steps msg :
  walk_result w steps = Raise msg ->
  exists d, faults (walk_calls w steps) = [d] /\ carries msg d.
Proof.
  unfold walk_result, walk_calls.
  destruct (bad_step w steps) as [st|] eqn:Hb; [|discriminate].
  destruct (ok_steps_calls (done_steps_ok steps)) as (F & _).
  destruct (step_calls_facts st) as (_ & H).
  destruct (step_error w st) as [e|]; [|discriminate].
  intros [= <-]. destruct H as (d & Hd & Hc).
  exists d. split; [|exact Hc].
  rewrite faults_app, F, Hd. reflexivity.
Qed.

End WalkCalls.

(** ** [create_rpa] without files, and when the archive is saved *)

(** C3: on a source directory without any file (a directory that cannot be
    listed, such as one that does not exist, is such a directory) the result
    is the failure "No files found in source directory", the only snapshot
    written is a failed one, and no call is made to the codec: no archive is
    made or saved.  In every run, a call of [save] is the last call, and
    before it the walk has added every file of the tree without a fault. *)
Theorem C3_create_without_files
    w source_dir output_rpa_path version key progress_file :
  let m := create_rpa w source_dir output_rpa_path version key progress_file in
  (dir_files (listdir w source_dir) = 0 ->
   returned m = Ok {| success := false;
                      message := "No files found in source directory";
                      files := [] |}
   /\ (truthy progress_file = true ->
       exists d, written (trace m) = [d]
                 /\ state_of d = failed
                 /\ errorMessage d = "No files found in source directory"%string
                 /\ totalFiles d = 0 /\ processedFiles d = 0)
   /\ calls (trace m) = []
   /\ (forall p err, ~ In (EvSave p err) (trace m)))
  /\ (forall e, listdir w source_dir = Raise e ->
                dir_files (listdir w source_dir) = 0)
  /\ (forall p err,
        In (EvSave p err) (trace m) ->
        exists t1,
          calls (trace m) = t1 ++ [EvSave p err]
          /\ faults t1 = []
          /\ paths_added t1
             = dir_paths (listdir (after_write w progress_file) source_dir)).
Proof.
  intros m. split; [|split].
  - intros Hz. rewrite <- count_files_tree in Hz.
    destruct (@create_rpa_refused w source_dir output_rpa_path version key
                                  progress_file Hz) as (Hv & Hw & Hc).
    fold m in Hv, Hw, Hc.
    split; [exact Hv|]. split; [|split; [exact Hc|]].
    + intros Hp. rewrite Hp in Hw.
      destruct (written (trace m)) as [|d [|d' l]]; try discriminate.
      injection Hw; intros. exists d. repeat split; assumption.
    + intros p err Hin. apply in_calls in Hin; [|reflexivity].
      rewrite Hc in Hin. destruct Hin.
  - intros e ->. reflexivity.
  - intros p err Hin. apply in_calls in Hin; [|reflexivity].
    destruct (Nat.eq_dec (count_files w source_dir) 0) as [H0|H0].
    { destruct (@create_rpa_refused w source_dir output_rpa_path version key
                                    progress_file H0) as (_ & _ & Hc).
      fold m in Hc. rewrite Hc in Hin. destruct Hin. }
    destruct (rpa_new w version key) as [[]|e] eqn:Hn.
    2:{ destruct (@create_rpa_new_fails w source_dir output_rpa_path version key
                                        progress_file e H0 Hn) as (_ & _ & Hc).
        fold m in Hc. rewrite Hc in Hin.
        destruct Hin as [Hin|[]]; discriminate. }
    destruct (walk_result w (create_steps (after_write w progress_file)
        source_dir)) as [[]|e] eqn:Hr.
    2:{ destruct (@create_rpa_walk_fails w source_dir output_rpa_path version key
                                         progress_file e H0 Hn Hr) as (_ & _ & Hc).
        fold m in Hc. rewrite Hc in Hin.
        destruct Hin as [Hin|Hin]; [discriminate|].
        apply walk_calls_no_save in Hin. discriminate. }
    assert (Hc : calls (trace m)
                 = (EvNew version key None :: walk_calls w (create_steps
                     (after_write w progress_file) source_dir))
                     ++ [EvSave output_rpa_path (err_of (rpa_save w output_rpa_path))]).
    { destruct (rpa_save w output_rpa_path) as [[]|e] eqn:Hs.
      - now destruct (@create_rpa_succeeds w source_dir output_rpa_path version key
                                           progress_file H0 Hn Hr Hs) as (_ & _ & Hc).
      - now destruct (@create_rpa_save_fails w source_dir output_rpa_path version
                                             key progress_file e H0 Hn Hr Hs)
          as (_ & _ & Hc). }
    rewrite Hc in Hin |- *. apply in_app_iff in Hin.
    destruct Hin as [[Hin|Hin]|[Hin|[]]].
    + discriminate.
    + apply walk_calls_no_save in Hin. discriminate.
    + rewrite <- Hin.
      exists (EvNew version key None :: walk_calls w (create_steps (after_write
          w progress_file) source_dir)).
      destruct (@walk_calls_ok w (create_steps (after_write w progress_file)
          source_dir) Hr) as (F & P & _).
      split; [reflexivity|]. split; [exact F|].
      cbn [paths_added flat_map app]. fold (paths_added (walk_calls w
          (create_steps (after_write w progress_file) source_dir))).
      rewrite P. apply dir_steps_paths.
Qed.

Lemma C3_witness :
  dir_files (listdir calm "missing") = 0
  /\ returned (create_rpa calm "missing" "out.rpa" 3 0xDEADBEEF
                          (Some "progress.json"))
     = Ok {| success := false;
             message := "No files found in source directory";
             files := [] |}.
Proof.
  split; [reflexivity|].
  apply (C3_create_without_files calm "missing" "out.rpa" 3 0xDEADBEEF
                                 (Some "progress.json")).
  reflexivity.
Defined.

(** ** A file that cannot be added *)

(** C1, on the directory [game] with the readable file [a.txt] and the
    unreadable file [b.txt]: the run fails and saves nothing, its message
    reports the error, and its [files] list is empty although [a.txt] was
    added before the failure. *)
Theorem C1_create_failure_drops_added_files :
  let m := create_rpa one_unreadable "game" "out.rpa" 3 0xDEADBEEF
                      (Some "progress.json") in
  returned m
  = Ok {| success := false;
          message := "Error: Error adding game/b.txt: Permission denied";
          files := [] |}
  /\ paths_added (trace m) = ["a.txt"]
  /\ filter is_save (trace m) = [].
Proof. vm_compute. repeat split. Qed.

(** C2, on the same directory: after the initial snapshot two failed
    snapshots are written, one by [add_directory] and one by the [except]
    clause of [create_rpa]. *)
Theorem C2_create_failure_writes_two_terminal_snapshots :
  let m := create_rpa one_unreadable "game" "out.rpa" 3 0xDEADBEEF
                      (Some "progress.json") in
  map state_of (written (trace m)) = [in_progress; failed; failed]
  /\ map errorMessage (written (trace m))
     = [""; "Error adding game/b.txt: Permission denied";
        "Error: Error adding game/b.txt: Permission denied"]%string.
Proof. vm_compute. repeat split. Qed.

(** ** Monotone progress *)

Lemma ascending_weaken lo hi lo' hi' l :
  lo' <= lo -> hi <= hi' -> ascending lo hi l -> ascending lo' hi' l.
Proof.
  revert lo lo'. induction l as [|x r IH]; intros lo lo' Hlo Hhi; cbn.
  - lia.
  - intros (H1 & H2). split; [lia|]. apply (IH x x); auto.
Qed.

Lemma ascending_bounds lo hi l : ascending lo hi l -> lo <= hi.
Proof.
  revert lo. induction l as [|x r IH]; intros lo; cbn; [auto|].
  intros (H1 & H2). apply IH in H2. lia.
Qed.

Lemma ascending_app lo mid hi l1 l2 :
  ascending lo mid l1 -> ascending mid hi l2 -> ascending lo hi (l1 ++ l2).
Proof.
  revert lo. induction l1 as [|x r IH]; intros lo; cbn.
  - intros H1 H2. apply (ascending_weaken (lo := mid) (hi := hi)); auto.
  - intros (H1 & H2) H3. split; [assumption|]. apply IH; assumption.
Qed.

Lemma ascending_nondecreasing lo hi l :
  ascending lo hi l -> nondecreasing l /\ Forall (fun x => lo <= x <= hi) l.
Proof.
  revert lo. induction l as [|x r IH]; intros lo; cbn.
  - intros _. split; [exact I|constructor].
  - intros (H1 & H2). destruct (IH x H2) as (Hn & Hf).
    pose proof (ascending_bounds _ _ _ H2) as Hb.
    split; [split; [|exact Hn]|].
    + destruct r as [|y r']; [exact I|]. cbn in H2. tauto.
    + constructor; [lia|].
      eapply Forall_impl; [|exact Hf]. cbn. intros; lia.
Qed.

Section Periodic.

Variables (mk : nat -> string -> snapshot) (total off : nat).
Hypothesis mk_total : forall i n, totalFiles (mk i n) = total.
Hypothesis mk_processed : forall i n, processedFiles (mk i n) = i + off.
Hypothesis off_le : off <= 1.

Lemma periodic_ascending names : forall idx,
  ascending idx (idx + List.length names)
            (map processedFiles (periodic mk total idx names)).
Proof.
  induction names as [|n r IH]; intros idx; cbn [periodic List.length map].
  - cbn. lia.
  - specialize (IH (S idx)).
    replace (idx + S (List.length r)) with (S idx + List.length r) by lia.
    destruct (due idx total); cbn [app map ascending].
    + rewrite mk_processed. split; [lia|].
      eapply ascending_weaken; [| |exact IH]; lia.
    + eapply ascending_weaken; [| |exact IH]; lia.
Qed.

Lemma periodic_within names : forall idx,
  idx + List.length names <= total ->
  Forall (fun d => processedFiles d <= totalFiles d /\ totalFiles d <= total)
         (periodic mk total idx names).
Proof.
  induction names as [|n r IH]; intros idx Hle; cbn [periodic List.length] in *.
  - constructor.
  - apply Forall_app. split.
    + destruct (due idx total); constructor; [|constructor].
      rewrite mk_total, mk_processed. lia.
    + apply IH. lia.
Qed.

End Periodic.

Lemma periodic_in mk total names d : forall idx,
  In d (periodic mk total idx names)
  <-> exists j name,
        nth_error names j = Some name
        /\ due (idx + j) total = true /\ d = mk (idx + j) name.
Proof.
  induction names as [|n r IH]; intros idx; cbn [periodic].
  - split; [intros []|intros (j & name & H & _)]. destruct j; discriminate.
  - rewrite in_app_iff, IH. split.
    + intros [H|(j & name & Hn & Hd & He)].
      * destruct (due idx total) eqn:Hdue; [|destruct H].
        destruct H as [<-|[]]. exists 0, n. rewrite Nat.add_0_r. auto.
      * exists (S j), name. rewrite <- Nat.add_succ_comm. auto.
    + intros ([|j] & name & Hn & Hd & He).
      * left. rewrite Nat.add_0_r in Hd, He. cbn in Hn. injection Hn as <-.
        rewrite Hd. left. auto.
      * right. exists j, name. rewrite Nat.add_succ_comm. auto.
Qed.

Lemma periodic_forall (P : snapshot -> Prop) mk total names :
  (forall i n, P (mk i n)) -> forall idx, Forall P (periodic mk total idx names).
Proof.
  intros H. induction names as [|n r IH]; intros idx; cbn [periodic].
  - constructor.
  - apply Forall_app. split; [|apply IH].
    destruct (due idx total); repeat constructor. apply H.
Qed.

Lemma create_ticks_ascending total paths : forall fi,
  ascending fi (fi + List.length paths)
            (map processedFiles (create_ticks total fi paths)).
Proof.
  induction paths as [|p r IH]; intros fi; cbn [create_ticks List.length map].
  - cbn. lia.
  - specialize (IH (fi + 1)).
    replace (fi + S (List.length r)) with (fi + 1 + List.length r) by lia.
    destruct (((fi + 1) mod 5 =? 0)%nat || (fi + 1 =? total)%nat)%bool;
      cbn [app map ascending create_tick processedFiles].
    + split; [lia|exact IH].
    + eapply ascending_weaken; [| |exact IH]; lia.
Qed.

Lemma create_ticks_within total paths : forall fi,
  fi + List.length paths <= total ->
  Forall (fun d => processedFiles d <= totalFiles d /\ totalFiles d <= total)
         (create_ticks total fi paths).
Proof.
  induction paths as [|p r IH]; intros fi Hle; cbn [create_ticks List.length] in *.
  - constructor.
  - apply Forall_app. split.
    + destruct (((fi + 1) mod 5 =? 0)%nat || (fi + 1 =? total)%nat)%bool;
        constructor; [|constructor]. cbn. lia.
    + apply IH. lia.
Qed.

Lemma create_ticks_forall (P : snapshot -> Prop) total paths :
  (forall i p, P (create_tick total i p)) ->
  forall fi, Forall P (create_ticks total fi paths).
Proof.
  intros H. induction paths as [|p r IH]; intros fi; cbn [create_ticks].
  - constructor.
  - apply Forall_app. split; [|apply IH].
    destruct (((fi + 1) mod 5 =? 0)%nat || (fi + 1 =? total)%nat)%bool;
      repeat constructor. apply H.
Qed.

Lemma progress_ok_untimed total l :
  progress_ok total (map untimed l) -> progress_ok total l.
Proof.
  unfold progress_ok. rewrite map_processed_untimed. intros (H0 & H1 & H2).
  split; [|split; [exact H1|]].
  - destruct l; [exact I|exact H0].
  - rewrite Forall_map in H2. exact H2.
Qed.

(** The three parts of [progress_ok], from an ascending list. *)
Lemma progress_ok_intro total l :
  match l with d :: _ => processedFiles d = 0 | [] => True end ->
  ascending 0 total (map processedFiles l) ->
  Forall (fun d => processedFiles d <= totalFiles d /\ totalFiles d <= total) l ->
  progress_ok total l.
Proof.
  intros H0 H1 H2. split; [exact H0|]. split; [|exact H2].
  now apply ascending_nondecreasing in H1.
Qed.

Ltac fields :=
  cbn [map app ascending processedFiles totalFiles
       create_fault create_completed create_initial create_refused
       extract_failed extract_completed extract_initial extract_fault
       decompile_failed decompile_initial decompile_completed].

Ltac all_within :=
  repeat (apply Forall_cons; [fields; lia|]); apply Forall_nil.

Ltac small_ok :=
  apply progress_ok_intro; fields; [try reflexivity|try lia|all_within].

Lemma progress_ok_shape total d0 ticks tail k :
  processedFiles d0 = 0 ->
  totalFiles d0 <= total ->
  ascending 0 k (map processedFiles ticks) ->
  Forall (fun d => processedFiles d <= totalFiles d /\ totalFiles d <= total) ticks ->
  ascending k total (map processedFiles tail) ->
  Forall (fun d => processedFiles d <= totalFiles d /\ totalFiles d <= total) tail ->
  progress_ok total (d0 :: ticks ++ tail).
Proof.
  intros H0 Ht A1 F1 A2 F2. apply progress_ok_intro.
  - exact H0.
  - cbn [map ascending]. rewrite H0, map_app. split; [lia|].
    eapply ascending_app; eassumption.
  - constructor; [lia|]. apply Forall_app. split; assumption.
Qed.

Lemma extracted_prefix_length w rpa_file_path output_dir todo :
  List.length (extracted_prefix w rpa_file_path output_dir todo)
  <= List.length todo.
Proof.
  induction todo as [|f r IH]; cbn; [lia|].
  destruct (entry_error w rpa_file_path output_dir f); cbn; lia.
Qed.

(** The number of entries of the archive, 0 when it cannot be opened. *)
Lemma extract_progress_ok w rpa_file_path output_dir progress_file :
  progress_ok
    (match rpa_open w rpa_file_path with
     | Ok a => List.length (a_list a)
     | Raise _ => 0
     end)
    (written (trace (extract_rpa w rpa_file_path output_dir progress_file))).
Proof.
  apply progress_ok_untimed.
  destruct (rpa_open w rpa_file_path) as [a|e] eqn:Ho.
  - destruct (ensure_output (after_write w progress_file) output_dir) as [[]|e]
      eqn:Hd.
    + destruct (@extract_rpa_proceeds w rpa_file_path output_dir progress_file a
                                      Ho Hd) as (_ & -> & _).
      unfold loop_snapshots.
      destruct (truthy progress_file); [|repeat split; constructor].
      rewrite <- app_assoc.
      pose proof (extracted_prefix_length (after_write w progress_file)
          rpa_file_path output_dir (a_list a))
        as Hlen.
      apply progress_ok_shape
        with (k := List.length
                     (extracted_prefix (after_write w progress_file)
                         rpa_file_path output_dir (a_list a))).
      * reflexivity.
      * cbn. lia.
      * apply (@periodic_ascending _ _ 1) with (idx := 0); intros; cbn; lia.
      * apply (@periodic_within _ _ 1); intros; cbn; lia.
      * destruct (first_failure (after_write w progress_file) rpa_file_path
          output_dir (a_list a));
          fields; lia.
      * destruct (first_failure (after_write w progress_file) rpa_file_path
          output_dir (a_list a));
          all_within.
    + destruct (@extract_rpa_output_fails w rpa_file_path output_dir
                                          progress_file a e Ho Hd) as (_ & -> & _).
      destruct (truthy progress_file); [|repeat split; constructor].
      small_ok.
  - destruct (@extract_rpa_open_fails w rpa_file_path output_dir progress_file e
                                      Ho) as (_ & -> & _).
    destruct (truthy progress_file); [|repeat split; constructor].
    small_ok.
Qed.

Lemma decompile_progress_ok w source_dir progress_file :
  progress_ok
    (List.length (scanned w source_dir))
    (written (trace (decompile_directory w source_dir progress_file))).
Proof.
  apply progress_ok_untimed.
  destruct (decompile_refusal w source_dir) as [msg|] eqn:Hr.
  - destruct (@decompile_refused w source_dir progress_file msg Hr) as (_ & -> & _).
    destruct (truthy progress_file); [|repeat split; constructor].
    small_ok.
  - destruct (@decompile_proceeds w source_dir progress_file Hr) as (_ & -> & _).
    destruct (truthy progress_file); [|repeat split; constructor].
    apply progress_ok_shape with (k := List.length (scanned w source_dir)).
    + reflexivity.
    + cbn. lia.
    + apply (@periodic_ascending _ _ 0) with (idx := 0); intros; cbn; lia.
    + apply (@periodic_within _ _ 0); intros; cbn; lia.
    + cbn. lia.
    + all_within.
Qed.

Lemma create_progress_ok
    w source_dir output_rpa_path version key progress_file :
  listdir (after_write w progress_file) source_dir = listdir w source_dir ->
  dir_link_free (listdir w source_dir) = true ->
  progress_ok
    (count_files w source_dir)
    (written (trace (create_rpa w source_dir output_rpa_path version key
                                progress_file))).
Proof.
  intros Hsame Hfree. apply progress_ok_untimed.
  pose proof (@walk_added_bound w progress_file source_dir Hsame Hfree)
    as Hbound.
  assert (Hshape : forall tail,
    ascending (List.length (walk_added w (create_steps (after_write w
        progress_file) source_dir)))
              (count_files w source_dir) (map processedFiles tail) ->
    Forall (fun d => processedFiles d <= totalFiles d
                     /\ totalFiles d <= count_files w source_dir) tail ->
    progress_ok (count_files w source_dir)
      (create_initial (count_files w source_dir)
         :: create_ticks (count_files w source_dir) 0
              (walk_added w (create_steps (after_write w progress_file)
                  source_dir)) ++ tail)).
  { intros tail A F.
    apply progress_ok_shape
      with (k := List.length (walk_added w (create_steps (after_write w
          progress_file) source_dir))).
    - reflexivity.
    - cbn. lia.
    - apply (create_ticks_ascending _ _ 0).
    - apply create_ticks_within. exact Hbound.
    - exact A.
    - exact F. }
  destruct (Nat.eq_dec (count_files w source_dir) 0) as [H0|H0].
  { destruct (@create_rpa_refused w source_dir output_rpa_path version key
                                  progress_file H0) as (_ & -> & _).
    destruct (truthy progress_file); [|repeat split; constructor].
    small_ok. }
  destruct (rpa_new w version key) as [[]|e] eqn:Hn.
  2:{ destruct (@create_rpa_new_fails w source_dir output_rpa_path version key
                                      progress_file e H0 Hn) as (_ & -> & _).
      destruct (truthy progress_file); [|repeat split; constructor].
      small_ok. }
  destruct (walk_result w (create_steps (after_write w progress_file)
      source_dir)) as [[]|e] eqn:Hr.
  2:{ destruct (@create_rpa_walk_fails w source_dir output_rpa_path version key
                                       progress_file e H0 Hn Hr) as (_ & -> & _).
      destruct (truthy progress_file); [|repeat split; constructor].
      unfold walk_snapshots. rewrite <- app_assoc. cbn [Nat.add].
      apply Hshape.
      - destruct (bad_step w (create_steps (after_write w progress_file)
          source_dir)) as [[ip ap rd|dp err]|];
          cbn [create_failed app]; try (fields; lia).
        destruct (step_error w (SFile ip ap rd)); fields; lia.
      - destruct (bad_step w (create_steps (after_write w progress_file)
          source_dir)) as [[ip ap rd|dp err]|];
          cbn [create_failed app]; try (all_within).
        destruct (step_error w (SFile ip ap rd)); all_within. }
  pose proof (walk_result_ok_inv _ _ Hr) as Hb.
  destruct (rpa_save w output_rpa_path) as [[]|e] eqn:Hs.
  - destruct (@create_rpa_succeeds w source_dir output_rpa_path version key
                                   progress_file H0 Hn Hr Hs) as (_ & -> & _).
    destruct (truthy progress_file); [|repeat split; constructor].
    unfold walk_snapshots. rewrite Hb, <- app_assoc. cbn [Nat.add app].
    apply Hshape; [fields; lia|all_within].
  - destruct (@create_rpa_save_fails w source_dir output_rpa_path version key
                                     progress_file e H0 Hn Hr Hs) as (_ & -> & _).
    destruct (truthy progress_file); [|repeat split; constructor].
    unfold walk_snapshots. rewrite Hb, <- app_assoc. cbn [Nat.add app].
    apply Hshape; [fields; lia|all_within].
Qed.

(** C6: the snapshots of [create_rpa] on a directory with one file and a
    link to a directory of five files.  [os.walk] counts one file, the walk
    of [add_directory] follows the link and adds six: [processedFiles]
    reaches 5 under a [totalFiles] of 1, and falls back to 1 in the last
    snapshot. *)
Theorem C6_create_progress_exceeds_the_count :
  let m := create_rpa linked_tree "game" "out.rpa" 3 0xDEADBEEF
                      (Some "progress.json") in
  map processedFiles (written (trace m)) = [0; 1; 5; 1]
  /\ map totalFiles (written (trace m)) = [1; 1; 1; 1]
  /\ map state_of (written (trace m))
     = [in_progress; in_progress; in_progress; completed]
  /\ returned m
     = Ok {| success := true;
             message := "Successfully created archive with 6 files";
             files := ["a.txt"; "pictures/p1.png"; "pictures/p2.png";
                       "pictures/p3.png"; "pictures/p4.png";
                       "pictures/p5.png"] |}
  /\ ~ progress_ok (dir_files (listdir linked_tree "game"))
                   (written (trace m)).
Proof.
  cbv zeta.
  assert (E : map processedFiles
                  (written (trace (create_rpa linked_tree "game" "out.rpa" 3
                                              0xDEADBEEF (Some "progress.json"))))
              = [0; 1; 5; 1]) by (vm_compute; reflexivity).
  split; [exact E|]. split; [vm_compute; reflexivity|].
  split; [vm_compute; reflexivity|]. split; [vm_compute; reflexivity|].
  intros (_ & Hmono & _). rewrite E in Hmono. cbn in Hmono. lia.
Qed.

(** X20: the progress of a run is monotone and bounded where the count is
    right.  In every run of [extract_rpa] and of [decompile_directory] the
    snapshots start with [processedFiles = 0], their [processedFiles] never
    decreases, and it never exceeds [totalFiles], which is at most the
    number of items found before the first is processed.  The same holds of
    [create_rpa] when the tree that it walks is the tree that it has
    counted, without links to directories. *)
Theorem progress_is_monotone_where_the_count_is_right w :
  (forall rpa_file_path output_dir progress_file,
     progress_ok
       (match rpa_open w rpa_file_path with
        | Ok a => List.length (a_list a)
        | Raise _ => 0
        end)
       (written (trace (extract_rpa w rpa_file_path output_dir progress_file))))
  /\ (forall source_dir output_rpa_path version key progress_file,
        listdir (after_write w progress_file) source_dir
        = listdir w source_dir ->
        dir_link_free (listdir w source_dir) = true ->
        progress_ok
          (dir_files (listdir w source_dir))
          (written (trace (create_rpa w source_dir output_rpa_path version key
                                      progress_file))))
  /\ (forall source_dir progress_file,
        progress_ok
          (List.length (scanned w source_dir))
          (written (trace (decompile_directory w source_dir progress_file)))).
Proof.
  split; [|split]; intros.
  - apply extract_progress_ok.
  - rewrite <- count_files_tree. now apply create_progress_ok.
  - apply decompile_progress_ok.
Qed.

Lemma progress_is_monotone_where_the_count_is_right_witness :
  dir_link_free (listdir one_unreadable "game") = true
  /\ progress_ok
       (dir_files (listdir one_unreadable "game"))
       (written (trace (create_rpa one_unreadable "game" "out.rpa" 3 0xDEADBEEF
                                   (Some "progress.json")))).
Proof.
  split; [reflexivity|].
  destruct (progress_is_monotone_where_the_count_is_right one_unreadable)
    as (_ & Hc & _).
  apply Hc; reflexivity.
Defined.

(** ** The cadence of the snapshots *)

Lemma due_spec idx total :
  due idx total = true <-> idx mod 5 = 0 \/ idx + 1 = total.
Proof.
  unfold due. rewrite orb_true_iff, Nat.eqb_eq, Z.eqb_eq. lia.
Qed.

Lemma extracted_prefix_app w rpa_file_path output_dir l rest :
  Forall (fun f => entry_error w rpa_file_path output_dir f = None) l ->
  extracted_prefix w rpa_file_path output_dir (l ++ rest)
  = l ++ extracted_prefix w rpa_file_path output_dir rest.
Proof.
  induction 1 as [|x r Hx Hr IH]; cbn; [reflexivity|].
  rewrite Hx, IH. reflexivity.
Qed.

Lemma nth_error_middle {A} (pre : list A) x post :
  nth_error (pre ++ x :: post) (List.length pre) = Some x.
Proof. rewrite nth_error_app2, Nat.sub_diag by lia. reflexivity. Qed.

(** ** No exception escapes *)

Section Faults.

Variable w : world.

Lemma extract_faults rpa_file_path output_dir progress_file d :
  In d (faults (trace (extract_rpa w rpa_file_path output_dir progress_file))) ->
  success (extract_summary (after_write w progress_file) rpa_file_path
                           output_dir) = false
  /\ carries (message (extract_summary (after_write w progress_file)
                                       rpa_file_path output_dir)) d.
Proof.
  rewrite <- faults_calls. unfold extract_summary. settle.
  destruct (rpa_open w rpa_file_path) as [a|e] eqn:Ho.
  - destruct (ensure_output (after_write w progress_file) output_dir) as [[]|e]
      eqn:Hd.
    + destruct (@extract_rpa_proceeds w rpa_file_path output_dir progress_file a
                                      Ho Hd) as (_ & _ & ->).
      destruct (@ensure_calls_ok (after_write w progress_file) output_dir Hd) as
          (_ & _ & _ & F).
      destruct (loop_calls_facts (after_write w progress_file) rpa_file_path
          output_dir (a_list a))
        as (_ & _ & _ & F').
      change (faults (?x :: ?l)) with (faults [x] ++ faults l).
      rewrite faults_app, F, F'. cbn [faults flat_map fault_of app].
      unfold extract_result.
      destruct (first_failure (after_write w progress_file) rpa_file_path
          output_dir (a_list a)) as [[f e]|];
        [|intros []].
      intros [<-|[]]. cbn [success message]. split; [reflexivity|].
      unfold extract_error_msg. cbn [fst snd].
      do 3 apply carries_prefix. apply carries_refl.
    + destruct (@extract_rpa_output_fails w rpa_file_path output_dir
                                          progress_file a e Ho Hd) as (_ & _ & ->).
      intros [<-|[]]. cbn [success message]. split; [reflexivity|].
      apply carries_prefix, carries_refl.
  - destruct (@extract_rpa_open_fails w rpa_file_path output_dir progress_file e
                                      Ho) as (_ & _ & ->).
    intros [<-|[]]. cbn [success message]. split; [reflexivity|].
    apply carries_prefix, carries_refl.
Qed.

Lemma create_faults source_dir output_rpa_path version key progress_file d :
  In d (faults (trace (create_rpa w source_dir output_rpa_path version key
                                  progress_file))) ->
  success (create_summary w progress_file source_dir output_rpa_path version key) = false
  /\ carries (message (create_summary w progress_file source_dir output_rpa_path version key)) d.
Proof.
  rewrite <- faults_calls. unfold create_summary, create_error.
  destruct (Nat.eq_dec (count_files w source_dir) 0) as [H0|H0].
  { destruct (@create_rpa_refused w source_dir output_rpa_path version key
                                  progress_file H0) as (_ & _ & ->).
    intros []. }
  pose proof H0 as H0'. apply Nat.eqb_neq in H0'. rewrite H0'.
  destruct (rpa_new w version key) as [[]|e] eqn:Hn.
  2:{ destruct (@create_rpa_new_fails w source_dir output_rpa_path version key
                                      progress_file e H0 Hn) as (_ & _ & ->).
      intros [<-|[]]. cbn [success message]. split; [reflexivity|].
      apply carries_prefix, carries_refl. }
  destruct (walk_result w (create_steps (after_write w progress_file)
      source_dir)) as [[]|e] eqn:Hr.
  2:{ destruct (@create_rpa_walk_fails w source_dir output_rpa_path version key
                                       progress_file e H0 Hn Hr) as (_ & _ & ->).
      destruct (@walk_calls_bad w (create_steps (after_write w progress_file)
          source_dir) e Hr)
        as (d' & Hd' & Hc).
      change (faults (?x :: ?l)) with (faults [x] ++ faults l).
      rewrite Hd'. intros [<-|[]]. cbn [success message]. split; [reflexivity|].
      apply carries_prefix, Hc. }
  destruct (@walk_calls_ok w (create_steps (after_write w progress_file)
      source_dir) Hr) as (F & _).
  destruct (rpa_save w output_rpa_path) as [[]|e] eqn:Hs; cbn [err_of].
  - destruct (@create_rpa_succeeds w source_dir output_rpa_path version key
                                   progress_file H0 Hn Hr Hs) as (_ & _ & ->).
    change (faults (?x :: ?l)) with (faults [x] ++ faults l).
    rewrite faults_app, F. intros [].
  - destruct (@create_rpa_save_fails w source_dir output_rpa_path version key
                                     progress_file e H0 Hn Hr Hs) as (_ & _ & ->).
    change (faults (?x :: ?l)) with (faults [x] ++ faults l).
    rewrite faults_app, F. intros [<-|[]]. cbn [success message]. split; [reflexivity|].
    apply carries_prefix, carries_refl.
Qed.

Lemma decompile_faults source_dir progress_file :
  faults (trace (decompile_directory w source_dir progress_file)) = [].
Proof.
  rewrite <- faults_calls.
  destruct (decompile_refusal w source_dir) as [msg|] eqn:Hr.
  - now destruct (@decompile_refused w source_dir progress_file msg Hr)
      as (_ & _ & ->).
  - destruct (@decompile_proceeds w source_dir progress_file Hr) as (_ & _ & ->).
    apply decompile_calls_faults.
Qed.

End Faults.


(** ** One terminal snapshot *)

Lemma one_terminal_untimed l :
  one_terminal_last (map untimed l) -> one_terminal_last l.
Proof.
  intros (before & d & H & Ht & Hf).
  apply map_eq_app in H. destruct H as (l1 & l2 & -> & <- & H2).
  destruct l2 as [|d2 [|d3 l2]]; try discriminate.
  injection H2 as <-.
  exists l1, d2. split; [reflexivity|]. split; [exact Ht|].
  rewrite Forall_map in Hf. exact Hf.
Qed.

Lemma one_terminal_snoc before d :
  Forall (fun x => terminal x = false) before ->
  terminal d = true ->
  one_terminal_last (before ++ [d]).
Proof. intros Hf Ht. exists before, d. auto. Qed.

(** The runs of [extract_rpa] write exactly one terminal snapshot, last. *)
Lemma extract_one_terminal w rpa_file_path output_dir progress_file :
  truthy progress_file = true ->
  one_terminal_last
    (written (trace (extract_rpa w rpa_file_path output_dir progress_file))).
Proof.
  intros Hp. apply one_terminal_untimed.
  destruct (rpa_open w rpa_file_path) as [a|e] eqn:Ho.
  - destruct (ensure_output (after_write w progress_file) output_dir) as [[]|e]
      eqn:Hd.
    + destruct (@extract_rpa_proceeds w rpa_file_path output_dir progress_file a
                                      Ho Hd) as (_ & -> & _).
      unfold loop_snapshots. rewrite Hp.
      assert (Hticks : Forall (fun x => terminal x = false)
                (extract_initial (List.length (a_list a))
                   :: periodic (extract_tick (List.length (a_list a)))
                        (List.length (a_list a)) 0
                        (extracted_prefix (after_write w progress_file)
                            rpa_file_path output_dir (a_list a)))).
      { constructor; [reflexivity|]. apply periodic_forall. reflexivity. }
      destruct (first_failure (after_write w progress_file) rpa_file_path
          output_dir (a_list a)) as [fe|];
        rewrite ?app_nil_r;
        change (?x :: ?l ++ [?d]) with ((x :: l) ++ [d]);
        (apply one_terminal_snoc; [exact Hticks|reflexivity]).
    + destruct (@extract_rpa_output_fails w rpa_file_path output_dir
                                          progress_file a e Ho Hd) as (_ & -> & _).
      rewrite Hp. change [?x; ?d] with ([x] ++ [d]); (apply one_terminal_snoc; [repeat constructor|reflexivity]).
  - destruct (@extract_rpa_open_fails w rpa_file_path output_dir progress_file e
                                      Ho) as (_ & -> & _).
    rewrite Hp. change [?d] with ([] ++ [d]); (apply one_terminal_snoc; [constructor|reflexivity]).
Qed.

(** So do the runs of [decompile_directory]. *)
Lemma decompile_one_terminal w source_dir progress_file :
  truthy progress_file = true ->
  one_terminal_last
    (written (trace (decompile_directory w source_dir progress_file))).
Proof.
  intros Hp. apply one_terminal_untimed.
  destruct (decompile_refusal w source_dir) as [msg|] eqn:Hr.
  - destruct (@decompile_refused w source_dir progress_file msg Hr) as (_ & -> & _).
    rewrite Hp. change [?d] with ([] ++ [d]); (apply one_terminal_snoc; [constructor|reflexivity]).
  - destruct (@decompile_proceeds w source_dir progress_file Hr) as (_ & -> & _).
    rewrite Hp.
    change (?x :: ?l ++ [?d]) with ((x :: l) ++ [d]).
    apply one_terminal_snoc; [|reflexivity].
    constructor; [reflexivity|]. apply periodic_forall. reflexivity.
Qed.

(** And the runs of [create_rpa] in which no file fails to be read or
    added. *)
Lemma create_one_terminal
    w source_dir output_rpa_path version key progress_file :
  truthy progress_file = true ->
  match bad_step w (create_steps (after_write w progress_file) source_dir) with
  | Some (SFile _ _ _) => False
  | _ => True
  end ->
  one_terminal_last
    (written (trace (create_rpa w source_dir output_rpa_path version key
                                progress_file))).
Proof.
  intros Hp Hbad. apply one_terminal_untimed.
  assert (Hticks : Forall (fun x => terminal x = false)
            (create_initial (count_files w source_dir)
               :: create_ticks (count_files w source_dir) 0
                    (walk_added w (create_steps (after_write w progress_file)
                        source_dir)))).
  { constructor; [reflexivity|]. apply create_ticks_forall. reflexivity. }
  assert (Hwalk : walk_snapshots w (count_files w source_dir) 0
                                 (create_steps (after_write w progress_file)
                                     source_dir)
                  = create_ticks (count_files w source_dir) 0
                      (walk_added w (create_steps (after_write w progress_file)
                          source_dir))).
  { unfold walk_snapshots.
    destruct (bad_step w (create_steps (after_write w progress_file)
        source_dir)) as [[ip ap rd|dp err]|];
      [destruct Hbad| |]; apply app_nil_r. }
  destruct (Nat.eq_dec (count_files w source_dir) 0) as [H0|H0].
  { destruct (@create_rpa_refused w source_dir output_rpa_path version key
                                  progress_file H0) as (_ & -> & _).
    rewrite Hp. change [?d] with ([] ++ [d]); (apply one_terminal_snoc; [constructor|reflexivity]). }
  destruct (rpa_new w version key) as [[]|e] eqn:Hn.
  2:{ destruct (@create_rpa_new_fails w source_dir output_rpa_path version key
                                      progress_file e H0 Hn) as (_ & -> & _).
      rewrite Hp. change [?x; ?d] with ([x] ++ [d]); (apply one_terminal_snoc; [repeat constructor|reflexivity]). }
  destruct (walk_result w (create_steps (after_write w progress_file)
      source_dir)) as [[]|e] eqn:Hr.
  2:{ destruct (@create_rpa_walk_fails w source_dir output_rpa_path version key
                                       progress_file e H0 Hn Hr) as (_ & -> & _).
      rewrite Hp, Hwalk. change (?x :: ?l ++ [?d]) with ((x :: l) ++ [d]).
    apply one_terminal_snoc; [exact Hticks|reflexivity]. }
  destruct (rpa_save w output_rpa_path) as [[]|e] eqn:Hs.
  - destruct (@create_rpa_succeeds w source_dir output_rpa_path version key
                                   progress_file H0 Hn Hr Hs) as (_ & -> & _).
    rewrite Hp, Hwalk. change (?x :: ?l ++ [?d]) with ((x :: l) ++ [d]).
    apply one_terminal_snoc; [exact Hticks|reflexivity].
  - destruct (@create_rpa_save_fails w source_dir output_rpa_path version key
                                     progress_file e H0 Hn Hr Hs) as (_ & -> & _).
    rewrite Hp, Hwalk. change (?x :: ?l ++ [?d]) with ((x :: l) ++ [d]).
    apply one_terminal_snoc; [exact Hticks|reflexivity].
Qed.

(** In the runs of [create_rpa] in which a file fails to be read or added,
    the result lists no file and the last two snapshots are both failed:
    the one of [add_directory] and the one of the [except] clause. *)
Lemma create_file_failure
    w source_dir output_rpa_path version key progress_file
    item_path archive_path rd :
  count_files w source_dir <> 0 ->
  rpa_new w version key = Ok tt ->
  bad_step w (create_steps (after_write w progress_file) source_dir) = Some
      (SFile item_path archive_path rd) ->
  let m := create_rpa w source_dir output_rpa_path version key progress_file in
  exists e,
    file_cause w archive_path rd = Some e
    /\ returned m
       = Ok {| success := false;
               message := ("Error: " ++ add_error_msg item_path e)%string;
               files := [] |}
    /\ (truthy progress_file = true ->
        exists before d1 d2,
          written (trace m) = before ++ [d1; d2]
          /\ state_of d1 = failed /\ state_of d2 = failed).
Proof.
  intros H0 Hn Hb m.
  destruct (@bad_step_error w _ _ Hb) as (msg & Hmsg).
  assert (Hr : walk_result w (create_steps (after_write w progress_file)
      source_dir) = Raise msg).
  { unfold walk_result. rewrite Hb, Hmsg. reflexivity. }
  destruct (@create_rpa_walk_fails w source_dir output_rpa_path version key
                                   progress_file msg H0 Hn Hr) as (Hv & Hw & _).
  fold m in Hv, Hw.
  cbn [step_error] in Hmsg.
  destruct (file_cause w archive_path rd) as [e|] eqn:Hc; [|discriminate].
  injection Hmsg as <-.
  exists e. split; [reflexivity|]. split; [exact Hv|].
  intros Hp. rewrite Hp in Hw. unfold walk_snapshots in Hw.
  rewrite Hb in Hw. cbn [create_failed step_error] in Hw. rewrite Hc in Hw.
  rewrite <- app_assoc in Hw. cbn [app] in Hw.
  change (?x :: ?l ++ ?t) with ((x :: l) ++ t) in Hw.
  apply map_eq_app in Hw. destruct Hw as (before & l2 & Hl & _ & H2).
  destruct l2 as [|d1 [|d2 [|d3 l2]]]; try discriminate.
  injection H2; intros.
  exists before, d1, d2. repeat split; assumption.
Qed.

(** ** The progress file is optional *)

(** Two worlds that answer alike the calls of the loop of [extract_rpa]
    extract alike. *)
Section Agreement.

Variables fs fs' : world.

Hypothesis same_read :
  forall rpa_file_path filename,
    rpa_read fs rpa_file_path filename = rpa_read fs' rpa_file_path filename.
Hypothesis same_checks : forall p, path_exists fs p = path_exists fs' p.
Hypothesis same_makedirs : forall p, makedirs fs p = makedirs fs' p.
Hypothesis same_write :
  forall p contents, write_file fs p contents = write_file fs' p contents.

Lemma extract_entry_same rpa_file_path output_dir filename s :
  extract_entry fs rpa_file_path output_dir filename s
  = extract_entry fs' rpa_file_path output_dir filename s.
Proof.
  unfold extract_entry, bind, call. rewrite same_read.
  destruct (rpa_read fs' rpa_file_path filename) as [contents|e]; [|reflexivity].
  rewrite same_checks, same_makedirs, same_write. reflexivity.
Qed.

Lemma entry_error_same rpa_file_path output_dir filename :
  entry_error fs rpa_file_path output_dir filename
  = entry_error fs' rpa_file_path output_dir filename.
Proof.
  unfold entry_error, returned, run. rewrite extract_entry_same. reflexivity.
Qed.

Lemma entry_calls_same rpa_file_path output_dir filename :
  entry_calls fs rpa_file_path output_dir filename
  = entry_calls fs' rpa_file_path output_dir filename.
Proof.
  unfold entry_calls, trace, run. rewrite extract_entry_same. reflexivity.
Qed.

Lemma extracted_prefix_same rpa_file_path output_dir todo :
  extracted_prefix fs rpa_file_path output_dir todo
  = extracted_prefix fs' rpa_file_path output_dir todo.
Proof.
  induction todo as [|filename rest IH]; [reflexivity|]. cbn.
  rewrite entry_error_same, IH. reflexivity.
Qed.

Lemma first_failure_same rpa_file_path output_dir todo :
  first_failure fs rpa_file_path output_dir todo
  = first_failure fs' rpa_file_path output_dir todo.
Proof.
  induction todo as [|filename rest IH]; [reflexivity|]. cbn.
  rewrite entry_error_same, IH. reflexivity.
Qed.

Lemma loop_calls_same rpa_file_path output_dir todo :
  loop_calls fs rpa_file_path output_dir todo
  = loop_calls fs' rpa_file_path output_dir todo.
Proof.
  unfold loop_calls. rewrite extracted_prefix_same, first_failure_same.
  f_equal.
  - apply flat_map_ext. intros f. apply entry_calls_same.
  - destruct (first_failure fs' rpa_file_path output_dir todo);
      [apply entry_calls_same|reflexivity].
Qed.

Lemma loop_snapshots_same rpa_file_path output_dir progress_file total idx todo :
  loop_snapshots fs rpa_file_path output_dir progress_file total idx todo
  = loop_snapshots fs' rpa_file_path output_dir progress_file total idx todo.
Proof.
  unfold loop_snapshots.
  rewrite extracted_prefix_same, first_failure_same. reflexivity.
Qed.

Lemma ensure_output_same output_dir :
  ensure_output fs output_dir = ensure_output fs' output_dir.
Proof. unfold ensure_output. rewrite same_checks, same_makedirs. reflexivity. Qed.

Lemma ensure_calls_same output_dir :
  ensure_calls fs output_dir = ensure_calls fs' output_dir.
Proof. unfold ensure_calls. rewrite same_checks, same_makedirs. reflexivity. Qed.

Lemma extract_result_same rpa_file_path output_dir todo :
  extract_result fs rpa_file_path output_dir todo
  = extract_result fs' rpa_file_path output_dir todo.
Proof.
  unfold extract_result.
  rewrite first_failure_same, extracted_prefix_same. reflexivity.
Qed.

End Agreement.

(** The runs of [extract_rpa] in two worlds with the same archive, the same
    clock and the same answers to the calls that follow the first
    snapshot. *)
Section ExtractAgreement.

Variables w w' : world.
Variables pf pf' : option string.

Hypothesis same_open : forall p, rpa_open w p = rpa_open w' p.
Hypothesis same_read :
  forall rpa_file_path filename,
    rpa_read w rpa_file_path filename = rpa_read w' rpa_file_path filename.
Hypothesis same_checks :
  forall p, path_exists (after_write w pf) p = path_exists (after_write w' pf')
      p.
Hypothesis same_makedirs : forall p, makedirs w p = makedirs w' p.
Hypothesis same_write :
  forall p contents, write_file w p contents = write_file w' p contents.

Lemma extract_summary_same rpa_file_path output_dir :
  extract_summary (after_write w pf) rpa_file_path output_dir
  = extract_summary (after_write w' pf') rpa_file_path output_dir.
Proof.
  unfold extract_summary. settle. rewrite same_open.
  rewrite (@ensure_output_same (after_write w pf) (after_write w' pf')
                               same_checks same_makedirs).
  settle.
  destruct (rpa_open w' rpa_file_path) as [a|e]; [|reflexivity].
  destruct (ensure_output (after_write w' pf') output_dir); [|reflexivity].
  apply (@extract_result_same (after_write w pf) (after_write w' pf')
                              same_read same_checks same_makedirs same_write).
Qed.

Lemma extract_run_same rpa_file_path output_dir :
  calls (trace (extract_rpa w rpa_file_path output_dir pf))
  = calls (trace (extract_rpa w' rpa_file_path output_dir pf'))
  /\ (truthy pf = truthy pf' ->
      map untimed (written (trace (extract_rpa w rpa_file_path output_dir pf)))
      = map untimed
            (written (trace (extract_rpa w' rpa_file_path output_dir pf')))).
Proof.
  pose proof (@ensure_output_same (after_write w pf) (after_write w' pf')
                                  same_checks same_makedirs output_dir) as Ed.
  pose proof (@ensure_calls_same (after_write w pf) (after_write w' pf')
                                 same_checks same_makedirs output_dir) as Ec.
  destruct (rpa_open w rpa_file_path) as [a|e] eqn:Ho;
    pose proof Ho as Ho'; rewrite same_open in Ho'.
  - destruct (ensure_output (after_write w pf) output_dir) as [[]|e] eqn:Hd;
      pose proof (eq_sym Ed) as Hd'.
    + destruct (@extract_rpa_proceeds w rpa_file_path output_dir pf a Ho Hd)
        as (_ & -> & ->).
      destruct (@extract_rpa_proceeds w' rpa_file_path output_dir pf' a Ho' Hd')
        as (_ & -> & ->).
      rewrite Ec.
      rewrite (@loop_calls_same (after_write w pf) (after_write w' pf')
                                same_read same_checks same_makedirs same_write).
      split; [reflexivity|]. intros Ht.
      unfold loop_snapshots. rewrite <- Ht.
      rewrite (@extracted_prefix_same (after_write w pf) (after_write w' pf')
                                      same_read same_checks same_makedirs
                                      same_write).
      rewrite (@first_failure_same (after_write w pf) (after_write w' pf')
                                   same_read same_checks same_makedirs
                                   same_write).
      reflexivity.
    + destruct (@extract_rpa_output_fails w rpa_file_path output_dir pf a e Ho Hd)
        as (_ & -> & ->).
      destruct (@extract_rpa_output_fails w' rpa_file_path output_dir pf' a e
                                          Ho' Hd') as (_ & -> & ->).
      split; [reflexivity|]. intros <-. reflexivity.
  - destruct (@extract_rpa_open_fails w rpa_file_path output_dir pf e Ho)
      as (_ & -> & ->).
    destruct (@extract_rpa_open_fails w' rpa_file_path output_dir pf' e Ho')
      as (_ & -> & ->).
    split; [reflexivity|]. intros <-. reflexivity.
Qed.

End ExtractAgreement.


Section Optional.

Variable w : world.

Lemma extract_silent rpa_file_path output_dir pf :
  truthy pf = false ->
  written (trace (extract_rpa w rpa_file_path output_dir pf)) = [].
Proof.
  intros Hp. apply (map_eq_nil untimed).
  destruct (rpa_open w rpa_file_path) as [a|e] eqn:Ho.
  - destruct (ensure_output (after_write w pf) output_dir) as [[]|e] eqn:Hd.
    + destruct (@extract_rpa_proceeds w rpa_file_path output_dir pf a Ho Hd)
        as (_ & -> & _). rewrite Hp. reflexivity.
    + destruct (@extract_rpa_output_fails w rpa_file_path output_dir pf a e Ho Hd)
        as (_ & -> & _). rewrite Hp. reflexivity.
  - destruct (@extract_rpa_open_fails w rpa_file_path output_dir pf e Ho)
      as (_ & -> & _). rewrite Hp. reflexivity.
Qed.

Lemma decompile_calls_any source_dir pf pf' :
  calls (trace (decompile_directory w source_dir pf))
  = calls (trace (decompile_directory w source_dir pf')).
Proof.
  destruct (decompile_refusal w source_dir) as [msg|] eqn:Hr.
  - destruct (@decompile_refused w source_dir pf msg Hr) as (_ & _ & ->).
    now destruct (@decompile_refused w source_dir pf' msg Hr) as (_ & _ & ->).
  - destruct (@decompile_proceeds w source_dir pf Hr) as (_ & _ & ->).
    now destruct (@decompile_proceeds w source_dir pf' Hr) as (_ & _ & ->).
Qed.

Lemma decompile_silent source_dir pf :
  truthy pf = false ->
  written (trace (decompile_directory w source_dir pf)) = [].
Proof.
  intros Hp. apply (map_eq_nil untimed).
  destruct (decompile_refusal w source_dir) as [msg|] eqn:Hr.
  - destruct (@decompile_refused w source_dir pf msg Hr) as (_ & -> & _).
    rewrite Hp. reflexivity.
  - destruct (@decompile_proceeds w source_dir pf Hr) as (_ & -> & _).
    rewrite Hp. reflexivity.
Qed.

(** The result, the snapshots and the calls of [create_rpa], in each of its
    five kinds of run. *)
Lemma create_rpa_cases source_dir output_rpa_path version key pf :
  let m := create_rpa w source_dir output_rpa_path version key pf in
  let total := count_files w source_dir in
  let steps := create_steps (after_write w pf) source_dir in
  exists r l t,
    returned m = Ok r
    /\ map untimed (written (trace m)) = (if truthy pf then l else [])
    /\ calls (trace m) = t
    /\ ((total = 0
         /\ r = {| success := false;
                   message := "No files found in source directory";
                   files := [] |}
         /\ l = [create_refused] /\ t = [])
        \/ (total <> 0
            /\ exists e, rpa_new w version key = Raise e
               /\ r = {| success := false; message := ("Error: " ++ e)%string;
                         files := [] |}
               /\ l = [create_initial total; create_fault total 0 e]
               /\ t = [EvNew version key (Some e)])
        \/ (total <> 0 /\ rpa_new w version key = Ok tt
            /\ exists e, walk_result w steps = Raise e
               /\ r = {| success := false; message := ("Error: " ++ e)%string;
                         files := [] |}
               /\ l = create_initial total
                        :: walk_snapshots w total 0 steps
                        ++ [create_fault total (List.length (walk_added w steps)) e]
               /\ t = EvNew version key None :: walk_calls w steps)
        \/ (total <> 0 /\ rpa_new w version key = Ok tt
            /\ walk_result w steps = Ok tt
            /\ exists e, rpa_save w output_rpa_path = Raise e
               /\ r = {| success := false; message := ("Error: " ++ e)%string;
                         files := [] |}
               /\ l = create_initial total
                        :: walk_snapshots w total 0 steps
                        ++ [create_fault total (List.length (walk_added w steps)) e]
               /\ t = EvNew version key None
                        :: walk_calls w steps
                        ++ [EvSave output_rpa_path (Some e)])
        \/ (total <> 0 /\ rpa_new w version key = Ok tt
            /\ walk_result w steps = Ok tt
            /\ rpa_save w output_rpa_path = Ok tt
            /\ r = {| success := true;
                      message := ("Successfully created archive with "
                                  ++ fmt_nat (List.length (walk_added w steps))
                                  ++ " files")%string;
                      files := walk_added w steps |}
            /\ l = create_initial total
                     :: walk_snapshots w total 0 steps ++ [create_completed total]
            /\ t = EvNew version key None
                     :: walk_calls w steps ++ [EvSave output_rpa_path None])).
Proof.
  intros m total steps. subst m total steps.
  destruct (Nat.eq_dec (count_files w source_dir) 0) as [H0|H0].
  { destruct (@create_rpa_refused w source_dir output_rpa_path version key pf H0)
      as (Hr & Hw & Hc).
    do 3 eexists. split; [exact Hr|]. split; [exact Hw|]. split; [exact Hc|].
    left. auto. }
  destruct (rpa_new w version key) as [[]|e] eqn:Hn.
  2:{ destruct (@create_rpa_new_fails w source_dir output_rpa_path version key pf
                                      e H0 Hn) as (Hr & Hw & Hc).
      do 3 eexists. split; [exact Hr|]. split; [exact Hw|]. split; [exact Hc|].
      right; left. split; [assumption|]. exists e. auto. }
  destruct (walk_result w (create_steps (after_write w pf) source_dir))
    as [[]|e] eqn:Hk.
  2:{ destruct (@create_rpa_walk_fails w source_dir output_rpa_path version key pf
                                       e H0 Hn Hk) as (Hr & Hw & Hc).
      do 3 eexists. split; [exact Hr|]. split; [exact Hw|]. split; [exact Hc|].
      right; right; left. split; [assumption|]. split; [reflexivity|].
      exists e. auto. }
  destruct (rpa_save w output_rpa_path) as [[]|e] eqn:Hs.
  - destruct (@create_rpa_succeeds w source_dir output_rpa_path version key pf
                                   H0 Hn Hk Hs) as (Hr & Hw & Hc).
    do 3 eexists. split; [exact Hr|]. split; [exact Hw|]. split; [exact Hc|].
    right; right; right; right. auto 10.
  - destruct (@create_rpa_save_fails w source_dir output_rpa_path version key pf
                                     e H0 Hn Hk Hs) as (Hr & Hw & Hc).
    do 3 eexists. split; [exact Hr|]. split; [exact Hw|]. split; [exact Hc|].
    right; right; right; left. split; [assumption|]. split; [reflexivity|].
    split; [reflexivity|]. exists e. auto.
Qed.

Lemma create_steps_same source_dir pf pf' :
  listdir (after_write w pf) source_dir = listdir (after_write w pf') source_dir
      ->
  create_steps (after_write w pf) source_dir
  = create_steps (after_write w pf') source_dir.
Proof. unfold create_steps. intros ->. reflexivity. Qed.

(** The calls of [create_rpa] are those of the walk of the listing. *)
Lemma create_calls_same source_dir output_rpa_path version key pf pf' :
  listdir (after_write w pf) source_dir = listdir (after_write w pf') source_dir
      ->
  calls (trace (create_rpa w source_dir output_rpa_path version key pf))
  = calls (trace (create_rpa w source_dir output_rpa_path version key pf')).
Proof.
  intros Hl. apply create_steps_same in Hl.
  destruct (create_rpa_cases source_dir output_rpa_path version key pf)
    as (r & l & t & _ & _ & Hc & H).
  destruct (create_rpa_cases source_dir output_rpa_path version key pf')
    as (r' & l' & t' & _ & _ & Hc' & H').
  rewrite Hc, Hc'. rewrite Hl in H.
  destruct H as [(H0 & _ & _ & ->)|[(H0 & e & Hn & _ & _ & ->)
           |[(H0 & Hn & e & Hr & _ & _ & ->)
           |[(H0 & Hn & Hr & e & Hs & _ & _ & ->)
            |(H0 & Hn & Hr & Hs & _ & _ & ->)]]]];
  destruct H' as [(H0' & _ & _ & ->)|[(H0' & e' & Hn' & _ & _ & ->)
           |[(H0' & Hn' & e' & Hr' & _ & _ & ->)
           |[(H0' & Hn' & Hr' & e' & Hs' & _ & _ & ->)
            |(H0' & Hn' & Hr' & Hs' & _ & _ & ->)]]]];
  try contradiction; try congruence.
Qed.

Lemma create_summary_same source_dir output_rpa_path version key pf pf' :
  listdir (after_write w pf) source_dir = listdir (after_write w pf') source_dir
      ->
  create_summary w pf source_dir output_rpa_path version key
  = create_summary w pf' source_dir output_rpa_path version key.
Proof.
  intros Hl. apply create_steps_same in Hl.
  unfold create_summary, create_error. rewrite Hl. reflexivity.
Qed.

Lemma create_silent source_dir output_rpa_path version key pf :
  truthy pf = false ->
  written (trace (create_rpa w source_dir output_rpa_path version key pf)) = [].
Proof.
  intros Hp. apply (map_eq_nil untimed).
  destruct (create_rpa_cases source_dir output_rpa_path version key pf)
    as (r & l & t & _ & Hw & _). rewrite Hw, Hp. reflexivity.
Qed.

End Optional.



(** ** The last snapshot and the result *)

Lemma reports_untimed l ok msg :
  reports (map untimed l) ok msg -> reports l ok msg.
Proof.
  intros (before & d & H & Hd).
  apply map_eq_app in H. destruct H as (l1 & l2 & -> & <- & H2).
  destruct l2 as [|d2 [|d3 l2]]; try discriminate.
  injection H2 as <-.
  exists l1, d2. split; [reflexivity|exact Hd].
Qed.

Lemma reports_snoc before d (ok : bool) msg :
  (if ok
   then state_of d = completed /\ processedFiles d = totalFiles d
        /\ errorMessage d = ""%string
   else state_of d = failed /\ errorMessage d = msg) ->
  reports (before ++ [d]) ok msg.
Proof. intros H. exists before, d. split; [reflexivity|exact H]. Qed.

Lemma reports_cons x l ok msg : reports l ok msg -> reports (x :: l) ok msg.
Proof.
  intros (before & d & -> & H). exists (x :: before), d.
  split; [reflexivity|exact H].
Qed.

Lemma reports_app l1 l2 ok msg : reports l2 ok msg -> reports (l1 ++ l2) ok msg.
Proof.
  intros (before & d & -> & H). exists (l1 ++ before), d.
  split; [apply app_assoc|exact H].
Qed.

Lemma reports_one d (ok : bool) msg :
  (if ok
   then state_of d = completed /\ processedFiles d = totalFiles d
        /\ errorMessage d = ""%string
   else state_of d = failed /\ errorMessage d = msg) ->
  reports [d] ok msg.
Proof. apply (reports_snoc []). Qed.

Ltac reports_last :=
  repeat first [ apply reports_one | apply reports_cons | apply reports_app ];
  cbn; repeat split.

Lemma extract_reports w rpa_file_path output_dir progress_file r :
  truthy progress_file = true ->
  returned (extract_rpa w rpa_file_path output_dir progress_file) = Ok r ->
  reports (written (trace (extract_rpa w rpa_file_path output_dir progress_file)))
          (success r) (message r).
Proof.
  intros Hp Hr. apply reports_untimed.
  destruct (rpa_open w rpa_file_path) as [a|e] eqn:Ho.
  - destruct (ensure_output (after_write w progress_file) output_dir) as [[]|e]
      eqn:Hd.
    + destruct (@extract_rpa_proceeds w rpa_file_path output_dir progress_file
                                      a Ho Hd) as (Hv & -> & _).
      rewrite Hv in Hr. injection Hr as <-. rewrite Hp.
      unfold extract_result, loop_snapshots. rewrite Hp.
      destruct (first_failure (after_write w progress_file) rpa_file_path
          output_dir (a_list a)) as [fe|];
        cbn [success message]; rewrite ?app_nil_r; reports_last.
    + destruct (@extract_rpa_output_fails w rpa_file_path output_dir
                                          progress_file a e Ho Hd) as (Hv & -> & _).
      rewrite Hv in Hr. injection Hr as <-. rewrite Hp. reports_last.
  - destruct (@extract_rpa_open_fails w rpa_file_path output_dir progress_file
                                      e Ho) as (Hv & -> & _).
    rewrite Hv in Hr. injection Hr as <-. rewrite Hp. reports_last.
Qed.

Lemma decompile_reports w source_dir progress_file r :
  truthy progress_file = true ->
  returned (decompile_directory w source_dir progress_file) = Ok r ->
  reports (written (trace (decompile_directory w source_dir progress_file)))
          (d_success r) (d_message r).
Proof.
  intros Hp Hr. apply reports_untimed.
  destruct (decompile_refusal w source_dir) as [msg|] eqn:Hf.
  - destruct (@decompile_refused w source_dir progress_file msg Hf)
      as (Hv & -> & _).
    rewrite Hv in Hr. injection Hr as <-. rewrite Hp. reports_last.
  - destruct (@decompile_proceeds w source_dir progress_file Hf)
      as (Hv & -> & _).
    rewrite Hv in Hr. injection Hr as <-. rewrite Hp.
    cbn [d_success d_message]. reports_last.
Qed.

Lemma create_reports w source_dir output_rpa_path version key progress_file r :
  truthy progress_file = true ->
  returned (create_rpa w source_dir output_rpa_path version key progress_file)
  = Ok r ->
  reports (written (trace (create_rpa w source_dir output_rpa_path version key
                                      progress_file)))
          (success r) (message r).
Proof.
  intros Hp Hr. apply reports_untimed.
  destruct (create_rpa_cases w source_dir output_rpa_path version key
                             progress_file) as (r' & l & t & Hv & -> & _ & H).
  rewrite Hv in Hr. injection Hr as <-. rewrite Hp.
  destruct H as [(_ & -> & -> & _)|[(_ & e & _ & -> & -> & _)
           |[(_ & _ & e & _ & -> & -> & _)
           |[(_ & _ & _ & e & _ & -> & -> & _)|(_ & _ & _ & _ & -> & -> & _)]]]];
    cbn [success message]; reports_last.
Qed.

(** X2: with a progress file, the last snapshot of a run agrees with the
    dictionary that the run returns.  When [success] is true it is a
    [completed] snapshot with every file processed and no error message; when
    [success] is false it is a [failed] snapshot whose [errorMessage] is the
    [message] of the result. *)
Theorem last_snapshot_reports_result w progress_file :
  truthy progress_file = true ->
  (forall rpa_file_path output_dir r,
     returned (extract_rpa w rpa_file_path output_dir progress_file) = Ok r ->
     reports (written (trace (extract_rpa w rpa_file_path output_dir
                                          progress_file)))
             (success r) (message r))
  /\ (forall source_dir output_rpa_path version key r,
        returned (create_rpa w source_dir output_rpa_path version key
                             progress_file) = Ok r ->
        reports (written (trace (create_rpa w source_dir output_rpa_path version
                                            key progress_file)))
                (success r) (message r))
  /\ (forall source_dir r,
        returned (decompile_directory w source_dir progress_file) = Ok r ->
        reports (written (trace (decompile_directory w source_dir
                                                     progress_file)))
                (d_success r) (d_message r)).
Proof.
  intros Hp. split; [|split]; intros.
  - now apply extract_reports.
  - now apply create_reports.
  - now apply decompile_reports.
Qed.

Lemma last_snapshot_reports_result_witness :
  truthy (Some "progress.json"%string) = true
  /\ reports (written (trace (create_rpa one_unreadable "game" "out.rpa" 3
                                         0xDEADBEEF (Some "progress.json"))))
             false "Error: Error adding game/b.txt: Permission denied".
Proof.
  assert (Hp : truthy (Some "progress.json"%string) = true) by reflexivity.
  split; [exact Hp|].
  destruct (@last_snapshot_reports_result one_unreadable
              (Some "progress.json"%string) Hp) as (_ & Hc & _).
  apply (Hc "game"%string "out.rpa"%string 3%Z 0xDEADBEEF%Z
            {| success := false;
               message := "Error: Error adding game/b.txt: Permission denied";
               files := [] |}).
  vm_compute. reflexivity.
Defined.

(** ** The fields of the snapshots *)

Lemma sound_untimed o total l :
  Forall (sound_snapshot o total) (map untimed l) ->
  Forall (sound_snapshot o total) l.
Proof. rewrite Forall_map. intros H. exact H. Qed.

Lemma sound_running o total d :
  op d = o -> state_of d <> failed -> errorMessage d = ""%string ->
  totalFiles d = total ->
  sound_snapshot o total d.
Proof.
  intros H1 H2 H3 H4. split; [exact H1|]. split; [|intros _; exact H4].
  rewrite H3. split; [intros H; contradiction|intros H; now elim H].
Qed.

Lemma sound_failed o total d :
  op d = o -> state_of d = failed -> errorMessage d <> ""%string ->
  sound_snapshot o total d.
Proof.
  intros H1 H2 H3. split; [exact H1|]. split; [tauto|].
  intros H. contradiction.
Qed.

(** Decide a snapshot given by its fields. *)
Ltac sound :=
  first [ apply sound_running; cbn; [reflexivity|discriminate|reflexivity|reflexivity]
        | apply sound_failed; cbn; [reflexivity|reflexivity|discriminate] ].

Ltac sound_list :=
  repeat first [ apply Forall_nil
               | apply Forall_cons; [sound|]
               | apply Forall_app; split ].

Lemma extract_sound w rpa_file_path output_dir progress_file :
  Forall (sound_snapshot extract
            (match rpa_open w rpa_file_path with
             | Ok a => List.length (a_list a)
             | Raise _ => 0
             end))
         (written (trace (extract_rpa w rpa_file_path output_dir progress_file))).
Proof.
  apply sound_untimed.
  destruct (rpa_open w rpa_file_path) as [a|e] eqn:Ho.
  - destruct (ensure_output (after_write w progress_file) output_dir) as [[]|e]
      eqn:Hd.
    + destruct (@extract_rpa_proceeds w rpa_file_path output_dir progress_file
                                      a Ho Hd) as (_ & -> & _).
      unfold loop_snapshots.
      destruct (truthy progress_file); [|constructor].
      destruct (first_failure (after_write w progress_file) rpa_file_path
          output_dir (a_list a)) as [fe|];
        sound_list; try (apply periodic_forall; intros; sound).
    + destruct (@extract_rpa_output_fails w rpa_file_path output_dir
                                          progress_file a e Ho Hd) as (_ & -> & _).
      destruct (truthy progress_file); sound_list.
  - destruct (@extract_rpa_open_fails w rpa_file_path output_dir progress_file
                                      e Ho) as (_ & -> & _).
    destruct (truthy progress_file); sound_list.
Qed.

Lemma decompile_refusal_message w source_dir msg :
  decompile_refusal w source_dir = Some msg -> msg <> ""%string.
Proof.
  unfold decompile_refusal.
  destruct source_dir as [d|]; [|intros [= <-]; discriminate].
  destruct (String.eqb d ""); [intros [= <-]; discriminate|].
  destruct (negb (path_exists w d)); [intros [= <-]; discriminate|].
  destruct (List.length (find_rpyc w d) =? 0)%nat; [|discriminate].
  intros [= <-]; discriminate.
Qed.

Lemma decompile_sound w source_dir progress_file :
  Forall (sound_snapshot decompile (List.length (scanned w source_dir)))
         (written (trace (decompile_directory w source_dir progress_file))).
Proof.
  apply sound_untimed.
  destruct (decompile_refusal w source_dir) as [msg|] eqn:Hf.
  - destruct (@decompile_refused w source_dir progress_file msg Hf)
      as (_ & -> & _).
    destruct (truthy progress_file); [|constructor].
    constructor; [|constructor].
    apply sound_failed; [reflexivity|reflexivity|].
    exact (decompile_refusal_message _ _ Hf).
  - destruct (@decompile_proceeds w source_dir progress_file Hf)
      as (_ & -> & _).
    destruct (truthy progress_file); sound_list.
    apply periodic_forall; intros; sound.
Qed.

Lemma walk_snapshots_sound w total fi steps :
  Forall (sound_snapshot create total) (walk_snapshots w total fi steps).
Proof.
  unfold walk_snapshots. apply Forall_app. split.
  - apply create_ticks_forall. intros. sound.
  - destruct (bad_step w steps) as [[ip ap rd|dp err]|]; [| |]; cbn;
      try constructor.
    destruct (file_cause w ap rd); constructor; [|constructor].
    apply sound_failed; cbn; [reflexivity|reflexivity|discriminate].
Qed.

Lemma create_sound w source_dir output_rpa_path version key progress_file :
  Forall (sound_snapshot create (dir_files (listdir w source_dir)))
         (written (trace (create_rpa w source_dir output_rpa_path version key
                                     progress_file))).
Proof.
  apply sound_untimed. rewrite <- count_files_tree.
  destruct (create_rpa_cases w source_dir output_rpa_path version key
                             progress_file) as (r & l & t & _ & -> & _ & H).
  destruct (truthy progress_file); [|constructor].
  destruct H as [(_ & _ & -> & _)|[(_ & e & _ & _ & -> & _)
           |[(_ & _ & e & _ & _ & -> & _)
           |[(_ & _ & _ & e & _ & _ & -> & _)|(_ & _ & _ & _ & _ & -> & _)]]]];
    repeat first [ apply Forall_nil
                 | apply walk_snapshots_sound
                 | apply Forall_cons; [sound|]
                 | apply Forall_app; split ].
Qed.

(** X3: every snapshot that a run writes names its operation, carries an
    error message exactly when its status is [failed], and, unless it is
    [failed], shows as [totalFiles] the number of items of the run: the
    entries of the archive, the files under the source directory, the
    compiled scripts of the scan. *)
Theorem snapshots_are_sound w :
  (forall rpa_file_path output_dir progress_file,
     Forall (sound_snapshot extract
               (match rpa_open w rpa_file_path with
                | Ok a => List.length (a_list a)
                | Raise _ => 0
                end))
            (written (trace (extract_rpa w rpa_file_path output_dir
                                         progress_file))))
  /\ (forall source_dir output_rpa_path version key progress_file,
        Forall (sound_snapshot create (dir_files (listdir w source_dir)))
               (written (trace (create_rpa w source_dir output_rpa_path version
                                           key progress_file))))
  /\ (forall source_dir progress_file,
        Forall (sound_snapshot decompile (List.length (scanned w source_dir)))
               (written (trace (decompile_directory w source_dir
                                                    progress_file)))).
Proof.
  split; [|split]; intros.
  - apply extract_sound.
  - apply create_sound.
  - apply decompile_sound.
Qed.

(** ** Success, and the call that fails *)

Lemma faults_cons ev t :
  faults (ev :: t)
  = match fault_of ev with Some e => [e] | None => [] end ++ faults t.
Proof. reflexivity. Qed.

Lemma faults_nil_cons ev t :
  faults (ev :: t) = [] -> fault_of ev = None /\ faults t = [].
Proof.
  rewrite faults_cons. destruct (fault_of ev); [discriminate|].
  intros H. split; [reflexivity|exact H].
Qed.

Lemma stops_app t1 t2 :
  faults t1 = [] -> stops_at_fault t2 -> stops_at_fault (t1 ++ t2).
Proof.
  induction t1 as [|ev t1 IH]; intros F H; [exact H|].
  apply faults_nil_cons in F. destruct F as (F1 & F2).
  cbn [app stops_at_fault]. split; [left; exact F1|apply IH; assumption].
Qed.

Lemma stops_clean t : faults t = [] -> stops_at_fault t.
Proof.
  intros F. rewrite <- (app_nil_r t). apply stops_app; [exact F|exact I].
Qed.

Lemma stops_one ev : stops_at_fault [ev].
Proof. cbn. auto. Qed.

Lemma entry_calls_stop w rpa_file_path output_dir filename :
  stops_at_fault (entry_calls w rpa_file_path output_dir filename).
Proof.
  unfold entry_calls, trace, run, extract_entry.
  cbv zeta.
  destruct (rpa_read w rpa_file_path filename) as [contents|e] eqn:Hr;
    [ destruct (negb (dirname (path_join output_dir filename) =? "")
                && negb (path_exists w (dirname (path_join output_dir filename))))%bool;
      [ destruct (makedirs w (dirname (path_join output_dir filename)))
          as [[]|e1] eqn:Hm |];
      destruct (write_file w (path_join output_dir filename) contents)
        as [[]|e2] eqn:Hw
    | ];
    run_closed; cbn; auto 6.
Qed.

Lemma loop_calls_stop w rpa_file_path output_dir todo :
  stops_at_fault (loop_calls w rpa_file_path output_dir todo).
Proof.
  unfold loop_calls. apply stops_app.
  - apply ok_entries_calls, extracted_prefix_ok.
  - destruct (first_failure w rpa_file_path output_dir todo) as [fe|];
      [apply entry_calls_stop|exact I].
Qed.

Lemma step_calls_stop w st : stops_at_fault (step_calls w st).
Proof.
  destruct st as [ip ap [c|e]|dp err]; cbn; auto 6.
Qed.

Lemma walk_calls_stop w steps : stops_at_fault (walk_calls w steps).
Proof.
  unfold walk_calls. apply stops_app.
  - apply ok_steps_calls, done_steps_ok.
  - destruct (bad_step w steps) as [st|]; [apply step_calls_stop|exact I].
Qed.

Section FaultLists.

Variable w : world.

(** The faults of a run of [extract_rpa]. *)
Lemma extract_fault_list rpa_file_path output_dir progress_file :
  faults (trace (extract_rpa w rpa_file_path output_dir progress_file))
  = match rpa_open w rpa_file_path with
    | Raise e => [e]
    | Ok a =>
        match ensure_output (after_write w progress_file) output_dir with
        | Raise e => [e]
        | Ok _ =>
            match first_failure (after_write w progress_file) rpa_file_path
                output_dir (a_list a) with
            | Some fe => [snd fe]
            | None => []
            end
        end
    end.
Proof.
  rewrite <- faults_calls.
  destruct (rpa_open w rpa_file_path) as [a|e] eqn:Ho.
  - destruct (ensure_output (after_write w progress_file) output_dir) as [[]|e]
      eqn:Hd.
    + destruct (@extract_rpa_proceeds w rpa_file_path output_dir progress_file a
                                      Ho Hd) as (_ & _ & ->).
      destruct (@ensure_calls_ok (after_write w progress_file) output_dir Hd) as
          (_ & _ & _ & F).
      destruct (loop_calls_facts (after_write w progress_file) rpa_file_path
          output_dir (a_list a))
        as (_ & _ & _ & F').
      rewrite faults_cons, faults_app, F, F'. reflexivity.
    + destruct (@extract_rpa_output_fails w rpa_file_path output_dir
                                          progress_file a e Ho Hd) as (_ & _ & ->).
      reflexivity.
  - destruct (@extract_rpa_open_fails w rpa_file_path output_dir progress_file e
                                      Ho) as (_ & _ & ->).
    reflexivity.
Qed.

Lemma extract_stops rpa_file_path output_dir progress_file :
  stops_at_fault
    (calls (trace (extract_rpa w rpa_file_path output_dir progress_file))).
Proof.
  destruct (rpa_open w rpa_file_path) as [a|e] eqn:Ho.
  - destruct (ensure_output (after_write w progress_file) output_dir) as [[]|e]
      eqn:Hd.
    + destruct (@extract_rpa_proceeds w rpa_file_path output_dir progress_file a
                                      Ho Hd) as (_ & _ & ->).
      destruct (@ensure_calls_ok (after_write w progress_file) output_dir Hd) as
          (_ & _ & _ & F).
      apply (stops_app [_]); [reflexivity|].
      apply stops_app; [exact F|apply loop_calls_stop].
    + destruct (@extract_rpa_output_fails w rpa_file_path output_dir
                                          progress_file a e Ho Hd) as (_ & _ & ->).
      cbn. auto.
  - destruct (@extract_rpa_open_fails w rpa_file_path output_dir progress_file e
                                      Ho) as (_ & _ & ->).
    cbn. auto.
Qed.

Lemma extract_success_iff rpa_file_path output_dir progress_file :
  success (extract_summary (after_write w progress_file) rpa_file_path
                           output_dir) = true
  <-> faults (trace (extract_rpa w rpa_file_path output_dir progress_file)) = [].
Proof.
  rewrite extract_fault_list. unfold extract_summary, extract_result. settle.
  destruct (rpa_open w rpa_file_path) as [a|e];
    [destruct (ensure_output (after_write w progress_file) output_dir) as
        [[]|e];
     [destruct (first_failure (after_write w progress_file) rpa_file_path
         output_dir (a_list a))|]|];
    cbn [success]; split; (discriminate || reflexivity).
Qed.

Lemma create_stops_and_succeeds source_dir output_rpa_path version key
    progress_file :
  let m := create_rpa w source_dir output_rpa_path version key progress_file in
  stops_at_fault (calls (trace m))
  /\ (success (create_summary w progress_file source_dir output_rpa_path version key) = true
      <-> faults (trace m) = [] /\ count_files w source_dir <> 0).
Proof.
  cbv zeta. rewrite <- faults_calls.
  destruct (create_rpa_cases w source_dir output_rpa_path version key
                             progress_file) as (r & l & t & Hv & _ & -> & H).
  rewrite create_rpa_returns in Hv. injection Hv as Hv. rewrite Hv. clear Hv.
  destruct H as [(H0 & -> & _ & ->)|[(H0 & e & Hn & -> & _ & ->)
           |[(H0 & Hn & e & Hr & -> & _ & ->)
           |[(H0 & Hn & Hr & e & Hs & -> & _ & ->)
            |(H0 & Hn & Hr & Hs & -> & _ & ->)]]]];
    cbn [success].
  - split; [exact I|]. split; [discriminate|]. intros (_ & H). contradiction.
  - split; [apply stops_one|]. split; [discriminate|].
    intros (H & _). discriminate.
  - destruct (@walk_calls_bad w (create_steps (after_write w progress_file)
      source_dir) e Hr)
      as (d & Hd & _).
    split.
    + apply (stops_app [_]); [reflexivity|apply walk_calls_stop].
    + split; [discriminate|]. intros (H & _).
      rewrite faults_cons, Hd in H. discriminate.
  - destruct (@walk_calls_ok w (create_steps (after_write w progress_file)
      source_dir) Hr) as (F & _).
    split.
    + apply (stops_app [_]); [reflexivity|].
      apply stops_app; [exact F|apply stops_one].
    + split; [discriminate|]. intros (H & _).
      rewrite faults_cons, faults_app, F in H. discriminate.
  - destruct (@walk_calls_ok w (create_steps (after_write w progress_file)
      source_dir) Hr) as (F & _).
    split.
    + apply (stops_app [_]); [reflexivity|].
      apply stops_app; [exact F|apply stops_one].
    + split; [|reflexivity]. intros _. split; [|exact H0].
      rewrite faults_cons, faults_app, F. reflexivity.
Qed.

End FaultLists.

(** X4: a run of [extract_rpa] or of [list_rpa_files] reports success
    exactly when none of its calls to the archive and to the file system has
    failed; a run of [create_rpa], exactly when none has failed and there was
    a file to add. *)
Theorem success_iff_no_fault w :
  (forall rpa_file_path output_dir progress_file,
     exists r,
       returned (extract_rpa w rpa_file_path output_dir progress_file) = Ok r
       /\ (success r = true
           <-> faults (trace (extract_rpa w rpa_file_path output_dir
                                          progress_file)) = []))
  /\ (forall source_dir output_rpa_path version key progress_file,
        exists r,
          returned (create_rpa w source_dir output_rpa_path version key
                               progress_file) = Ok r
          /\ (success r = true
              <-> faults (trace (create_rpa w source_dir output_rpa_path
                                            version key progress_file)) = []
                  /\ dir_files (listdir w source_dir) <> 0))
  /\ (forall rpa_file_path,
        exists r,
          returned (list_rpa_files w rpa_file_path) = Ok r
          /\ (l_success r = true
              <-> faults (trace (list_rpa_files w rpa_file_path)) = [])).
Proof.
  split; [|split]; intros.
  - eexists. split; [apply extract_rpa_returns|apply extract_success_iff].
  - eexists. split; [apply create_rpa_returns|].
    rewrite <- count_files_tree.
    apply (create_stops_and_succeeds w source_dir output_rpa_path version key
                                     progress_file).
  - destruct (list_rpa_files_run w rpa_file_path) as (-> & ->).
    eexists. split; [reflexivity|].
    unfold list_summary.
    destruct (rpa_open w rpa_file_path); cbn; split;
      (discriminate || reflexivity).
Qed.

(** X5: a run stops at the first call that fails: in the calls of
    [extract_rpa] and of [create_rpa] to the archive and to the file system,
    a call that raises is the last one.  Nothing is cleaned up, and nothing
    more is read or written, after a failure. *)
Theorem no_call_after_a_failure w :
  (forall rpa_file_path output_dir progress_file,
     stops_at_fault
       (calls (trace (extract_rpa w rpa_file_path output_dir progress_file))))
  /\ (forall source_dir output_rpa_path version key progress_file,
        stops_at_fault
          (calls (trace (create_rpa w source_dir output_rpa_path version key
                                    progress_file)))).
Proof.
  split; intros.
  - apply extract_stops.
  - apply (create_stops_and_succeeds w source_dir output_rpa_path version key
                                     progress_file).
Qed.

(** ** The sorted listing of [list_rpa_files] *)

Lemma ascii_compare_lt_trans a b c :
  Ascii.compare a b = Lt -> Ascii.compare b c = Lt -> Ascii.compare a c = Lt.
Proof.
  unfold Ascii.compare. rewrite !N.compare_lt_iff. apply N.lt_trans.
Qed.

Lemma string_le_trans a : forall b c,
  string_le a b -> string_le b c -> string_le a c.
Proof.
  unfold string_le, String.leb.
  induction a as [|x a IH]; intros [|y b] [|z c]; cbn; try congruence.
  destruct (Ascii.compare x y) eqn:Hxy; try discriminate;
    destruct (Ascii.compare y z) eqn:Hyz; try discriminate;
    intros H1 H2.
  - apply Ascii.compare_eq_iff in Hxy, Hyz. subst.
    assert (E : Ascii.compare z z = Eq)
      by (unfold Ascii.compare; apply N.compare_refl).
    rewrite E. exact (IH b c H1 H2).
  - apply Ascii.compare_eq_iff in Hxy. subst. rewrite Hyz. reflexivity.
  - apply Ascii.compare_eq_iff in Hyz. subst. rewrite Hxy. reflexivity.
  - rewrite (ascii_compare_lt_trans _ _ _ Hxy Hyz). reflexivity.
Qed.

Lemma insert_sorted_perm x l : Permutation (x :: l) (insert_sorted x l).
Proof.
  induction l as [|y l IH]; cbn; [apply Permutation_refl|].
  destruct (String.leb x y); [apply Permutation_refl|].
  eapply perm_trans; [apply perm_swap|]. apply perm_skip, IH.
Qed.

Lemma sort_strings_perm l : Permutation l (sort_strings l).
Proof.
  induction l as [|x l IH]; cbn; [constructor|].
  eapply perm_trans; [apply perm_skip, IH|apply insert_sorted_perm].
Qed.

Lemma insert_sorted_forall (P : string -> Prop) x l :
  P x -> Forall P l -> Forall P (insert_sorted x l).
Proof.
  intros Hx Hl.
  eapply Permutation_Forall; [apply insert_sorted_perm|].
  constructor; assumption.
Qed.

Lemma insert_sorted_sorted x l :
  StronglySorted string_le l -> StronglySorted string_le (insert_sorted x l).
Proof.
  induction 1 as [|y l Hs IH Hy]; cbn; [repeat constructor|].
  destruct (String.leb x y) eqn:Hxy.
  - constructor; [constructor; assumption|].
    constructor; [exact Hxy|].
    eapply Forall_impl; [|exact Hy].
    intros z Hz. exact (@string_le_trans x y z Hxy Hz).
  - constructor; [exact IH|].
    apply insert_sorted_forall; [|exact Hy].
    destruct (String.leb_total x y) as [H|H]; [congruence|exact H].
Qed.

Lemma sort_strings_sorted l : StronglySorted string_le (sort_strings l).
Proof.
  induction l as [|x l IH]; cbn; [constructor|].
  apply insert_sorted_sorted, IH.
Qed.

Lemma sort_strings_length l : List.length (sort_strings l) = List.length l.
Proof. symmetry. apply Permutation_length, sort_strings_perm. Qed.

(** X6: when the archive opens, [list_rpa_files] opens it and does nothing
    else; it returns the entries of the archive, each as often as the archive
    lists it, in ascending order, with their number in the message and the
    version of the archive. *)
Theorem list_rpa_files_sorts_the_listing w rpa_file_path a :
  rpa_open w rpa_file_path = Ok a ->
  exists r,
    returned (list_rpa_files w rpa_file_path) = Ok r
    /\ l_success r = true
    /\ StronglySorted string_le (l_files r)
    /\ Permutation (a_list a) (l_files r)
    /\ l_message r
       = ("Found " ++ fmt_nat (List.length (a_list a)) ++ " files")%string
    /\ l_version r = a_version a
    /\ trace (list_rpa_files w rpa_file_path) = [EvOpen rpa_file_path None].
Proof.
  intros Ho.
  destruct (list_rpa_files_run w rpa_file_path) as (-> & ->).
  unfold list_summary. rewrite Ho. eexists. split; [reflexivity|].
  cbn [l_success l_files l_message l_version err_of].
  rewrite sort_strings_length.
  split; [reflexivity|]. split; [apply sort_strings_sorted|].
  split; [apply sort_strings_perm|]. repeat split.
Qed.

Lemma list_rpa_files_sorts_the_listing_witness :
  exists r,
    returned (list_rpa_files three_entries "game.rpa") = Ok r
    /\ l_files r = ["a"; "b"; "c"]%string.
Proof.
  destruct (@list_rpa_files_sorts_the_listing three_entries "game.rpa"%string
              {| a_list := ["a"; "b"; "c"]%string; a_version := "3" |}
              eq_refl) as (r & Hr & _).
  exists r. split; [exact Hr|].
  vm_compute in Hr. injection Hr as <-. reflexivity.
Defined.

(** ** The time stamps of the snapshots *)

Section Ticking.

Variable w : world.
Variable t0 : Z.

Lemma stamped_app k l1 l2 :
  stamped w t0 k l1 -> stamped w t0 (k + List.length l1) l2 ->
  stamped w t0 k (l1 ++ l2).
Proof.
  intros (A1 & B1) (A2 & B2). unfold stamped.
  rewrite !map_app, length_app, repeat_app, seq_app, map_app, A1, A2, B1, B2.
  split; reflexivity.
Qed.

Lemma ticking_intro {A} (m : M A) :
  (forall s r t s',
     m s = (r, t, s') ->
     ticks s' = ticks s + List.length (written t)
     /\ stamped w t0 (ticks s) (written t)) ->
  ticking w t0 m.
Proof.
  intros H s. unfold fr_of, tr_of.
  destruct (m s) as [[r t] s'] eqn:E. exact (H s r t s' E).
Qed.

Lemma ticking_elim {A} (m : M A) s r t s' :
  ticking w t0 m -> m s = (r, t, s') ->
  ticks s' = ticks s + List.length (written t)
  /\ stamped w t0 (ticks s) (written t).
Proof.
  intros H E. specialize (H s). unfold fr_of, tr_of in H.
  rewrite E in H. exact H.
Qed.

(** A computation that neither reads the clock nor writes a snapshot. *)
Lemma ticking_quiet {A} (m : M A) :
  (forall s, ticks (fr_of m s) = ticks s /\ written (tr_of m s) = []) ->
  ticking w t0 m.
Proof.
  intros H s. destruct (H s) as (-> & ->). split; [cbn; lia|].
  split; reflexivity.
Qed.

Lemma ticking_bind {A B} (m : M A) (f : A -> M B) :
  ticking w t0 m -> (forall a, ticking w t0 (f a)) -> ticking w t0 (bind m f).
Proof.
  intros Hm Hf. apply ticking_intro. intros s r t s'. unfold bind.
  destruct (m s) as [[[a|e] t1] s1] eqn:E1.
  - destruct (f a s1) as [[r2 t2] s2] eqn:E2. intros [= <- <- <-].
    destruct (@ticking_elim _ _ _ _ _ _ Hm E1) as (T1 & S1).
    destruct (@ticking_elim _ _ _ _ _ _ (Hf a) E2) as (T2 & S2).
    rewrite written_app, length_app. split; [lia|].
    apply stamped_app; [exact S1|]. rewrite <- T1. exact S2.
  - intros [= <- <- <-]. exact (@ticking_elim _ _ _ _ _ _ Hm E1).
Qed.

Lemma ticking_try {A} (m : M A) (h : exn -> M A) :
  ticking w t0 m -> (forall e, ticking w t0 (h e)) ->
  ticking w t0 (try_except m h).
Proof.
  intros Hm Hh. apply ticking_intro. intros s r t s'. unfold try_except.
  destruct (m s) as [[[a|e] t1] s1] eqn:E1.
  - intros [= <- <- <-]. exact (@ticking_elim _ _ _ _ _ _ Hm E1).
  - destruct (h e s1) as [[r2 t2] s2] eqn:E2. intros [= <- <- <-].
    destruct (@ticking_elim _ _ _ _ _ _ Hm E1) as (T1 & S1).
    destruct (@ticking_elim _ _ _ _ _ _ (Hh e) E2) as (T2 & S2).
    rewrite written_app, length_app. split; [lia|].
    apply stamped_app; [exact S1|]. rewrite <- T1. exact S2.
Qed.

Lemma ticking_when c (m : M unit) :
  ticking w t0 m -> ticking w t0 (when c m).
Proof.
  intros H. destruct c; [exact H|].
  apply ticking_quiet. intros s. split; reflexivity.
Qed.

(** The guarded snapshot of the drivers. *)
Lemma ticking_report c progress_file (mk : Z -> snapshot) :
  (c = true -> truthy progress_file = true) ->
  (forall now, startTime (mk now) = t0 /\ lastUpdateTime (mk now) = now) ->
  ticking w t0 (when c (now <- time_ms w ;;
                        _write_progress w progress_file (mk now))).
Proof.
  intros Hc Hmk.
  destruct c; [|apply ticking_quiet; intros s; split; reflexivity].
  specialize (Hc eq_refl). cbn [when]. apply ticking_intro.
  intros s r t s'. unfold bind, time_ms.
  match goal with
  | |- context [_write_progress w progress_file ?d ?s1] =>
      destruct (_write_progress_run w progress_file d s1) as (t' & E & Hw & _)
  end.
  rewrite E. intros [= <- <- <-]. cbn [app ticks].
  rewrite Hw, Hc. cbn [List.length]. split; [lia|].
  destruct (Hmk (clock w (ticks s))) as (H1 & H2).
  split; cbn; [rewrite H1|rewrite H2]; reflexivity.
Qed.

Lemma ticking_for_each {A} (f : A -> M unit) l :
  Forall (fun x => ticking w t0 (f x)) l -> ticking w t0 (for_each f l).
Proof.
  induction 1 as [|x l Hx _ IH]; cbn [for_each].
  - apply ticking_quiet. intros s. split; reflexivity.
  - apply ticking_bind; [exact Hx|intros _; exact IH].
Qed.

End Ticking.

(** The snapshots of a driver, which reads the clock once before anything
    else. *)
Lemma ticking_start w {A} (f : Z -> M A) :
  (forall t0, ticking w t0 (f t0)) ->
  stamped w (clock w 0) 1 (written (trace (bind (time_ms w) f))).
Proof.
  intros H. unfold trace, run, bind, time_ms. cbn [ticks frame0].
  match goal with
  | |- context [f ?t ?s1] =>
      destruct (f t s1) as [[r t'] s'] eqn:E;
      destruct (@ticking_elim _ _ _ _ _ _ _ _ (H t) E) as (_ & S)
  end.
  exact S.
Qed.

(** The guard of a snapshot holds only with a progress file. *)
Ltac tick_guard :=
  match goal with
  | |- _ = true -> truthy ?pf = true =>
      destruct (truthy pf); cbn; intros; (reflexivity || discriminate)
  end.

Ltac tick_known := fail.

Ltac tick :=
  cbv beta zeta;
  lazymatch goal with
  | |- ticking _ _ (bind _ _) => apply ticking_bind; [tick|intros ?; tick]
  | |- ticking _ _ (try_except _ _) => apply ticking_try; [tick|intros ?; tick]
  | |- ticking _ _ (when _ (bind (time_ms _) _)) =>
      apply ticking_report; [tick_guard|intros; split; reflexivity]
  | |- ticking _ _ (when _ _) => apply ticking_when; tick
  | |- ticking _ _ (if ?c then _ else _) => destruct c; tick
  | |- ticking _ _ (match ?x with _ => _ end) => destruct x; tick
  | |- ticking _ _ _ =>
      first [ tick_known
            | apply ticking_quiet; intros; split; reflexivity ]
  end.

Section TickingDrivers.

Variable w : world.
Variables (progress_file : option string) (t0 : Z) (total : nat).

Lemma extract_loop_ticking rpa_file_path output_dir todo : forall idx extracted,
  ticking w t0 (extract_loop w rpa_file_path output_dir progress_file t0 total
                             idx todo extracted).
Proof.
  induction todo as [|f rest IH]; intros idx extracted; cbn [extract_loop].
  - tick.
  - apply ticking_bind.
    + unfold extract_item. tick.
    + intros [res|ex]; [tick|apply IH].
Qed.

Lemma decompile_loop_ticking todo : forall idx st,
  ticking w t0 (decompile_loop w progress_file t0 total idx todo st).
Proof.
  induction todo as [|f rest IH]; intros idx st; cbn [decompile_loop].
  - tick.
  - apply ticking_bind.
    + unfold decompile_item. tick.
    + intros st'. apply IH.
Qed.

Lemma decompile_failure_ticking n error_msg :
  ticking w t0 (decompile_failure w progress_file t0 n error_msg).
Proof. unfold decompile_failure. tick. Qed.

Lemma add_item_ticking item : forall dir_path archive_prefix,
  ticking w t0 (add_item w progress_file t0 total dir_path archive_prefix item).
Proof.
  induction item as [name rd|name link e|name link items IH] using fsnode_induction;
    intros dir_path archive_prefix; cbn [add_item node_name].
  - unfold add_file. tick.
  - tick.
  - apply ticking_bind; [tick|intros _].
    apply ticking_for_each.
    eapply Forall_impl; [|exact IH].
    intros item H. apply H.
Qed.

Lemma add_directory_ticking dir_path archive_prefix :
  ticking w t0 (add_directory w progress_file t0 total dir_path archive_prefix).
Proof.
  unfold add_directory. apply ticking_bind; [tick|intros items].
  apply ticking_for_each, Forall_forall. intros item _. apply add_item_ticking.
Qed.

End TickingDrivers.

Ltac tick_known ::=
  first [ apply extract_loop_ticking
        | apply decompile_loop_ticking
        | apply decompile_failure_ticking
        | apply add_directory_ticking ].

Lemma extract_rpa_stamped w rpa_file_path output_dir progress_file :
  stamped w (clock w 0) 1
          (written (trace (extract_rpa w rpa_file_path output_dir progress_file))).
Proof. unfold extract_rpa. apply ticking_start. intros t0. tick. Qed.

Lemma create_rpa_stamped w source_dir output_rpa_path version key progress_file :
  stamped w (clock w 0) 1
          (written (trace (create_rpa w source_dir output_rpa_path version key
                                      progress_file))).
Proof. unfold create_rpa. apply ticking_start. intros t0. tick. Qed.

Lemma decompile_directory_stamped w source_dir progress_file :
  stamped w (clock w 0) 1
          (written (trace (decompile_directory w source_dir progress_file))).
Proof. unfold decompile_directory. apply ticking_start. intros t0. tick. Qed.

(** X7: the snapshots of a run are stamped with the readings of the clock:
    the run reads the clock once when it starts, and once more for each
    snapshot that it writes.  Every snapshot carries the first reading as
    [startTime], and the [n]-th snapshot carries the reading after it,
    number [n], as [lastUpdateTime]. *)
Theorem snapshots_carry_the_clock_readings w :
  (forall rpa_file_path output_dir progress_file,
     stamped w (clock w 0) 1
       (written (trace (extract_rpa w rpa_file_path output_dir progress_file))))
  /\ (forall source_dir output_rpa_path version key progress_file,
        stamped w (clock w 0) 1
          (written (trace (create_rpa w source_dir output_rpa_path version key
                                      progress_file))))
  /\ (forall source_dir progress_file,
        stamped w (clock w 0) 1
          (written (trace (decompile_directory w source_dir progress_file)))).
Proof.
  split; [|split]; intros.
  - apply extract_rpa_stamped.
  - apply create_rpa_stamped.
  - apply decompile_directory_stamped.
Qed.

Lemma clock_readings_sorted w k n :
  monotone_clock w ->
  k <> 0 ->
  Forall (fun t => (clock w 0 <= t)%Z) (map (clock w) (seq k n))
  /\ StronglySorted Z.le (map (clock w) (seq k n)).
Proof.
  intros Hm. revert k. induction n as [|n IH]; intros k Hk; cbn [seq map].
  - split; constructor.
  - destruct (IH (S k)) as (F & S); [lia|]. split.
    + constructor; [apply Hm; lia|exact F].
    + constructor; [exact S|].
      rewrite Forall_map. apply Forall_forall. intros j Hj.
      apply in_seq in Hj. apply Hm. lia.
Qed.

Lemma stamped_in_order w l :
  monotone_clock w ->
  stamped w (clock w 0) 1 l ->
  Forall (fun d => (startTime d <= lastUpdateTime d)%Z) l
  /\ StronglySorted Z.le (map lastUpdateTime l).
Proof.
  intros Hm (A & B).
  destruct (@clock_readings_sorted w 1 (List.length l) Hm) as (F & S); [lia|].
  rewrite <- B in F, S. split; [|exact S].
  rewrite Forall_map in F. apply Forall_forall. intros d Hd.
  assert (E : startTime d = clock w 0).
  { apply (@repeat_spec _ (List.length l)). rewrite <- A.
    apply in_map, Hd. }
  rewrite E. rewrite Forall_forall in F. exact (F d Hd).
Qed.

(** X8: when the clock never goes back, no snapshot is updated before the
    start time that it shows, and the update times of the snapshots of a run
    never decrease. *)
Theorem update_times_never_decrease w :
  monotone_clock w ->
  (forall rpa_file_path output_dir progress_file,
     let l := written (trace (extract_rpa w rpa_file_path output_dir
                                          progress_file)) in
     Forall (fun d => (startTime d <= lastUpdateTime d)%Z) l
     /\ StronglySorted Z.le (map lastUpdateTime l))
  /\ (forall source_dir output_rpa_path version key progress_file,
        let l := written (trace (create_rpa w source_dir output_rpa_path version
                                            key progress_file)) in
        Forall (fun d => (startTime d <= lastUpdateTime d)%Z) l
        /\ StronglySorted Z.le (map lastUpdateTime l))
  /\ (forall source_dir progress_file,
        let l := written (trace (decompile_directory w source_dir
                                                     progress_file)) in
        Forall (fun d => (startTime d <= lastUpdateTime d)%Z) l
        /\ StronglySorted Z.le (map lastUpdateTime l)).
Proof.
  intros Hm. split; [|split]; intros; subst l;
    apply (@stamped_in_order w _ Hm).
  - apply extract_rpa_stamped.
  - apply create_rpa_stamped.
  - apply decompile_directory_stamped.
Qed.

Lemma update_times_never_decrease_witness :
  monotone_clock seven_entries
  /\ StronglySorted Z.le
       (map lastUpdateTime
            (written (trace (extract_rpa seven_entries "game.rpa" "out"
                                         (Some "progress.json"))))).
Proof.
  assert (Hm : monotone_clock seven_entries).
  { intros i j Hij. cbn. lia. }
  split; [exact Hm|].
  destruct (@update_times_never_decrease seven_entries Hm) as (He & _).
  destruct (He "game.rpa"%string "out"%string (Some "progress.json"%string))
    as (_ & S).
  exact S.
Defined.

(** ** A progress file that cannot be written *)

Lemma stamped_cons_inv w t0 k d l :
  stamped w t0 k (d :: l) ->
  startTime d = t0 /\ lastUpdateTime d = clock w k /\ stamped w t0 (S k) l.
Proof.
  intros (A & B). cbn in A, B.
  injection A as A1 A2. injection B as B1 B2.
  repeat split; assumption.
Qed.

Lemma snapshot_eq d d' :
  untimed d = untimed d' -> startTime d = startTime d' ->
  lastUpdateTime d = lastUpdateTime d' -> d = d'.
Proof.
  destruct d, d'. unfold untimed. cbn. intros [= -> -> -> -> -> ->] -> ->.
  reflexivity.
Qed.

(** Snapshots with the same fields and the same stamps are the same. *)
Lemma stamped_untimed_eq w t0 l : forall k l',
  map untimed l = map untimed l' ->
  stamped w t0 k l -> stamped w t0 k l' -> l = l'.
Proof.
  induction l as [|d l IH]; intros k [|d' l'] E S S'; try discriminate;
    [reflexivity|].
  cbn [map] in E.
  assert (E1 : untimed d = untimed d') by congruence.
  assert (E2 : map untimed l = map untimed l') by congruence.
  apply stamped_cons_inv in S, S'.
  destruct S as (A & B & S), S' as (A' & B' & S').
  f_equal; [|exact (IH _ _ E2 S S')].
  apply snapshot_eq; congruence.
Qed.

Section Channel.

Variable w : world.
Variable c : string -> snapshot -> outcome unit.
Variable pa : string -> string -> bool.
Variable la : string -> string -> outcome (list fsnode).

Let w' := set_chan_after c pa la w.

Lemma extract_rpa_chan rpa_file_path output_dir progress_file :
  (forall p, path_exists (after_write w progress_file) p = path_exists w p) ->
  (forall p, path_exists (after_write w' progress_file) p = path_exists w p) ->
  let m := extract_rpa w rpa_file_path output_dir progress_file in
  let m' := extract_rpa w' rpa_file_path output_dir progress_file in
  returned m' = returned m /\ calls (trace m') = calls (trace m)
  /\ written (trace m') = written (trace m).
Proof.
  intros Hu Hu'. cbv zeta.
  assert (Hx : forall p, path_exists (after_write w' progress_file) p
                         = path_exists (after_write w progress_file) p)
    by (intros p; rewrite Hu, Hu'; reflexivity).
  destruct (@extract_run_same
              w' w progress_file progress_file
              (fun _ => eq_refl) (fun _ _ => eq_refl) Hx
              (fun _ => eq_refl) (fun _ _ => eq_refl)
              rpa_file_path output_dir) as (C & W).
  split; [|split; [exact C|]].
  - rewrite !extract_rpa_returns. f_equal.
    apply (@extract_summary_same
             w' w progress_file progress_file
             (fun _ => eq_refl) (fun _ _ => eq_refl) Hx
             (fun _ => eq_refl) (fun _ _ => eq_refl)).
  - apply (@stamped_untimed_eq w (clock w 0) _ 1);
      [exact (W eq_refl)|apply (extract_rpa_stamped w')
       |apply extract_rpa_stamped].
Qed.

Lemma decompile_directory_chan source_dir progress_file :
  let m := decompile_directory w source_dir progress_file in
  let m' := decompile_directory w' source_dir progress_file in
  returned m' = returned m /\ calls (trace m') = calls (trace m)
  /\ written (trace m') = written (trace m).
Proof.
  cbv zeta. split; [|split].
  - rewrite !decompile_directory_returns. reflexivity.
  - destruct (decompile_refusal w source_dir) as [msg|] eqn:Hr.
    + destruct (@decompile_refused w source_dir progress_file msg Hr)
        as (_ & _ & ->).
      now destruct (@decompile_refused w' source_dir progress_file
                                       msg Hr) as (_ & _ & ->).
    + destruct (@decompile_proceeds w source_dir progress_file Hr)
        as (_ & _ & ->).
      now destruct (@decompile_proceeds w' source_dir progress_file
                                        Hr) as (_ & _ & ->).
  - apply (@stamped_untimed_eq w (clock w 0) _ 1);
      [|apply (decompile_directory_stamped w')
       |apply decompile_directory_stamped].
    destruct (decompile_refusal w source_dir) as [msg|] eqn:Hr.
    + destruct (@decompile_refused w source_dir progress_file msg Hr)
        as (_ & -> & _).
      now destruct (@decompile_refused w' source_dir progress_file
                                       msg Hr) as (_ & -> & _).
    + destruct (@decompile_proceeds w source_dir progress_file Hr)
        as (_ & -> & _).
      now destruct (@decompile_proceeds w' source_dir progress_file
                                        Hr) as (_ & -> & _).
Qed.

Section Create.

Variables (source_dir output_rpa_path : string) (version key : Z).
Variable progress_file : option string.

Hypothesis unseen :
  listdir (after_write w progress_file) source_dir = listdir w source_dir.
Hypothesis unseen' :
  listdir (after_write w' progress_file) source_dir = listdir w source_dir.

Lemma create_steps_chan :
  create_steps (after_write w' progress_file) source_dir
  = create_steps (after_write w progress_file) source_dir.
Proof. unfold create_steps. rewrite unseen, unseen'. reflexivity. Qed.

Lemma create_rpa_chan_summary :
  let m := create_rpa w source_dir output_rpa_path version key progress_file in
  let m' := create_rpa w' source_dir output_rpa_path version key
                       progress_file in
  calls (trace m') = calls (trace m)
  /\ map untimed (written (trace m')) = map untimed (written (trace m)).
Proof.
  cbv zeta. pose proof create_steps_chan as E.
  destruct (Nat.eq_dec (count_files w source_dir) 0) as [H0|H0].
  { destruct (@create_rpa_refused w source_dir output_rpa_path version key
                                  progress_file H0) as (_ & -> & ->).
    destruct (@create_rpa_refused w' source_dir output_rpa_path
                version key progress_file H0) as (_ & -> & ->).
    split; reflexivity. }
  destruct (rpa_new w version key) as [[]|e] eqn:Hn.
  2:{ destruct (@create_rpa_new_fails w source_dir output_rpa_path version key
                                      progress_file e H0 Hn) as (_ & -> & ->).
      destruct (@create_rpa_new_fails w' source_dir output_rpa_path
                  version key progress_file e H0 Hn) as (_ & -> & ->).
      split; reflexivity. }
  destruct (walk_result w (create_steps (after_write w progress_file)
                                        source_dir)) as [[]|e] eqn:Hr;
    pose proof Hr as Hr'; rewrite <- E in Hr'.
  2:{ destruct (@create_rpa_walk_fails w source_dir output_rpa_path version key
                                       progress_file e H0 Hn Hr) as (_ & -> & ->).
      destruct (@create_rpa_walk_fails w' source_dir output_rpa_path
                  version key progress_file e H0 Hn Hr') as (_ & -> & ->).
      rewrite E. split; reflexivity. }
  destruct (rpa_save w output_rpa_path) as [[]|e] eqn:Hs.
  - destruct (@create_rpa_succeeds w source_dir output_rpa_path version key
                                   progress_file H0 Hn Hr Hs) as (_ & -> & ->).
    destruct (@create_rpa_succeeds w' source_dir output_rpa_path
                version key progress_file H0 Hn Hr' Hs) as (_ & -> & ->).
    rewrite E. split; reflexivity.
  - destruct (@create_rpa_save_fails w source_dir output_rpa_path version key
                                     progress_file e H0 Hn Hr Hs) as (_ & -> & ->).
    destruct (@create_rpa_save_fails w' source_dir output_rpa_path
                version key progress_file e H0 Hn Hr' Hs) as (_ & -> & ->).
    rewrite E. split; reflexivity.
Qed.

Lemma create_rpa_chan :
  let m := create_rpa w source_dir output_rpa_path version key progress_file in
  let m' := create_rpa w' source_dir output_rpa_path version key
                       progress_file in
  returned m' = returned m /\ calls (trace m') = calls (trace m)
  /\ written (trace m') = written (trace m).
Proof.
  cbv zeta. destruct create_rpa_chan_summary as (C & W).
  split; [|split; [exact C|]].
  - rewrite !create_rpa_returns. unfold create_summary, create_error.
    rewrite create_steps_chan. reflexivity.
  - apply (@stamped_untimed_eq w (clock w 0) _ 1);
      [exact W|apply (create_rpa_stamped w')|apply create_rpa_stamped].
Qed.

End Create.

End Channel.



(** ** Suffixes and the test for compiled scripts *)

Lemma string_app_nil_r (s : string) : (s ++ "")%string = s.
Proof. induction s as [|c s IH]; cbn; [reflexivity|]. rewrite IH. reflexivity. Qed.

Lemma rev_string_app (a b : string) :
  rev_string (a ++ b) = (rev_string b ++ rev_string a)%string.
Proof.
  induction a as [|c a IH]; cbn.
  - rewrite string_app_nil_r. reflexivity.
  - rewrite IH, string_app_assoc. reflexivity.
Qed.

Lemma rev_string_involutive (s : string) : rev_string (rev_string s) = s.
Proof.
  induction s as [|c s IH]; cbn; [reflexivity|].
  rewrite rev_string_app, IH. reflexivity.
Qed.

Lemma prefix_iff (p : string) : forall s,
  prefix p s = true <-> exists r, s = (p ++ r)%string.
Proof.
  induction p as [|c p IH]; intros s.
  - split; [intros _; exists s; reflexivity|].
    intros _. destruct s; reflexivity.
  - destruct s as [|c' s]; cbn.
    + split; [discriminate|]. intros (r & H). discriminate.
    + destruct (ascii_dec c c') as [<-|Hn].
      * rewrite IH. split; intros (r & H); exists r; [rewrite H|]; congruence.
      * split; [discriminate|]. intros (r & H). congruence.
Qed.

(** [s.endswith(suffix)] holds exactly when [s] ends with [suffix]. *)
Lemma endswith_iff (s suffix : string) :
  endswith s suffix = true <-> exists stem, s = (stem ++ suffix)%string.
Proof.
  unfold endswith. rewrite prefix_iff. split.
  - intros (r & H). exists (rev_string r).
    rewrite <- (rev_string_involutive s), H, rev_string_app,
      rev_string_involutive. reflexivity.
  - intros (stem & ->). exists (rev_string stem). apply rev_string_app.
Qed.

Lemma lower_app (a b : string) : lower (a ++ b) = (lower a ++ lower b)%string.
Proof. induction a as [|c a IH]; cbn; [reflexivity|]. rewrite IH. reflexivity. Qed.

Lemma lower_split (x : string) : forall s y,
  lower s = (x ++ y)%string ->
  exists a b, s = (a ++ b)%string /\ lower a = x /\ lower b = y.
Proof.
  induction x as [|c x IH]; intros s y H.
  - exists ""%string, s. repeat split. exact H.
  - destruct s as [|c' s]; [discriminate|]. cbn in H.
    injection H as Hc H. destruct (IH s y H) as (a & b & -> & Ha & Hb).
    exists (String c' a), b. cbn. rewrite Hc, Ha. repeat split. exact Hb.
Qed.

Lemma endswith_lower_iff (file suffix : string) :
  endswith (lower file) suffix = true
  <-> exists stem ext, file = (stem ++ ext)%string /\ lower ext = suffix.
Proof.
  rewrite endswith_iff. split.
  - intros (x & H). destruct (lower_split _ _ _ H) as (a & b & -> & _ & Hb).
    exists a, b. split; [reflexivity|exact Hb].
  - intros (stem & ext & -> & <-). exists (lower stem). apply lower_app.
Qed.

Lemma is_rpyc_spec file :
  is_rpyc file = true
  <-> exists stem ext,
        file = (stem ++ ext)%string
        /\ (lower ext = ".rpyc"%string \/ lower ext = ".rpymc"%string).
Proof.
  unfold is_rpyc. cbv zeta. rewrite orb_true_iff, !endswith_lower_iff. split.
  - intros [(stem & ext & H & He)|(stem & ext & H & He)];
      exists stem, ext; auto.
  - intros (stem & ext & H & [He|He]); [left|right]; exists stem, ext; auto.
Qed.


(** ** The files handed to the decompiler *)

Lemma path_join_suffix a b : exists pre, path_join a b = (pre ++ b)%string.
Proof.
  unfold path_join. destruct (starts_with_slash b).
  - exists ""%string. reflexivity.
  - destruct (String.eqb a "" || ends_with_slash a)%bool.
    + exists a. reflexivity.
    + exists (a ++ "/")%string. rewrite string_app_assoc. reflexivity.
Qed.

Lemma is_rpyc_path_join root file :
  is_rpyc file = true -> is_rpyc (path_join root file) = true.
Proof.
  rewrite !is_rpyc_spec. intros (stem & ext & -> & He).
  destruct (path_join_suffix root (stem ++ ext)) as (pre & ->).
  exists (pre ++ stem)%string, ext. split; [|exact He].
  symmetry. apply string_app_assoc.
Qed.

Lemma find_rpyc_in w source_dir f :
  In f (find_rpyc w source_dir) ->
  exists root names file,
    In (root, names) (os_walk source_dir (listdir w source_dir))
    /\ In file names /\ is_rpyc file = true /\ f = path_join root file.
Proof.
  unfold find_rpyc. rewrite in_flat_map. intros ([root names] & Hw & Hf).
  cbn [fst snd] in Hf. apply in_map_iff in Hf.
  destruct Hf as (file & <- & Hin). apply filter_In in Hin.
  destruct Hin as (Hin & Hr). exists root, names, file. auto.
Qed.

Lemma decompiled_scanned w source_dir progress_file f :
  In f (decompiled (trace (decompile_directory w source_dir progress_file))) ->
  In f (scanned w source_dir).
Proof.
  rewrite <- decompiled_calls.
  destruct (decompile_refusal w source_dir) as [msg|] eqn:Hr.
  - destruct (@decompile_refused w source_dir progress_file msg Hr)
      as (_ & _ & ->). intros [].
  - destruct (@decompile_proceeds w source_dir progress_file Hr)
      as (_ & _ & ->). rewrite decompiled_all. intros H. exact H.
Qed.

(** X11: only compiled scripts are handed to the decompiler.  Every path
    that a run of [decompile_directory] decompiles ends with [.rpyc] or
    [.rpymc], in any case of the letters, and is the join of a directory that
    [os.walk] visits under the source directory with one of the file names
    of that directory. *)
Theorem only_compiled_scripts_are_decompiled w source_dir progress_file f :
  In f (decompiled (trace (decompile_directory w source_dir progress_file))) ->
  is_rpyc f = true
  /\ exists top root names file,
       source_dir = Some top
       /\ In (root, names) (os_walk top (listdir w top))
       /\ In file names /\ f = path_join root file.
Proof.
  intros H. apply decompiled_scanned in H.
  destruct source_dir as [top|]; [|destruct H].
  cbn [scanned] in H. apply find_rpyc_in in H.
  destruct H as (root & names & file & Hw & Hin & Hr & ->).
  split; [apply is_rpyc_path_join, Hr|].
  exists top, root, names, file. auto.
Qed.

Lemma only_compiled_scripts_are_decompiled_witness :
  In "game/bad.RPYC"%string
     (decompiled (trace (decompile_directory scripts (Some "game") None)))
  /\ is_rpyc "game/bad.RPYC" = true.
Proof.
  assert (H : In "game/bad.RPYC"%string
                 (decompiled (trace (decompile_directory scripts (Some "game")
                                                         None))))
    by (vm_compute; auto).
  split; [exact H|].
  exact (proj1 (@only_compiled_scripts_are_decompiled
                  scripts (Some "game"%string) None "game/bad.RPYC"%string H)).
Defined.

(** ** Joined paths *)

Lemma ends_with_slash_cons c (s : string) :
  s <> ""%string -> ends_with_slash (String c s) = ends_with_slash s.
Proof.
  destruct s as [|c' s]; [intros H; now elim H|]. intros _.
  unfold ends_with_slash. cbn [String.length]. rewrite !Nat.sub_succ, !Nat.sub_0_r.
  reflexivity.
Qed.

Lemma string_app_not_nil (a b : string) :
  b <> ""%string -> (a ++ b)%string <> ""%string.
Proof. destruct a; [intros H; exact H|discriminate]. Qed.

Lemma ends_with_slash_app (a b : string) :
  b <> ""%string -> ends_with_slash (a ++ b) = ends_with_slash b.
Proof.
  intros Hb. induction a as [|c a IH]; [reflexivity|].
  cbn [append]. rewrite ends_with_slash_cons; [exact IH|].
  apply string_app_not_nil, Hb.
Qed.

Lemma starts_with_slash_app (a b : string) :
  a <> ""%string -> starts_with_slash (a ++ b) = starts_with_slash a.
Proof. destruct a; [intros H; now elim H|reflexivity]. Qed.

Lemma eqb_nil_app (a b : string) :
  b <> ""%string -> String.eqb (a ++ b) "" = false.
Proof. intros Hb. apply String.eqb_neq, string_app_not_nil, Hb. Qed.

Lemma path_join_nil_l b : path_join "" b = b.
Proof. unfold path_join. destruct (starts_with_slash b); reflexivity. Qed.

Lemma path_join_abs a b : starts_with_slash b = true -> path_join a b = b.
Proof. unfold path_join. intros ->. reflexivity. Qed.

Lemma path_join_rel a b :
  starts_with_slash b = false ->
  path_join a b
  = if (String.eqb a "" || ends_with_slash a)%bool then (a ++ b)%string
    else (a ++ "/" ++ b)%string.
Proof. unfold path_join. intros ->. reflexivity. Qed.

(** [os.path.join] is associative. *)
Lemma path_join_assoc a b c :
  path_join (path_join a b) c = path_join a (path_join b c).
Proof.
  destruct (starts_with_slash c) eqn:Hc.
  { rewrite !(path_join_abs _ c) by exact Hc. reflexivity. }
  destruct (String.eqb b "") eqn:Hb0.
  { apply String.eqb_eq in Hb0. subst b. rewrite path_join_nil_l.
    rewrite (path_join_rel a ""), (path_join_rel a c) by (reflexivity || exact Hc).
    rewrite string_app_nil_r.
    destruct (String.eqb a "") eqn:Ha0; cbn [orb].
    - apply String.eqb_eq in Ha0. subst a. apply path_join_nil_l.
    - destruct (ends_with_slash a) eqn:Hs; rewrite path_join_rel by exact Hc.
      + rewrite Ha0, Hs. reflexivity.
      + rewrite eqb_nil_app by discriminate.
        rewrite ends_with_slash_app by discriminate.
        cbn [orb]. rewrite string_app_assoc. reflexivity. }
  apply String.eqb_neq in Hb0.
  assert (Hbc : exists sep, path_join b c = (b ++ sep ++ c)%string
                            /\ (forall x, path_join (x ++ b) c
                                          = (x ++ b ++ sep ++ c)%string)).
  { rewrite (path_join_rel b c) by exact Hc.
    destruct (String.eqb b "") eqn:E;
      [apply String.eqb_eq in E; contradiction|]. cbn [orb].
    destruct (ends_with_slash b) eqn:Hs.
    - exists ""%string. split; [reflexivity|].
      intros x. rewrite path_join_rel by exact Hc.
      rewrite eqb_nil_app, ends_with_slash_app, Hs by exact Hb0.
      cbn [orb]. apply string_app_assoc.
    - exists "/"%string. split; [reflexivity|].
      intros x. rewrite path_join_rel by exact Hc.
      rewrite eqb_nil_app, ends_with_slash_app, Hs by exact Hb0.
      cbn [orb]. apply string_app_assoc. }
  destruct Hbc as (sep & Hbc & Hx). rewrite Hbc.
  destruct (starts_with_slash b) eqn:Hb.
  - rewrite (path_join_abs a b) by exact Hb.
    rewrite (path_join_abs a (b ++ sep ++ c))
      by (rewrite starts_with_slash_app; assumption).
    exact Hbc.
  - rewrite (path_join_rel a b) by exact Hb.
    rewrite (path_join_rel a (b ++ sep ++ c))
      by (rewrite starts_with_slash_app; assumption).
    destruct (String.eqb a "" || ends_with_slash a)%bool.
    + apply Hx.
    + rewrite <- string_app_assoc, Hx. rewrite !string_app_assoc. reflexivity.
Qed.

(** ** The archive paths of [create_rpa] *)

Lemma steps_of_relative source_dir item : forall dir_path archive_prefix,
  (forall n, path_join dir_path n
             = path_join source_dir (path_join archive_prefix n)) ->
  forall ip ap rd,
    In (SFile ip ap rd) (steps_of dir_path archive_prefix item) ->
    ip = path_join source_dir ap.
Proof.
  induction item as [name rd0|name link e|name link items IH] using fsnode_induction;
    intros dir_path archive_prefix Hrel ip ap rd; cbn [steps_of node_name].
  - intros [[= <- <- <-]|[]]. apply Hrel.
  - intros [H|[]]. discriminate.
  - intros [H|H]; [discriminate|].
    apply in_flat_map in H. destruct H as (x & Hx & Hin).
    rewrite Forall_forall in IH.
    refine (IH x Hx (path_join dir_path name) (path_join archive_prefix name)
               _ ip ap rd Hin).
    intros n. rewrite Hrel. apply path_join_assoc.
Qed.

Lemma create_steps_relative w source_dir ip ap rd :
  In (SFile ip ap rd) (create_steps w source_dir) ->
  ip = path_join source_dir ap.
Proof.
  unfold create_steps, dir_steps. intros [H|H]; [discriminate|].
  destruct (listdir w source_dir) as [items|e]; [|destruct H].
  apply in_flat_map in H. destruct H as (x & _ & Hin).
  refine (@steps_of_relative source_dir x source_dir ""%string _ ip ap rd Hin).
  intros n. rewrite path_join_nil_l. reflexivity.
Qed.

Lemma bad_step_in w steps st : bad_step w steps = Some st -> In st steps.
Proof.
  induction steps as [|x r IH]; cbn; [discriminate|].
  destruct (step_error w x); [intros [= <-]; auto|]. intros H. auto.
Qed.

Lemma done_steps_in w steps st : In st (done_steps w steps) -> In st steps.
Proof.
  destruct (done_steps_prefix w steps) as (rest & H). intros Hin.
  rewrite H. apply in_or_app. left. exact Hin.
Qed.

Lemma flat_map_split {A B} (f : A -> list B) l y :
  In y (flat_map f l) ->
  exists l1 x l2,
    l = l1 ++ x :: l2 /\ In y (f x)
    /\ flat_map f l = flat_map f l1 ++ f x ++ flat_map f l2.
Proof.
  intros H. apply in_flat_map in H. destruct H as (x & Hx & Hy).
  apply in_split in Hx. destruct Hx as (l1 & l2 & ->).
  exists l1, x, l2. split; [reflexivity|]. split; [exact Hy|].
  rewrite flat_map_app. reflexivity.
Qed.

(** A call of the walk is a call of one of its steps, the calls of which
    follow one another in the walk. *)
Lemma walk_calls_split w steps ev :
  In ev (walk_calls w steps) ->
  exists st a b,
    In st steps /\ In ev (step_calls w st)
    /\ walk_calls w steps = a ++ step_calls w st ++ b.
Proof.
  unfold walk_calls. intros H. apply in_app_or in H. destruct H as [H|H].
  - apply flat_map_split in H.
    destruct H as (l1 & st & l2 & Hl & Hev & ->).
    exists st, (flat_map (step_calls w) l1),
           (flat_map (step_calls w) l2
              ++ match bad_step w steps with
                 | Some st' => step_calls w st'
                 | None => []
                 end).
    split.
    { apply (@done_steps_in w steps st). rewrite Hl.
      apply in_or_app. right. left. reflexivity. }
    split; [exact Hev|]. rewrite <- !app_assoc. reflexivity.
  - destruct (bad_step w steps) as [st|] eqn:Hb; [|destruct H].
    exists st, (flat_map (step_calls w) (done_steps w steps)), [].
    split; [apply (@bad_step_in w steps st), Hb|]. split; [exact H|].
    rewrite app_nil_r. reflexivity.
Qed.

(** The calls of the walk, among the calls of a run of [create_rpa]. *)
Lemma create_calls_walk
    w source_dir output_rpa_path version key progress_file ev :
  let m := create_rpa w source_dir output_rpa_path version key progress_file in
  In ev (calls (trace m)) ->
  (exists err, ev = EvNew version key err)
  \/ (exists err, ev = EvSave output_rpa_path err)
  \/ (exists st a b,
        In st (create_steps (after_write w progress_file) source_dir)
        /\ In ev (step_calls w st)
        /\ calls (trace m) = a ++ step_calls w st ++ b).
Proof.
  cbv zeta.
  destruct (create_rpa_cases w source_dir output_rpa_path version key
                             progress_file) as (r & l & t & _ & _ & -> & H).
  assert (W : forall pre post,
            In ev (walk_calls w (create_steps (after_write w progress_file)
                                              source_dir)) ->
            exists st a b,
              In st (create_steps (after_write w progress_file) source_dir)
              /\ In ev (step_calls w st)
              /\ pre :: walk_calls w (create_steps (after_write w progress_file)
                                                   source_dir) ++ post
                 = a ++ step_calls w st ++ b).
  { intros pre post Hin. apply walk_calls_split in Hin.
    destruct Hin as (st & a & b & Hst & Hev & ->).
    exists st, (pre :: a), (b ++ post). split; [exact Hst|].
    split; [exact Hev|]. cbn [app]. rewrite <- !app_assoc. reflexivity. }
  destruct H as [(_ & _ & _ & ->)|[(_ & e & Hn & _ & _ & ->)
           |[(_ & Hn & e & _ & _ & _ & ->)
           |[(_ & Hn & _ & e & Hs & _ & _ & ->)|(_ & Hn & _ & Hs & _ & _ & ->)]]]].
  - intros [].
  - intros [<-|[]]. eauto.
  - intros [<-|H]; [eauto|]. right; right.
    rewrite <- (app_nil_r (walk_calls _ _)). apply W, H.
  - intros [<-|H]; [eauto|]. apply in_app_or in H.
    destruct H as [H|[<-|[]]]; [|eauto]. right; right. apply W, H.
  - intros [<-|H]; [eauto|]. apply in_app_or in H.
    destruct H as [H|[<-|[]]]; [|eauto]. right; right. apply W, H.
Qed.

Lemma in_calls_inv ev t : In ev (calls t) -> In ev t.
Proof. unfold calls. intros H. apply filter_In in H. apply H. Qed.

(** X12: [create_rpa] stores every file under its path relative to the
    source directory, with the contents it has just read from it: for each
    [archive.add(archive_path, contents)] of a run, the file at
    [os.path.join(source_dir, archive_path)] is a file of the walk that
    holds [contents], and the call that precedes the addition is the
    reading of that file, which has not failed. *)
Theorem archive_paths_are_relative
    w source_dir output_rpa_path version key progress_file archive_path
    contents err :
  let m := create_rpa w source_dir output_rpa_path version key progress_file in
  In (EvAdd archive_path contents err) (trace m) ->
  In (SFile (path_join source_dir archive_path) archive_path (Ok contents))
     (create_steps (after_write w progress_file) source_dir)
  /\ exists before after,
       calls (trace m)
       = before
           ++ EvReadFile (path_join source_dir archive_path) None
           :: EvAdd archive_path contents err :: after.
Proof.
  intros m H. subst m.
  apply in_calls in H; [|reflexivity].
  apply create_calls_walk in H.
  destruct H as [(e & H)|[(e & H)|(st & a & b & Hst & Hev & Hc)]];
    try discriminate.
  destruct st as [ip ap [c|e]|dp e]; cbn [step_calls err_of] in Hev, Hc.
  - destruct Hev as [Hev|[Hev|[]]]; [discriminate|].
    pose proof (@create_steps_relative _ _ _ _ _ Hst) as Hip.
    rewrite Hev in Hc. injection Hev as -> -> _. subst ip.
    split; [exact Hst|]. exists a, b. exact Hc.
  - destruct Hev as [Hev|[]]. discriminate.
  - destruct Hev as [Hev|[]]. discriminate.
Qed.

Lemma archive_paths_are_relative_witness :
  In (EvAdd "a.txt" [] None)
     (trace (create_rpa one_unreadable "game" "out.rpa" 3 0xDEADBEEF None))
  /\ exists before after,
       calls (trace (create_rpa one_unreadable "game" "out.rpa" 3 0xDEADBEEF
                                None))
       = before ++ EvReadFile "game/a.txt" None :: EvAdd "a.txt" [] None :: after.
Proof.
  assert (H : In (EvAdd "a.txt" [] None)
                 (trace (create_rpa one_unreadable "game" "out.rpa" 3 0xDEADBEEF
                                    None)))
    by (vm_compute; auto).
  split; [exact H|].
  exact (proj2 (@archive_paths_are_relative
                  one_unreadable "game"%string "out.rpa"%string 3%Z 0xDEADBEEF%Z
                  None "a.txt"%string [] None H)).
Defined.

(** ** The calls of [extract_rpa] *)

Section ExtractCalls.

Variable w : world.
Variables (rpa_file_path output_dir : string).

Lemma entry_calls_events filename ev :
  In ev (entry_calls w rpa_file_path output_dir filename) ->
  match ev with
  | EvRead f _ => f = filename
  | EvWriteFile p contents _ =>
      p = path_join output_dir filename
      /\ rpa_read w rpa_file_path filename = Ok contents
  | EvMakedirs p _ =>
      path_exists w p = false /\ p = dirname (path_join output_dir filename)
  | _ => False
  end.
Proof.
  unfold entry_calls, trace, run, extract_entry. cbv zeta.
  destruct (rpa_read w rpa_file_path filename) as [contents|e] eqn:Hr;
    [ destruct (path_exists w (dirname (path_join output_dir filename))) eqn:Hx;
      destruct (negb (dirname (path_join output_dir filename) =? "")) eqn:Hn;
      cbn [negb andb];
      [ | | destruct (makedirs w (dirname (path_join output_dir filename)))
              as [[]|e1] eqn:Hm | ];
      destruct (write_file w (path_join output_dir filename) contents)
        as [[]|e2] eqn:Hw
    | ];
    run_closed; cbn [fst snd app];
    intros H; repeat (destruct H as [<-|H]; [cbn; auto|]); destruct H.
Qed.

Lemma extracted_prefix_in todo f :
  In f (extracted_prefix w rpa_file_path output_dir todo) -> In f todo.
Proof.
  induction todo as [|x r IH]; cbn; [auto|].
  destruct (entry_error w rpa_file_path output_dir x); [intros []|].
  intros [<-|H]; auto.
Qed.

Lemma loop_calls_in todo ev :
  In ev (loop_calls w rpa_file_path output_dir todo) ->
  exists f, In f todo /\ In ev (entry_calls w rpa_file_path output_dir f).
Proof.
  unfold loop_calls. intros H. apply in_app_or in H. destruct H as [H|H].
  - apply in_flat_map in H. destruct H as (f & Hf & Hev).
    exists f. split; [apply extracted_prefix_in, Hf|exact Hev].
  - destruct (first_failure w rpa_file_path output_dir todo) as [[f e]|] eqn:Hf;
      [|destruct H].
    destruct (first_failure_split _ _ _ _ Hf) as (rest & Ht & _).
    exists f. split; [|exact H].
    rewrite Ht. apply in_or_app. right. left. reflexivity.
Qed.

End ExtractCalls.

Lemma extract_calls_events w rpa_file_path output_dir progress_file ev :
  In ev (calls (trace (extract_rpa w rpa_file_path output_dir progress_file))) ->
  extract_event (after_write w progress_file) rpa_file_path output_dir ev.
Proof.
  destruct (rpa_open w rpa_file_path) as [a|e] eqn:Ho.
  - destruct (ensure_output (after_write w progress_file) output_dir) as [[]|e]
      eqn:Hd.
    + destruct (@extract_rpa_proceeds w rpa_file_path output_dir progress_file
                                      a Ho Hd) as (_ & _ & ->).
      intros [<-|H]; [reflexivity|]. apply in_app_or in H.
      destruct H as [H|H].
      * unfold ensure_calls in H.
        destruct (path_exists (after_write w progress_file) output_dir) eqn:Hx;
          [destruct H|].
        destruct H as [<-|[]]. cbn. auto.
      * apply (@loop_calls_in (after_write w progress_file)) in H. destruct H as
          (f & Hf & Hev).
        apply (@entry_calls_events (after_write w progress_file)) in Hev.
        unfold extract_event. settle. rewrite Ho.
        destruct ev; try contradiction.
        -- destruct Hev as (Hx & ->). split; [exact Hx|]. right. eauto.
        -- subst. eauto.
        -- destruct Hev as (-> & Hr). eauto 6.
    + destruct (@extract_rpa_output_fails w rpa_file_path output_dir
                  progress_file a e Ho Hd) as (_ & _ & ->).
      unfold ensure_output in Hd. settle.
      destruct (path_exists (after_write w progress_file) output_dir) eqn:Hx;
          [discriminate|].
      intros [<-|[<-|[]]]; cbn; auto.
  - destruct (@extract_rpa_open_fails w rpa_file_path output_dir progress_file
                                      e Ho) as (_ & _ & ->).
    intros [<-|[]]. reflexivity.
Qed.

(** X13: [extract_rpa] touches nothing but the archive and the output of
    its entries.  Each of its calls opens the archive, reads an entry of the
    listing, writes what it has read from an entry to
    [os.path.join(output_dir, entry)], or creates a directory that was
    missing: the output directory, or the directory of such a path. *)
Theorem extract_touches_only_its_entries
    w rpa_file_path output_dir progress_file ev :
  In ev (calls (trace (extract_rpa w rpa_file_path output_dir progress_file))) ->
  extract_event (after_write w progress_file) rpa_file_path output_dir ev.
Proof. apply extract_calls_events. Qed.

Lemma extract_touches_only_its_entries_witness :
  In (EvWriteFile "out/a" [] None)
     (calls (trace (extract_rpa three_entries "game.rpa" "out" None)))
  /\ extract_event three_entries "game.rpa" "out" (EvWriteFile "out/a" [] None).
Proof.
  assert (H : In (EvWriteFile "out/a" [] None)
                 (calls (trace (extract_rpa three_entries "game.rpa" "out"
                                            None))))
    by (vm_compute; auto).
  split; [exact H|].
  exact (@extract_touches_only_its_entries
           three_entries "game.rpa"%string "out"%string None _ H).
Defined.

(** ** Entries without directories *)

Lemma no_slash_start f : no_slash f = true -> starts_with_slash f = false.
Proof.
  destruct f as [|c f]; [reflexivity|]. cbn.
  destruct (Ascii.eqb c "/"); [discriminate|reflexivity].
Qed.

Lemma head_part_no_slash f : no_slash f = true -> head_part f = ""%string.
Proof.
  induction f as [|c f IH]; [reflexivity|]. cbn.
  destruct (Ascii.eqb c "/"); [discriminate|]. cbn. intros H.
  rewrite (IH H). reflexivity.
Qed.

Lemma head_part_join (d f : string) :
  no_slash f = true -> head_part (d ++ "/" ++ f) = (d ++ "/")%string.
Proof.
  intros Hf. induction d as [|c d IH].
  - cbn. rewrite (head_part_no_slash _ Hf). reflexivity.
  - cbn [append head_part]. cbn [append] in IH. rewrite IH.
    destruct d; reflexivity.
Qed.

Lemma rstrip_slash_cons c (r : string) :
  rstrip_slash (String c r)
  = match rstrip_slash r with
    | EmptyString => if Ascii.eqb c "/" then EmptyString else String c EmptyString
    | String c' r' => String c (String c' r')
    end.
Proof. reflexivity. Qed.

Lemma rstrip_slash_join (d : string) :
  d <> ""%string -> ends_with_slash d = false ->
  rstrip_slash (d ++ "/") = d.
Proof.
  induction d as [|c d IH]; [intros H; now elim H|]. intros _ He.
  destruct d as [|c' d].
  - unfold ends_with_slash in He. cbn in He. cbn. rewrite He. reflexivity.
  - rewrite ends_with_slash_cons in He by discriminate.
    change (String c (String c' d) ++ "/")%string
      with (String c (String c' d ++ "/")).
    rewrite rstrip_slash_cons, IH by (discriminate || exact He). reflexivity.
Qed.

(** [os.path.dirname(os.path.join(d, f))] is [d], for a name [f] without a
    slash and a directory [d] written without a trailing slash. *)
Lemma dirname_path_join d f :
  d <> ""%string -> ends_with_slash d = false -> no_slash f = true ->
  path_join d f = (d ++ "/" ++ f)%string /\ dirname (path_join d f) = d.
Proof.
  intros Hd He Hf.
  assert (E : path_join d f = (d ++ "/" ++ f)%string).
  { rewrite path_join_rel by exact (no_slash_start _ Hf).
    apply String.eqb_neq in Hd. rewrite Hd, He. reflexivity. }
  split; [exact E|]. rewrite E. unfold dirname.
  rewrite head_part_join by exact Hf.
  rewrite rstrip_slash_join by assumption.
  destruct d; [now elim Hd|reflexivity].
Qed.

(** X14: an archive whose entries have no directory part is extracted
    into an existing output directory without creating any directory, and
    each entry that is written goes to [output_dir/entry]. *)
Theorem flat_archive_creates_no_directory
    w rpa_file_path output_dir progress_file a :
  rpa_open w rpa_file_path = Ok a ->
  Forall (fun filename => no_slash filename = true) (a_list a) ->
  path_exists (after_write w progress_file) output_dir = true ->
  output_dir <> ""%string ->
  ends_with_slash output_dir = false ->
  let m := extract_rpa w rpa_file_path output_dir progress_file in
  (forall p err, ~ In (EvMakedirs p err) (trace m))
  /\ (forall p contents err,
        In (EvWriteFile p contents err) (trace m) ->
        exists filename,
          In filename (a_list a)
          /\ p = (output_dir ++ "/" ++ filename)%string
          /\ rpa_read w rpa_file_path filename = Ok contents).
Proof.
  intros Ho Hflat Hx Hd He m. subst m. rewrite Forall_forall in Hflat. split.
  - intros p err H. apply in_calls in H; [|reflexivity].
    apply extract_calls_events in H.
    unfold extract_event in H. cbv beta iota zeta in H. settle.
    destruct H as (Hp & [->|(f & (a' & Ha & Hf) & ->)]); [congruence|].
    rewrite Ho in Ha. injection Ha as <-.
    destruct (@dirname_path_join output_dir f Hd He (Hflat f Hf)) as (_ & E).
    rewrite E in Hp. congruence.
  - intros p contents err H. apply in_calls in H; [|reflexivity].
    apply extract_calls_events in H.
    unfold extract_event in H. cbv beta iota zeta in H. settle.
    destruct H as (f & (a' & Ha & Hf) & -> & Hr).
    rewrite Ho in Ha. injection Ha as <-.
    destruct (@dirname_path_join output_dir f Hd He (Hflat f Hf)) as (E & _).
    exists f. rewrite E. auto.
Qed.

Lemma flat_archive_creates_no_directory_witness :
  rpa_open seven_entries "game.rpa" = Ok {| a_list := ["e0"; "e1"; "e2"; "e3"; "e4"; "e5"; "e6"]%string; a_version := "3" |}
  /\ forall p err,
       ~ In (EvMakedirs p err)
            (trace (extract_rpa seven_entries "game.rpa" "out" None)).
Proof.
  split; [reflexivity|].
  apply (@flat_archive_creates_no_directory
           seven_entries "game.rpa"%string "out"%string None
           {| a_list := ["e0"; "e1"; "e2"; "e3"; "e4"; "e5"; "e6"]%string;
              a_version := "3" |}).
  - reflexivity.
  - repeat constructor.
  - reflexivity.
  - discriminate.
  - reflexivity.
Defined.

(** ** A successful run of [create_rpa] *)

Lemma paths_added_app t1 t2 :
  paths_added (t1 ++ t2) = paths_added t1 ++ paths_added t2.
Proof. apply flat_map_app. Qed.

Lemma walk_snapshots_total w total fi steps :
  Forall (fun d => totalFiles d = total) (walk_snapshots w total fi steps).
Proof.
  unfold walk_snapshots. apply Forall_app. split.
  - apply create_ticks_forall. reflexivity.
  - destruct (bad_step w steps) as [[ip ap rd|dp err]|]; [| |]; cbn;
      try constructor.
    destruct (file_cause w ap rd); constructor; [reflexivity|constructor].
Qed.

(** X15: [create_rpa] reports success exactly when it has saved the
    archive.  The files that it then returns are the files that the walk of
    [add_directory] finds under the source directory, links to directories
    followed and a progress file that the run has created there included,
    each under its archive path and in the order of the walk; they are the
    paths added to the archive, and the message gives their number.  Where
    the directory is listed as it was counted and has no link to a
    directory in it, they are as many as the snapshots announce as
    [totalFiles]. *)
Theorem archive_saved_iff_success
    w source_dir output_rpa_path version key progress_file :
  let m := create_rpa w source_dir output_rpa_path version key progress_file in
  exists r,
    returned m = Ok r
    /\ (success r = true <-> In (EvSave output_rpa_path None) (trace m))
    /\ (success r = true ->
        files r = dir_paths (listdir (after_write w progress_file) source_dir)
        /\ paths_added (trace m) = files r
        /\ message r
           = ("Successfully created archive with "
              ++ fmt_nat (List.length (files r)) ++ " files")%string
        /\ (listdir (after_write w progress_file) source_dir
            = listdir w source_dir ->
            dir_link_free (listdir w source_dir) = true ->
            List.length (files r) = count_files w source_dir
            /\ forall d, In d (written (trace m)) ->
                         totalFiles d = List.length (files r))).
Proof.
  cbv zeta.
  destruct (create_rpa_cases w source_dir output_rpa_path version key
                             progress_file) as (r & l & t & Hv & Hw & Hc & H).
  exists r. split; [exact Hv|].
  assert (Hsave : In (EvSave output_rpa_path None)
                     (trace (create_rpa w source_dir output_rpa_path version key
                                        progress_file))
                  <-> In (EvSave output_rpa_path None) t).
  { rewrite <- Hc. split; [|apply in_calls_inv].
    intros Hin. apply in_calls; [exact Hin|reflexivity]. }
  rewrite Hsave, <- paths_added_calls, Hc. clear Hsave Hv Hc.
  assert (Hno : ~ In (EvSave output_rpa_path None)
                     (walk_calls w (create_steps (after_write w progress_file)
                                                 source_dir))).
  { intros Hin. apply walk_calls_no_save in Hin. discriminate. }
  destruct H as [(_ & -> & _ & ->)|[(_ & e & _ & -> & _ & ->)
           |[(_ & _ & e & _ & -> & _ & ->)
           |[(_ & _ & _ & e & _ & -> & _ & ->)|(_ & _ & Hr & _ & -> & -> & ->)]]]];
    cbn [success files message].
  - split; [|discriminate]. split; [discriminate|intros []].
  - split; [|discriminate]. split; [discriminate|].
    intros [H|[]]. discriminate.
  - split; [|discriminate]. split; [discriminate|].
    intros [H|H]; [discriminate|contradiction].
  - split; [|discriminate]. split; [discriminate|].
    intros [H|H]; [discriminate|]. apply in_app_or in H.
    destruct H as [H|[H|[]]]; [contradiction|discriminate].
  - split.
    + split; [|reflexivity]. intros _. right. apply in_or_app. right.
      left. reflexivity.
    + intros _.
      destruct (@walk_calls_ok w (create_steps (after_write w progress_file)
                                               source_dir) Hr)
        as (_ & Hp & Ha).
      assert (E : walk_added w (create_steps (after_write w progress_file)
                                             source_dir)
                  = dir_paths (listdir (after_write w progress_file)
                                       source_dir)).
      { rewrite Ha. apply dir_steps_paths. }
      split; [exact E|]. split; [|split; [reflexivity|]].
      * change (paths_added (?x :: ?y)) with (paths_added [x] ++ paths_added y).
        rewrite paths_added_app, Hp. cbn [paths_added flat_map app].
        rewrite app_nil_r. exact (eq_sym Ha).
      * intros Hsame Hfree.
        assert (N : List.length
                      (walk_added w (create_steps (after_write w progress_file)
                                                  source_dir))
                    = count_files w source_dir).
        { rewrite E, Hsame, count_files_tree.
          apply dir_paths_length, Hfree. }
        split; [exact N|]. intros d Hd. rewrite N.
        apply (in_map untimed) in Hd. rewrite Hw in Hd.
        destruct (truthy progress_file); [|destruct Hd].
        destruct Hd as [Hd|Hd];
          [apply (f_equal totalFiles) in Hd; exact (eq_sym Hd)|].
        apply in_app_or in Hd. destruct Hd as [Hd|[Hd|[]]];
          [|apply (f_equal totalFiles) in Hd; exact (eq_sym Hd)].
        pose proof (@walk_snapshots_total
                      w (count_files w source_dir) 0
                      (create_steps (after_write w progress_file) source_dir))
          as Ht.
        rewrite Forall_forall in Ht. exact (Ht _ Hd).
Qed.

Lemma archive_saved_iff_success_witness :
  exists r,
    returned (create_rpa progress_inside "game" "out.rpa" 3 0xDEADBEEF None)
    = Ok r
    /\ success r = true
    /\ List.length (files r) = count_files progress_inside "game".
Proof.
  destruct (@archive_saved_iff_success
              progress_inside "game"%string "out.rpa"%string 3%Z 0xDEADBEEF%Z
              None) as (r & Hv & Hs & Hf).
  exists r. split; [exact Hv|].
  assert (S : success r = true).
  { apply Hs. vm_compute. repeat (first [left; reflexivity|right]). }
  split; [exact S|].
  destruct (Hf S) as (_ & _ & _ & Hn). apply Hn; reflexivity.
Defined.

(** ** A progress file in the source directory *)

(** The files of a run of [create_rpa] that succeeds are those that the
    walk finds. *)
Lemma create_success_files
    w source_dir output_rpa_path version key progress_file r :
  returned (create_rpa w source_dir output_rpa_path version key progress_file)
  = Ok r ->
  success r = true ->
  files r = dir_paths (listdir (after_write w progress_file) source_dir).
Proof.
  intros Hv Hs.
  destruct (create_rpa_cases w source_dir output_rpa_path version key
                             progress_file) as (r' & l & t & Hv' & _ & _ & H).
  rewrite Hv in Hv'. injection Hv' as <-.
  destruct H as [(_ & -> & _)|[(_ & e & _ & -> & _)
           |[(_ & _ & e & _ & -> & _)
           |[(_ & _ & _ & e & _ & -> & _)|(_ & _ & Hr & _ & -> & _)]]]];
    try discriminate.
  cbn [files].
  destruct (@walk_calls_ok w (create_steps (after_write w progress_file)
                                           source_dir) Hr) as (_ & _ & Ha).
  rewrite Ha. apply dir_steps_paths.
Qed.

(** Every snapshot of a run of [create_rpa] shows the number of files that
    [os.walk] has counted. *)
Lemma create_snapshots_total
    w source_dir output_rpa_path version key progress_file :
  Forall (fun d => totalFiles d = count_files w source_dir)
         (written (trace (create_rpa w source_dir output_rpa_path version key
                                     progress_file))).
Proof.
  apply Forall_forall. intros d Hd. apply (in_map untimed) in Hd.
  change (totalFiles d) with (totalFiles (untimed d)).
  revert Hd. generalize (untimed d). clear d. intros d Hd.
  destruct (create_rpa_cases w source_dir output_rpa_path version key
                             progress_file) as (r & l & t & _ & Hw & _ & H).
  rewrite Hw in Hd. destruct (truthy progress_file); [|destruct Hd].
  pose proof (@walk_snapshots_total
                w (count_files w source_dir) 0
                (create_steps (after_write w progress_file) source_dir)) as Ht.
  rewrite Forall_forall in Ht.
  destruct H as [(H0 & _ & -> & _)|[(_ & e & _ & _ & -> & _)
           |[(_ & _ & e & _ & _ & -> & _)
           |[(_ & _ & _ & e & _ & _ & -> & _)|(_ & _ & _ & _ & _ & -> & _)]]]].
  - destruct Hd as [<-|[]]. rewrite H0. reflexivity.
  - destruct Hd as [<-|[<-|[]]]; reflexivity.
  - destruct Hd as [<-|Hd]; [reflexivity|]. apply in_app_or in Hd.
    destruct Hd as [Hd|[<-|[]]]; [exact (Ht _ Hd)|reflexivity].
  - destruct Hd as [<-|Hd]; [reflexivity|]. apply in_app_or in Hd.
    destruct Hd as [Hd|[<-|[]]]; [exact (Ht _ Hd)|reflexivity].
  - destruct Hd as [<-|Hd]; [reflexivity|]. apply in_app_or in Hd.
    destruct Hd as [Hd|[<-|[]]]; [exact (Ht _ Hd)|reflexivity].
Qed.

(** X21: a progress file that [create_rpa] writes into its source directory
    is archived with the sources.  The files are counted before the first
    snapshot is written and listed after it: when the listing of the source
    directory, which had no link to a directory, has gained the progress
    file by then, a run that succeeds returns the files it has counted and
    the progress file among them, one file more than every snapshot shows as
    [totalFiles]. *)
Theorem progress_file_in_the_source_is_archived
    w source_dir output_rpa_path version key f before after name rd r :
  f <> ""%string ->
  listdir w source_dir = Ok (before ++ after) ->
  dir_link_free (Ok (before ++ after)) = true ->
  listdir_after w f source_dir = Ok (before ++ FFile name rd :: after) ->
  let m := create_rpa w source_dir output_rpa_path version key (Some f) in
  returned m = Ok r ->
  success r = true ->
  files r = dir_paths (Ok before) ++ name :: dir_paths (Ok after)
  /\ List.length (files r) = S (count_files w source_dir)
  /\ Forall (fun d => S (totalFiles d) = List.length (files r))
            (written (trace m)).
Proof.
  intros Hf Hl Hfree Hafter m Hv Hs. subst m.
  pose proof (create_success_files _ _ _ _ _ _ Hv Hs) as E.
  assert (Ht : truthy (Some f) = true).
  { cbn. apply String.eqb_neq in Hf. rewrite Hf. reflexivity. }
  assert (La : listdir (after_write w (Some f)) source_dir
               = Ok (before ++ FFile name rd :: after)).
  { cbn [after_write listdir]. rewrite Ht. exact Hafter. }
  rewrite La in E.
  assert (E' : files r = dir_paths (Ok before) ++ name :: dir_paths (Ok after)).
  { rewrite E. cbn [dir_paths]. rewrite flat_map_app. cbn [flat_map tree_paths].
    rewrite path_join_nil_l. reflexivity. }
  assert (N : List.length (files r) = S (count_files w source_dir)).
  { rewrite E', count_files_tree, Hl, <- dir_paths_length by exact Hfree.
    cbn [dir_paths]. rewrite flat_map_app, !length_app. cbn [List.length]. lia. }
  split; [exact E'|]. split; [exact N|].
  rewrite N. eapply Forall_impl; [|apply create_snapshots_total].
  cbn beta. intros d ->. reflexivity.
Qed.

Lemma progress_file_in_the_source_is_archived_witness :
  let m := create_rpa progress_inside "game" "out.rpa" 3 0xDEADBEEF
                      (Some "progress.json") in
  returned m
  = Ok {| success := true;
          message := "Successfully created archive with 5 files";
          files := ["a.txt"; "b.txt"; "c.txt"; "d.txt"; "progress.json"] |}
  /\ List.length ["a.txt"; "b.txt"; "c.txt"; "d.txt"; "progress.json"]%string
     = S (count_files progress_inside "game")
  /\ map processedFiles (written (trace m)) = [0; 4; 5; 4]
  /\ map totalFiles (written (trace m)) = [4; 4; 4; 4].
Proof.
  cbv zeta.
  assert (Hv : returned (create_rpa progress_inside "game" "out.rpa" 3
                                    0xDEADBEEF (Some "progress.json"))
               = Ok {| success := true;
                       message := "Successfully created archive with 5 files";
                       files := ["a.txt"; "b.txt"; "c.txt"; "d.txt";
                                 "progress.json"] |})
    by (vm_compute; reflexivity).
  split; [exact Hv|].
  split; [|split; vm_compute; reflexivity].
  refine (proj1 (proj2 (@progress_file_in_the_source_is_archived
            progress_inside "game"%string "out.rpa"%string 3%Z 0xDEADBEEF%Z
            "progress.json"%string
            [FFile "a.txt" (Ok []); FFile "b.txt" (Ok []);
             FFile "c.txt" (Ok []); FFile "d.txt" (Ok [])]
            [] "progress.json"%string (Ok [])
            {| success := true;
               message := "Successfully created archive with 5 files";
               files := ["a.txt"; "b.txt"; "c.txt"; "d.txt";
                         "progress.json"] |}
            _ _ _ _ Hv _))).
  - discriminate.
  - reflexivity.
  - reflexivity.
  - reflexivity.
  - reflexivity.
Defined.

(** ** Runs of [decompile_directory] that are refused *)

Lemma decompile_refusal_cases w source_dir :
  match decompile_refusal w source_dir with
  | Some msg =>
      (msg = "Source directory is None or empty"%string
       /\ (source_dir = None \/ source_dir = Some ""%string))
      \/ (exists d, source_dir = Some d /\ d <> ""%string
                    /\ path_exists w d = false
                    /\ msg = ("Source directory does not exist: " ++ d)%string)
      \/ (exists d, source_dir = Some d /\ d <> ""%string
                    /\ path_exists w d = true /\ find_rpyc w d = []
                    /\ msg = "No .rpyc files found in directory"%string)
  | None =>
      exists d, source_dir = Some d /\ d <> ""%string
                /\ path_exists w d = true /\ find_rpyc w d <> []
  end.
Proof.
  unfold decompile_refusal. destruct source_dir as [d|]; [|auto].
  destruct (String.eqb_spec d "") as [->|Hd]; [auto|].
  destruct (path_exists w d) eqn:Hx; cbn [negb].
  - destruct (find_rpyc w d) as [|f r] eqn:Hf; cbn [List.length Nat.eqb].
    + right; right. exists d. auto 6.
    + exists d. repeat split; auto. rewrite Hf. discriminate.
  - right; left. exists d. auto.
Qed.

(** X16: [decompile_directory] fails only before it starts.  It returns
    success=False exactly when the source directory is missing from the
    call, empty, not there, or without compiled scripts; the message says
    which, the counters are all zero and nothing has been handed to the
    decompiler.  Once a compiled script is found the run reports success,
    whatever the decompiler does. *)
Theorem decompile_fails_only_before_it_starts w source_dir progress_file :
  let m := decompile_directory w source_dir progress_file in
  exists r,
    returned m = Ok r
    /\ (d_success r = true
        <-> exists d, source_dir = Some d /\ d <> ""%string
                      /\ path_exists w d = true /\ find_rpyc w d <> [])
    /\ (d_success r = false ->
        d_stats r = zero_stats /\ calls (trace m) = [])
    /\ (source_dir = None \/ source_dir = Some ""%string ->
        d_message r = "Source directory is None or empty"%string)
    /\ (forall d, source_dir = Some d -> d <> ""%string ->
                  path_exists w d = false ->
                  d_message r
                  = ("Source directory does not exist: " ++ d)%string)
    /\ (forall d, source_dir = Some d -> d <> ""%string ->
                  path_exists w d = true -> find_rpyc w d = [] ->
                  d_message r = "No .rpyc files found in directory"%string).
Proof.
  cbv zeta. pose proof (decompile_refusal_cases w source_dir) as Hc.
  destruct (decompile_refusal w source_dir) as [msg|] eqn:Hr.
  - destruct (@decompile_refused w source_dir progress_file msg Hr)
      as (-> & _ & ->).
    eexists. split; [reflexivity|]. cbn [d_success d_stats d_message].
    split.
    { split; [discriminate|]. intros (d & -> & Hd & Hx & Hf).
      destruct Hc as [(_ & [H|H])|[(d' & H & _ & Hx' & _)|(d' & H & _ & _ & Hf' & _)]];
        congruence. }
    split; [auto|].
    split.
    { intros Hs.
      destruct Hc as [(-> & _)|[(d' & -> & Hd & _)|(d' & -> & Hd & _)]];
        [reflexivity| |]; destruct Hs as [H|H]; congruence. }
    split.
    { intros d -> Hd Hx.
      destruct Hc as [(_ & [H|H])|[(d' & H & _ & _ & ->)|(d' & H & _ & Hx' & _)]];
        congruence. }
    { intros d -> Hd Hx Hf.
      destruct Hc as [(_ & [H|H])|[(d' & H & _ & Hx' & _)|(d' & H & _ & _ & _ & ->)]];
        congruence. }
  - destruct (@decompile_proceeds w source_dir progress_file Hr)
      as (-> & _ & _).
    destruct Hc as (d & -> & Hd & Hx & Hf).
    eexists. split; [reflexivity|]. cbn [d_success d_stats d_message].
    split; [split; [intros _; exists d; auto|reflexivity]|].
    split; [discriminate|].
    split; [intros [H|H]; congruence|].
    split; intros d' H; congruence.
Qed.

(** ** A walk of [create_rpa] that fails *)

Lemma walk_stops_at w pre st post msg :
  Forall (fun x => step_error w x = None) pre ->
  step_error w st = Some msg ->
  bad_step w (pre ++ st :: post) = Some st
  /\ done_steps w (pre ++ st :: post) = pre.
Proof.
  intros Hpre Hst. induction Hpre as [|x pre Hx _ IH]; cbn.
  - rewrite Hst. auto.
  - rewrite Hx. destruct IH as (-> & ->). auto.
Qed.

Lemma step_error_cause w st msg :
  step_error w st = Some msg ->
  match st with
  | SFile item_path archive_path rd =>
      exists e, file_cause w archive_path rd = Some e
                /\ msg = add_error_msg item_path e
  | SList _ err => err = Some msg
  end.
Proof.
  destruct st as [ip ap rd|dp err]; cbn; [|auto].
  destruct (file_cause w ap rd) as [e|]; [|discriminate].
  intros [= <-]. eauto.
Qed.

Lemma failed_step_adds_nothing w st msg :
  step_error w st = Some msg -> paths_added (step_calls w st) = [].
Proof.
  destruct st as [ip ap [c|e]|dp err]; cbn; try reflexivity.
  destruct (rpa_add w ap c); [discriminate|reflexivity].
Qed.

(** X17: how [create_rpa] reports a failure of the walk.  When the walk
    stops at a file that cannot be read or added, or at a directory that
    cannot be listed, the run returns the message of that step behind
    ["Error: "] and no files; the files added before stay added to the
    archive in memory, which is never saved.  With a progress file, the
    snapshots before the failure are all in progress; a file that fails is
    then reported by two failed snapshots, the one of [add_directory] and
    the one of the [except] clause, a directory by the second only. *)
Theorem create_failure_in_the_walk
    w source_dir output_rpa_path version key progress_file pre st post msg :
  dir_files (listdir w source_dir) <> 0 ->
  rpa_new w version key = Ok tt ->
  create_steps (after_write w progress_file) source_dir = pre ++ st :: post ->
  Forall (fun x => step_error w x = None) pre ->
  step_error w st = Some msg ->
  let m := create_rpa w source_dir output_rpa_path version key progress_file in
  let total := dir_files (listdir w source_dir) in
  let added := flat_map step_path pre in
  returned m = Ok {| success := false; message := ("Error: " ++ msg)%string;
                     files := [] |}
  /\ match st with
     | SFile item_path archive_path rd =>
         exists e, file_cause w archive_path rd = Some e
                   /\ msg = ("Error adding " ++ item_path ++ ": " ++ e)%string
     | SList _ err => err = Some msg
     end
  /\ paths_added (trace m) = added
  /\ (forall p err, ~ In (EvSave p err) (trace m))
  /\ (truthy progress_file = true ->
      exists before,
        map untimed (written (trace m))
        = before
            ++ create_failed w total (List.length added) st
            ++ [create_fault total (List.length added) msg]
        /\ Forall (fun d => state_of d = in_progress) before).
Proof.
  intros H0 Hn Hsteps Hpre Hst m total added. subst m total added.
  rewrite <- count_files_tree in *.
  destruct (@walk_stops_at w pre st post msg Hpre Hst) as (Hb & Hd).
  rewrite <- Hsteps in Hb, Hd.
  assert (Hr : walk_result w (create_steps (after_write w progress_file)
      source_dir) = Raise msg).
  { unfold walk_result. rewrite Hb, Hst. reflexivity. }
  assert (Ha : walk_added w (create_steps (after_write w progress_file)
      source_dir) = flat_map step_path pre).
  { unfold walk_added. rewrite Hd. reflexivity. }
  destruct (@create_rpa_walk_fails w source_dir output_rpa_path version key
                                   progress_file msg H0 Hn Hr) as (Hv & Hw & Hc).
  split; [exact Hv|]. split; [exact (@step_error_cause w st msg Hst)|].
  split; [|split].
  - rewrite <- paths_added_calls, Hc.
    change (paths_added (?x :: ?y)) with (paths_added [x] ++ paths_added y).
    unfold walk_calls. rewrite Hb, Hd, paths_added_app.
    destruct (@ok_steps_calls w pre Hpre) as (_ & ->).
    rewrite (@failed_step_adds_nothing w st msg Hst). cbn. apply app_nil_r.
  - intros p err Hin. apply in_calls in Hin; [|reflexivity].
    rewrite Hc in Hin. destruct Hin as [Hin|Hin]; [discriminate|].
    apply walk_calls_no_save in Hin. discriminate.
  - intros Hp. rewrite Hw, Hp. unfold walk_snapshots. rewrite Hb, Ha.
    exists (create_initial (count_files w source_dir)
              :: create_ticks (count_files w source_dir) 0
                              (flat_map step_path pre)).
    split; [cbn [app plus]; rewrite <- app_assoc; reflexivity|].
    constructor; [reflexivity|].
    apply create_ticks_forall. reflexivity.
Qed.

Lemma create_failure_in_the_walk_witness :
  dir_files (listdir one_unreadable "game") <> 0
  /\ returned (create_rpa one_unreadable "game" "out.rpa" 3 0xDEADBEEF None)
     = Ok {| success := false;
             message := "Error: Error adding game/b.txt: Permission denied";
             files := [] |}.
Proof.
  assert (H0 : dir_files (listdir one_unreadable "game") <> 0)
    by (vm_compute; discriminate).
  split; [exact H0|].
  apply (@create_failure_in_the_walk
           one_unreadable "game"%string "out.rpa"%string 3%Z 0xDEADBEEF%Z None
           [SList "game" None; SFile "game/a.txt" "a.txt" (Ok [])]
           (SFile "game/b.txt" "b.txt" (Raise "Permission denied"%string))
           []
           "Error adding game/b.txt: Permission denied"%string H0).
  - reflexivity.
  - reflexivity.
  - repeat constructor.
  - reflexivity.
Defined.

(** ** A successful run of [extract_rpa] *)

Section ExtractSuccess.

Variable w : world.
Variables (rpa_file_path output_dir : string).

Lemma ok_entry_attempts filename :
  entry_error w rpa_file_path output_dir filename = None ->
  write_attempts (entry_calls w rpa_file_path output_dir filename)
  = [path_join output_dir filename].
Proof.
  unfold entry_error, entry_calls, returned, trace, run, extract_entry.
  cbv zeta.
  destruct (rpa_read w rpa_file_path filename) as [contents|e] eqn:Hr;
    [ destruct (negb (dirname (path_join output_dir filename) =? "")
                && negb (path_exists w (dirname (path_join output_dir filename))))%bool;
      [ destruct (makedirs w (dirname (path_join output_dir filename)))
          as [[]|e1] eqn:Hm |];
      destruct (write_file w (path_join output_dir filename) contents)
        as [[]|e2] eqn:Hw
    | ];
    run_closed; cbn; intros H; (discriminate || reflexivity).
Qed.

Lemma ok_entries_attempts l :
  Forall (fun f => entry_error w rpa_file_path output_dir f = None) l ->
  write_attempts (flat_map (entry_calls w rpa_file_path output_dir) l)
  = map (path_join output_dir) l.
Proof.
  induction 1 as [|f l Hf _ IH]; [reflexivity|].
  cbn [flat_map map]. unfold write_attempts in *.
  rewrite flat_map_app, IH. fold (write_attempts (entry_calls w rpa_file_path output_dir f)).
  rewrite (ok_entry_attempts _ Hf). reflexivity.
Qed.

End ExtractSuccess.

Lemma extract_success_calls w rpa_file_path output_dir progress_file a :
  rpa_open w rpa_file_path = Ok a ->
  ensure_output (after_write w progress_file) output_dir = Ok tt ->
  first_failure (after_write w progress_file) rpa_file_path output_dir (a_list
      a) = None ->
  let m := extract_rpa w rpa_file_path output_dir progress_file in
  reads (trace m) = a_list a
  /\ files_written (trace m) = map (path_join output_dir) (a_list a)
  /\ write_attempts (trace m) = map (path_join output_dir) (a_list a).
Proof.
  intros Ho Hd Hf m. subst m.
  destruct (@extract_rpa_proceeds w rpa_file_path output_dir progress_file a
                                  Ho Hd) as (_ & _ & Hc).
  rewrite <- reads_calls, <- files_written_calls, <- write_attempts_calls, Hc.
  destruct (@ensure_calls_ok (after_write w progress_file) output_dir Hd) as (R0
      & W0 & A0 & _).
  pose proof (@first_failure_none (after_write w progress_file) rpa_file_path
      output_dir _ Hf) as Hall.
  pose proof (extracted_prefix_ok (after_write w progress_file) rpa_file_path
      output_dir (a_list a)) as Hok.
  rewrite Hall in Hok.
  destruct (ok_entries_calls (after_write w progress_file) rpa_file_path
      output_dir Hok) as (R & W & _ & _).
  pose proof (@ok_entries_attempts (after_write w progress_file) rpa_file_path
                                   output_dir _ Hok) as A.
  unfold loop_calls. rewrite Hf, Hall, app_nil_r.
  unfold reads, files_written, write_attempts in *.
  cbn [flat_map app]. rewrite !flat_map_app, R0, W0, A0, R, W, A.
  repeat split.
Qed.

(** X18: a run of [extract_rpa] that reports success has extracted the
    whole archive.  The files it returns are the listing of the archive, in
    its order; every entry has been read, once and in that order, and
    written to [os.path.join(output_dir, entry)]; no write has failed, and
    the message counts the entries. *)
Theorem successful_extraction_is_complete
    w rpa_file_path output_dir progress_file r :
  let m := extract_rpa w rpa_file_path output_dir progress_file in
  returned m = Ok r ->
  success r = true ->
  exists a,
    rpa_open w rpa_file_path = Ok a
    /\ files r = a_list a
    /\ reads (trace m) = a_list a
    /\ files_written (trace m) = map (path_join output_dir) (a_list a)
    /\ write_attempts (trace m) = files_written (trace m)
    /\ message r
       = ("Successfully extracted " ++ fmt_nat (List.length (a_list a))
          ++ " files")%string.
Proof.
  intros m Hv Hs. subst m. rewrite extract_rpa_returns in Hv.
  injection Hv as <-. unfold extract_summary in *. settle.
  destruct (rpa_open w rpa_file_path) as [a|e] eqn:Ho; [|discriminate].
  destruct (ensure_output (after_write w progress_file) output_dir)
    as [[]|e] eqn:Hd; [|discriminate].
  unfold extract_result in *.
  destruct (first_failure (after_write w progress_file) rpa_file_path
                          output_dir (a_list a)) as [fe|] eqn:Hf;
    [discriminate|].
  exists a. cbn [files message]. split; [reflexivity|]. split; [reflexivity|].
  destruct (@extract_success_calls w rpa_file_path output_dir progress_file a
                                   Ho Hd Hf) as (-> & -> & ->).
  repeat split.
Qed.

Lemma successful_extraction_is_complete_witness :
  success {| success := true; message := "Successfully extracted 7 files";
             files := ["e0"; "e1"; "e2"; "e3"; "e4"; "e5"; "e6"] |} = true
  /\ files_written (trace (extract_rpa seven_entries "game.rpa" "out" None))
     = ["out/e0"; "out/e1"; "out/e2"; "out/e3"; "out/e4"; "out/e5"; "out/e6"]%string.
Proof.
  split; [reflexivity|].
  destruct (@successful_extraction_is_complete
              seven_entries "game.rpa"%string "out"%string None
              {| success := true; message := "Successfully extracted 7 files";
                 files := ["e0"; "e1"; "e2"; "e3"; "e4"; "e5"; "e6"] |})
    as (a & Ho & _ & _ & Hw & _).
  - vm_compute. reflexivity.
  - reflexivity.
  - rewrite Hw. injection Ho as <-. reflexivity.
Defined.

(** ** The file shown while [decompile_directory] runs *)

Lemma basename_no_slash f : forall acc,
  no_slash f = true -> basename_from acc f = (acc ++ f)%string.
Proof.
  induction f as [|c f IH]; intros acc; cbn.
  - intros _. symmetry. apply string_app_nil_r.
  - destruct (Ascii.eqb c "/"); [discriminate|]. cbn. intros H.
    rewrite (IH _ H), string_app_assoc. reflexivity.
Qed.

Lemma basename_after_slash (x f : string) : forall acc,
  no_slash f = true -> basename_from acc (x ++ "/" ++ f) = f.
Proof.
  induction x as [|c x IH]; intros acc Hf.
  - cbn. apply (basename_no_slash f ""%string Hf).
  - cbn [append basename_from]. cbn [append] in IH.
    destruct (Ascii.eqb c "/"); apply IH, Hf.
Qed.

Lemma ends_with_slash_split (a : string) :
  ends_with_slash a = true -> exists x, a = (x ++ "/")%string.
Proof.
  induction a as [|c a IH]; [discriminate|].
  destruct a as [|c' a].
  - unfold ends_with_slash. cbn. intros H. apply Ascii.eqb_eq in H. subst c.
    exists ""%string. reflexivity.
  - rewrite ends_with_slash_cons by discriminate. intros H.
    destruct (IH H) as (x & ->). exists (String c x). reflexivity.
Qed.

(** [Path(os.path.join(root, file)).name] is [file], for a name without a
    slash. *)
Lemma path_name_join root file :
  no_slash file = true -> path_name (path_join root file) = file.
Proof.
  intros Hf. unfold path_name.
  rewrite path_join_rel by exact (no_slash_start _ Hf).
  destruct (String.eqb_spec root "") as [->|Hr]; cbn [orb].
  - apply (basename_no_slash file ""%string Hf).
  - destruct (ends_with_slash root) eqn:He.
    + destruct (ends_with_slash_split _ He) as (x & ->).
      rewrite string_app_assoc. apply basename_after_slash, Hf.
    + apply basename_after_slash, Hf.
Qed.




(** X19: while it runs, [decompile_directory] shows the file it is about
    to decompile by its name.  Every in-progress snapshot of a run shows
    either ["Scanning files..."] or, for a compiled script [file] found in a
    directory [root] of the walk, the last component of
    [os.path.join(root, file)]: the name [file] itself, as the names of a
    directory listing have no slash. *)
Theorem decompile_shows_the_file_name w source_dir progress_file d :
  In d (written (trace (decompile_directory w source_dir progress_file))) ->
  state_of d = in_progress ->
  currentFile d = "Scanning files..."%string
  \/ exists top root names file,
       source_dir = Some top
       /\ In (root, names) (os_walk top (listdir w top))
       /\ In file names /\ is_rpyc file = true
       /\ currentFile d = path_name (path_join root file)
       /\ (no_slash file = true -> currentFile d = file).
Proof.
  intros Hin Hs.
  assert (Hu : In (untimed d)
                  (map untimed
                       (written (trace (decompile_directory w source_dir
                                                            progress_file)))))
    by (apply in_map, Hin).
  destruct (decompile_refusal w source_dir) as [msg|] eqn:Hr.
  - destruct (@decompile_refused w source_dir progress_file msg Hr)
      as (_ & Hw & _).
    rewrite Hw in Hu. destruct (truthy progress_file); [|destruct Hu].
    destruct Hu as [Hu|[]].
    apply (f_equal state_of) in Hu. cbn in Hu. congruence.
  - destruct (@decompile_proceeds w source_dir progress_file Hr)
      as (_ & Hw & _).
    rewrite Hw in Hu. destruct (truthy progress_file); [|destruct Hu].
    destruct Hu as [Hu|Hu].
    { left. apply (f_equal currentFile) in Hu. cbn in Hu. congruence. }
    apply in_app_or in Hu. destruct Hu as [Hu|[Hu|[]]].
    + right. apply periodic_in in Hu.
      destruct Hu as (j & f & Hj & _ & Hd).
      apply nth_error_In in Hj.
      destruct source_dir as [top|]; [|destruct Hj].
      cbn [scanned] in Hj. apply find_rpyc_in in Hj.
      destruct Hj as (root & names & file & Hwk & Hf & Hrp & ->).
      apply (f_equal currentFile) in Hd.
      cbn [currentFile untimed decompile_tick] in Hd.
      exists top, root, names, file. repeat split; auto.
      intros Hns. rewrite Hd. apply path_name_join, Hns.
    + apply (f_equal state_of) in Hu. cbn in Hu. congruence.
Qed.

Lemma decompile_shows_the_file_name_witness :
  exists d,
    In d (written (trace (decompile_directory scripts (Some "game")
                                              (Some "progress.json"))))
    /\ state_of d = in_progress
    /\ currentFile d = "a.rpyc"%string.
Proof.
  exists {| op := decompile; totalFiles := 2; processedFiles := 0;
            currentFile := "a.rpyc"; startTime := 0; lastUpdateTime := 2;
            state_of := in_progress; errorMessage := "" |}.
  assert (Hin : In {| op := decompile; totalFiles := 2; processedFiles := 0;
                      currentFile := "a.rpyc"; startTime := 0;
                      lastUpdateTime := 2; state_of := in_progress;
                      errorMessage := "" |}
                   (written (trace (decompile_directory scripts (Some "game")
                                      (Some "progress.json")))))
    by (vm_compute; auto).
  split; [exact Hin|]. split; [reflexivity|].
  destruct (@decompile_shows_the_file_name scripts (Some "game"%string)
              (Some "progress.json"%string) _ Hin eq_refl) as [H|H];
    reflexivity.
Defined.
